(** * scale-converter: the arithmetic core of the 3D print scale converter

    The repository is a React application ([src/App.jsx], and an earlier
    single-page variant of the same component).  Its computational core is
    a handful of pure functions on JavaScript numbers: [clamp], [round],
    [inchesToFraction], the two unit tables, the scaled-millimetre
    computation of the measurement converter and the percentage of the
    scale-to-scale converter.  Around them are the handlers of the input
    fields, the text that the components show, the theme that is kept in
    [localStorage], and the [toast] notification.

    JavaScript numbers are IEEE-754 binary64 values.  They are modelled by
    [spec_float], the executable specification of binary floating point of
    the Standard Library, at precision 53 and maximal exponent 1024. *)

From Stdlib Require Import ZArith Lia Bool List String Ascii.
From Stdlib Require Import Floats.SpecFloat.
Import ListNotations.

Local Open Scope Z_scope.

(** ** JavaScript numbers and the built-ins the program calls *)

Module JS.

Definition number : Type := spec_float.

Definition prec : Z := 53.
Definition emax : Z := 1024.

Definition add : number -> number -> number := SFadd prec emax.
Definition sub : number -> number -> number := SFsub prec emax.
Definition mul : number -> number -> number := SFmul prec emax.
Definition div : number -> number -> number := SFdiv prec emax.

(** A number literal or an integer held in a number: the nearest binary64. *)
Definition of_Z (z : Z) : number := binary_normalize prec emax z 0 false.

(** The binary64 nearest to the rational [n / d] (ties to even), with the
    sign given apart so that a negative zero can be produced. *)
Definition of_ratio (neg : bool) (n d : Z) : number :=
  match n, d with
  | Zpos _, Zpos _ =>
      let '(q, e, l) := SFdiv_core_binary prec emax n 0 d 0 in
      binary_round_aux prec emax neg q e l
  | Z0, Zpos _ => S754_zero neg
  | _, _ => S754_nan
  end.

(** The binary64 nearest to [m * 10 ^ e]. *)
Definition of_decimal (neg : bool) (m e : Z) : number :=
  if 0 <=? e then of_ratio neg (m * 10 ^ e) 1 else of_ratio neg m (10 ^ (- e)).

Definition zero : number := S754_zero false.
Definition one : number := Eval vm_compute in of_Z 1.
Definition NaN : number := S754_nan.
Definition Infinity : number := S754_infinity false.

(** [Number.isFinite] on a number. *)
Definition isFinite (x : number) : bool :=
  match x with
  | S754_zero _ | S754_finite _ _ _ => true
  | S754_infinity _ | S754_nan => false
  end.

(** Truthiness of a number: everything but [+0], [-0] and [NaN]. *)
Definition truthy (x : number) : bool :=
  match x with
  | S754_zero _ | S754_nan => false
  | _ => true
  end.

(** [x === y] and [x < y] on numbers. *)
Definition strict_eq : number -> number -> bool := SFeqb.
Definition lt : number -> number -> bool := SFltb.

Definition sign_bit (x : number) : bool :=
  match x with
  | S754_zero s | S754_infinity s | S754_finite s _ _ => s
  | S754_nan => false
  end.

(** [Math.abs]. *)
Definition Math_abs : number -> number := SFabs.

(** [Math.max] and [Math.min] of two numbers: [NaN] if either is, and
    [+0] counts as larger than [-0]. *)
Definition Math_max (x y : number) : number :=
  match SFcompare x y with
  | None => S754_nan
  | Some Lt => y
  | Some Gt => x
  | Some Eq => if sign_bit x then y else x
  end.

Definition Math_min (x y : number) : number :=
  match SFcompare x y with
  | None => S754_nan
  | Some Lt => x
  | Some Gt => y
  | Some Eq => if sign_bit x then x else y
  end.

(** The integer [floor (x)] of a finite number with a negative exponent,
    and the number holding an integer result of sign [s] (a zero result
    keeps the sign of the argument). *)
Definition signed_mantissa (s : bool) (m : positive) : Z :=
  cond_Zopp s (Zpos m).

Definition of_int_signed (s : bool) (n : Z) : number :=
  match n with
  | Z0 => S754_zero s
  | _ => of_Z n
  end.

(** [Math.floor]: the largest integer not above [x]. *)
Definition Math_floor (x : number) : number :=
  match x with
  | S754_finite s m e =>
      if 0 <=? e then x
      else of_int_signed s (Z.shiftr (signed_mantissa s m) (- e))
  | _ => x
  end.

(** [Math.round]: the integer nearest to [x], ties towards [+Infinity];
    that is [floor (x + 1/2)] computed exactly. *)
Definition Math_round (x : number) : number :=
  match x with
  | S754_finite s m e =>
      if 0 <=? e then x
      else of_int_signed s
             (Z.shiftr (2 * signed_mantissa s m + Z.shiftl 1 (- e)) (- e + 1))
  | _ => x
  end.

(** [x % y]: the remainder of the truncating division, exact, with the sign
    of the dividend. *)
Definition rem (x y : number) : number :=
  match x, y with
  | S754_nan, _ | _, S754_nan => S754_nan
  | S754_infinity _, _ => S754_nan
  | _, S754_zero _ => S754_nan
  | _, S754_infinity _ => x
  | S754_zero _, _ => x
  | S754_finite sx mx ex, S754_finite _ my ey =>
      let ez := Z.min ex ey in
      let r := Z.rem (Z.shiftl (Zpos mx) (ex - ez)) (Z.shiftl (Zpos my) (ey - ez)) in
      binary_normalize prec emax (cond_Zopp sx r) ez sx
  end.

(** *** Decimal strings *)

Definition digit_char (d : Z) : ascii := ascii_of_nat (48 + Z.to_nat d).

Fixpoint digits_loop (fuel : nat) (n : Z) (acc : list ascii) : list ascii :=
  match fuel with
  | O => acc
  | S k =>
      let acc' := digit_char (n mod 10) :: acc in
      if n <? 10 then acc' else digits_loop k (n / 10) acc'
  end.

(** The decimal digits of a non-negative integer, most significant first;
    ["0"] for zero. *)
Definition decimal_digits (n : Z) : list ascii :=
  digits_loop (S (Z.to_nat (Z.log2 n))) n [].

Definition is_digit (c : ascii) : bool :=
  let k := Z.of_nat (nat_of_ascii c) in (48 <=? k) && (k <=? 57).

Definition digit_value (c : ascii) : Z := Z.of_nat (nat_of_ascii c) - 48.

(** Reads the longest run of decimal digits: the value read after [acc],
    the number of digits and the rest of the input. *)
Fixpoint scan_digits (acc : Z) (cnt : Z) (s : list ascii) : Z * Z * list ascii :=
  match s with
  | c :: s' =>
      if is_digit c then scan_digits (10 * acc + digit_value c) (cnt + 1) s'
      else (acc, cnt, s)
  | [] => (acc, cnt, s)
  end.

(** A string is held as the UTF-8 bytes of its text.  [Number] removes
    the white space and the line terminators of JavaScript at both ends of
    a string.  Those of one byte: tab, line feed, vertical tab, form feed,
    carriage return and space. *)
Definition is_space (c : ascii) : bool :=
  let k := nat_of_ascii c in
  ((9 <=? k) && (k <=? 13))%nat || (k =? 32)%nat.

(** Of two bytes: the no-break space U+00A0, [C2 A0]. *)
Definition is_space2 (c1 c2 : ascii) : bool :=
  ((nat_of_ascii c1 =? 194) && (nat_of_ascii c2 =? 160))%nat.

(** Of three bytes: U+1680 ([E1 9A 80]); U+2000 to U+200A, the line and
    paragraph separators U+2028 and U+2029, and U+202F ([E2 80 80] to
    [E2 80 8A], [E2 80 A8], [E2 80 A9], [E2 80 AF]); U+205F ([E2 81 9F]);
    U+3000 ([E3 80 80]); and the byte order mark U+FEFF ([EF BB BF]). *)
Definition is_space3 (c1 c2 c3 : ascii) : bool :=
  let k1 := nat_of_ascii c1 in
  let k2 := nat_of_ascii c2 in
  let k3 := nat_of_ascii c3 in
  (((k1 =? 225) && (k2 =? 154) && (k3 =? 128))
   || ((k1 =? 226) && (k2 =? 128) &&
       (((128 <=? k3) && (k3 <=? 138)) || (k3 =? 168) || (k3 =? 169) || (k3 =? 175)))
   || ((k1 =? 226) && (k2 =? 129) && (k3 =? 159))
   || ((k1 =? 227) && (k2 =? 128) && (k3 =? 128))
   || ((k1 =? 239) && (k2 =? 187) && (k3 =? 191)))%nat.

(** The white space at the left end removed. *)
Fixpoint trim_left (s : list ascii) : list ascii :=
  match s with
  | [] => []
  | c1 :: s1 =>
      if is_space c1 then trim_left s1
      else
        match s1 with
        | [] => s
        | c2 :: s2 =>
            if is_space2 c1 c2 then trim_left s2
            else
              match s2 with
              | [] => s
              | c3 :: s3 => if is_space3 c1 c2 c3 then trim_left s3 else s
              end
        end
  end.

(** The same on a string given last byte first. *)
Fixpoint trim_left_reversed (s : list ascii) : list ascii :=
  match s with
  | [] => []
  | c1 :: s1 =>
      if is_space c1 then trim_left_reversed s1
      else
        match s1 with
        | [] => s
        | c2 :: s2 =>
            if is_space2 c2 c1 then trim_left_reversed s2
            else
              match s2 with
              | [] => s
              | c3 :: s3 => if is_space3 c3 c2 c1 then trim_left_reversed s3 else s
              end
        end
  end.

Definition trim (s : list ascii) : list ascii :=
  rev (trim_left_reversed (rev (trim_left s))).

(** Digits of a literal in radix 2, 8 or 16. *)
Definition radix_digit (radix : Z) (c : ascii) : option Z :=
  let k := Z.of_nat (nat_of_ascii c) in
  let v := if (48 <=? k) && (k <=? 57) then k - 48
           else if (97 <=? k) && (k <=? 102) then k - 87
           else if (65 <=? k) && (k <=? 70) then k - 55
           else radix in
  if v <? radix then Some v else None.

Fixpoint scan_radix (radix : Z) (acc : Z) (s : list ascii) : option Z :=
  match s with
  | [] => Some acc
  | c :: s' =>
      match radix_digit radix c with
      | Some v => scan_radix radix (radix * acc + v) s'
      | None => None
      end
  end.

Definition radix_literal (radix : Z) (s : list ascii) : number :=
  match s with
  | [] => S754_nan
  | _ => match scan_radix radix 0 s with
         | Some v => of_ratio false v 1
         | None => S754_nan
         end
  end.

(** The exponent part of a decimal literal: nothing, or [e] or [E], an
    optional sign and at least one digit, up to the end of the input. *)
Definition exponent_part (s : list ascii) : option Z :=
  match s with
  | [] => Some 0
  | c :: s' =>
      if Ascii.eqb c "e"%char || Ascii.eqb c "E"%char then
        let '(neg, s'') :=
          match s' with
          | "-"%char :: t => (true, t)
          | "+"%char :: t => (false, t)
          | _ => (false, s')
          end in
        match scan_digits 0 0 s'' with
        | (v, cnt, []) => if 0 <? cnt then Some (cond_Zopp neg v) else None
        | _ => None
        end
      else None
  end.

(** An unsigned decimal literal: digits, an optional point and digits, an
    optional exponent; at least one digit before the exponent. *)
Definition unsigned_decimal (neg : bool) (s : list ascii) : number :=
  let '(ip, icnt, s1) := scan_digits 0 0 s in
  let '(m, fcnt, s2) :=
    match s1 with
    | "."%char :: t => let '(m, fcnt, s2) := scan_digits ip 0 t in (m, fcnt, s2)
    | _ => (ip, 0, s1)
    end in
  if 0 <? icnt + fcnt then
    match exponent_part s2 with
    | Some e => of_decimal neg m (e - fcnt)
    | None => S754_nan
    end
  else S754_nan.

Definition Infinity_literal : list ascii := list_ascii_of_string "Infinity"%string.

Definition signed_decimal (neg : bool) (s : list ascii) : number :=
  if list_eq_dec ascii_dec s Infinity_literal then S754_infinity neg
  else unsigned_decimal neg s.

(** The numeric value of a string without white space around it: [+0] when
    it is empty, [NaN] when it is not a numeric literal. *)
Definition Number_literal (l : list ascii) : number :=
  match l with
  | [] => S754_zero false
  | "0"%char :: "x"%char :: t | "0"%char :: "X"%char :: t => radix_literal 16 t
  | "0"%char :: "o"%char :: t | "0"%char :: "O"%char :: t => radix_literal 8 t
  | "0"%char :: "b"%char :: t | "0"%char :: "B"%char :: t => radix_literal 2 t
  | "-"%char :: t => signed_decimal true t
  | "+"%char :: t => signed_decimal false t
  | t => signed_decimal false t
  end.

(** [Number(s)] for a string [s]. *)
Definition Number (s : string) : number :=
  Number_literal (trim (list_ascii_of_string s)).

(** [s.replace(/,/g, "")]: every comma removed. *)
Fixpoint remove_commas (s : string) : string :=
  match s with
  | EmptyString => EmptyString
  | String c s' =>
      if Ascii.eqb c ","%char then remove_commas s' else String c (remove_commas s')
  end.

(** *** [Number.prototype.toFixed] *)

(** The outcome of a call that may throw a [RangeError]. *)
Inductive completion (A : Type) : Type :=
  | Normal (a : A)
  | RangeError.
Arguments Normal {A} a.
Arguments RangeError {A}.

Definition bind {A B : Type} (c : completion A) (k : A -> completion B) : completion B :=
  match c with
  | Normal a => k a
  | RangeError => RangeError
  end.

Notation "x <- c ;; k" := (bind c (fun x => k))
  (at level 61, c at next level, right associativity).

(** [ToIntegerOrInfinity]: [NaN] counts as 0, a finite number is truncated
    towards zero, an infinity has no integer. *)
Definition ToIntegerOrInfinity (x : number) : option Z :=
  match x with
  | S754_nan | S754_zero _ => Some 0
  | S754_infinity _ => None
  | S754_finite s m e => Some (cond_Zopp s (Z.shiftl (Zpos m) e))
  end.

(** The integer [n] for which [n / 10 ^ f] is nearest to [m * 2 ^ e], the
    larger one of two. *)
Definition fixed_integer (m : positive) (e : Z) (f : Z) : Z :=
  if 0 <=? e then Z.shiftl (Zpos m * 10 ^ f) e
  else Z.shiftr (2 * Zpos m * 10 ^ f + Z.shiftl 1 (- e)) (- e + 1).

Fixpoint zeros (n : nat) : list ascii :=
  match n with
  | O => []
  | S k => "0"%char :: zeros k
  end.

(** The digits of [n] with a point before the last [f] of them. *)
Definition fixed_digits (n : Z) (f : Z) : list ascii :=
  let m := decimal_digits n in
  if f =? 0 then m
  else
    let k := Z.of_nat (List.length m) in
    let m' := if k <=? f then zeros (Z.to_nat (f + 1 - k)) ++ m else m in
    let k' := Z.of_nat (List.length m') in
    firstn (Z.to_nat (k' - f)) m' ++ "."%char :: skipn (Z.to_nat (k' - f)) m'.

Fixpoint strip_zeros (fuel : nat) (c p : Z) : Z * Z :=
  match fuel with
  | O => (c, p)
  | S k => if (c mod 10 =? 0) && (0 <? c) then strip_zeros k (c / 10) (p + 1) else (c, p)
  end.

(** The shortest decimal [c * 10 ^ p] that reads back as the number [x],
    whose value is the integer [X] of [D] digits: the candidates of [k]
    digits are tried for [k = 1, 2, ...], the nearer one first. *)
Fixpoint shortest_decimal (fuel : nat) (k : Z) (x : number) (X D : Z) : Z * Z :=
  match fuel with
  | O => (X, 0)
  | S fuel' =>
      let p := D - k in
      let lo := X / 10 ^ p in
      let hi := lo + 1 in
      let ok_lo := strict_eq (of_decimal false lo p) x in
      let ok_hi := strict_eq (of_decimal false hi p) x in
      let lo_nearer :=
        match X - lo * 10 ^ p ?= hi * 10 ^ p - X with
        | Lt => true
        | Gt => false
        | Eq => Z.even lo
        end in
      if ok_lo && (lo_nearer || negb ok_hi) then (lo, p)
      else if ok_hi then (hi, p)
      else shortest_decimal fuel' (k + 1) x X D
  end.

(** [Number::toString] of a finite number of magnitude [m * 2 ^ e] that is
    at least [10 ^ 21]: exponential notation, no sign. *)
Definition toString_large (m : positive) (e : Z) : list ascii :=
  let X := Z.shiftl (Zpos m) e in
  let D := Z.of_nat (List.length (decimal_digits X)) in
  let '(c0, p0) := shortest_decimal (Z.to_nat D) 1 (S754_finite false m e) X D in
  let '(c, p) := strip_zeros (Z.to_nat D) c0 p0 in
  let ds := decimal_digits c in
  let n := Z.of_nat (List.length ds) + p in
  match ds with
  | [] => []
  | d :: [] => d :: "e"%char :: "+"%char :: decimal_digits (n - 1)
  | d :: rest => d :: "."%char :: rest ++ "e"%char :: "+"%char :: decimal_digits (n - 1)
  end.

(** [x.toFixed(dp)]. *)
Definition toFixed (x dp : number) : completion string :=
  match ToIntegerOrInfinity dp with
  | None => RangeError
  | Some f =>
      if (f <? 0) || (100 <? f) then RangeError
      else
        Normal
          match x with
          | S754_nan => "NaN"%string
          | S754_infinity false => "Infinity"%string
          | S754_infinity true => "-Infinity"%string
          | S754_zero _ => string_of_list_ascii (fixed_digits 0 f)
          | S754_finite s m e =>
              let sg := if s then ["-"%char] else [] in
              if 10 ^ 21 <=? Z.shiftl (Zpos m) e
              then string_of_list_ascii (sg ++ toString_large m e)
              else string_of_list_ascii (sg ++ fixed_digits (fixed_integer m e f) f)
          end
  end.

End JS.

Import JS.

(** ** Definitions shared by both variants of the component

    [clamp], [round], [inchesToFraction], [METRIC_UNITS], [IMPERIAL_UNITS]
    and [ALL_SCALES] are the same, character for character, in
    [src/App.jsx] and in the earlier single-page variant. *)

(** The number literals of the program, as binary64 values. *)
Definition n6 : number := Eval vm_compute in of_Z 6.
Definition n10 : number := Eval vm_compute in of_Z 10.
Definition n12 : number := Eval vm_compute in of_Z 12.
Definition n72 : number := Eval vm_compute in of_Z 72.
Definition n100 : number := Eval vm_compute in of_Z 100.
Definition n1000 : number := Eval vm_compute in of_Z 1000.
Definition n2 : number := Eval vm_compute in of_Z 2.
Definition n16 : number := Eval vm_compute in of_Z 16.
Definition n25_4 : number := Eval vm_compute in of_decimal false 254 (-1).

(** [const clamp = (v, min, max) => Math.min(Math.max(v, min), max)] *)
Definition clamp (v min max : number) : number :=
  Math_min (Math_max v min) max.

(** [const round = (v, dp = 3) => (Number.isFinite(v) ? Number(v.toFixed(dp)) : 0)].
    Every call site passes [dp]. *)
Definition round (v dp : number) : completion number :=
  if isFinite v then s <- toFixed v dp ;; Normal (Number s)
  else Normal zero.

(** A JavaScript value, for an argument that is tested with
    [Number.isFinite] before it is used as a number. *)
Inductive value : Type :=
  | Undefined
  | Null
  | Bool (b : bool)
  | Str (s : string)
  | Num (x : number).

(** [Number.isFinite(v)]: no coercion, anything but a number is not finite. *)
Definition Number_isFinite (v : value) : bool :=
  match v with
  | Num x => isFinite x
  | _ => false
  end.

Record Fraction : Type := mkFraction
  { sign : string; whole : number; num : number; denom : number }.

(** The depth to which the engine lets a function call itself; a deeper
    recursion ends in a [RangeError]. *)
Definition call_depth : nat := Z.to_nat 5000.

(** [const g = (a, b) => (b ? g(b, a % b) : a)] *)
Fixpoint g (depth : nat) (a b : number) : completion number :=
  match depth with
  | O => RangeError
  | S depth' => if truthy b then g depth' b (rem a b) else Normal a
  end.

(** [function inchesToFraction(inches, denom = 16)]; every call site passes
    [denom]. *)
Definition inchesToFraction (inches : value) (denom : number) : completion Fraction :=
  match inches with
  | Num x =>
      if negb (isFinite x) then Normal (mkFraction "" zero zero denom)
      else
        let sign := if lt x zero then "-"%string else ""%string in
        let abs := Math_abs x in
        let whole := Math_floor abs in
        let frac := sub abs whole in
        let num := Math_round (mul frac denom) in
        if strict_eq num denom then Normal (mkFraction sign (add whole one) zero denom)
        else
          r <- g call_depth num denom ;;
          let gg := if truthy r then r else one in
          Normal (mkFraction sign whole (div num gg) (div denom gg))
  | _ => Normal (mkFraction "" zero zero denom)
  end.

Record Unit : Type := mkUnit
  { key : string; label : string; toMM : number -> number; fromMM : number -> number }.

Definition METRIC_UNITS : list Unit :=
  [ mkUnit "mm" "Millimetres (mm)" (fun v => v) (fun mm => mm);
    mkUnit "cm" "Centimetres (cm)" (fun v => mul v n10) (fun mm => div mm n10);
    mkUnit "m" "Metres (m)" (fun v => mul v n1000) (fun mm => div mm n1000) ].

Definition IMPERIAL_UNITS : list Unit :=
  [ mkUnit "in" "Inches (in)" (fun v => mul v n25_4) (fun mm => div mm n25_4);
    mkUnit "ft" "Feet (ft)" (fun v => mul (mul v n12) n25_4)
                            (fun mm => div mm (mul n12 n25_4)) ].

(** [Array.from({ length: 72 }, (_, i) => i + 1)] *)
Definition ALL_SCALES : list number :=
  map (fun i => add (of_Z (Z.of_nat i)) one) (seq 0 72).

(** The state of the measurement converter that its computations read. *)
Record Inputs : Type := mkInputs
  { system : string;
    metricUnit : string;
    imperialUnit : string;
    inputValue : string;
    scaleN : number;
    inchDenom : number;
    decimals : number }.

Definition unitList (st : Inputs) : list Unit :=
  if String.eqb (system st) "metric" then METRIC_UNITS else IMPERIAL_UNITS.

Definition activeUnitKey (st : Inputs) : string :=
  if String.eqb (system st) "metric" then metricUnit st else imperialUnit st.

(** [unitList.find((u) => u.key === activeUnitKey) || unitList[0]]; both
    tables are non-empty, the default of [hd] is never used. *)
Definition activeUnit (st : Inputs) : Unit :=
  match find (fun u => String.eqb (key u) (activeUnitKey st)) (unitList st) with
  | Some u => u
  | None => hd (mkUnit "" "" (fun v => v) (fun v => v)) (unitList st)
  end.

Record MetricOut : Type := mkMetricOut
  { out_mm : number; out_cm : number; out_m : number }.

Record ImperialOut : Type := mkImperialOut
  { out_in : number; out_ft : number; out_frac : Fraction }.

(** [metricOut] and [imperialOut] compute the same in both variants. *)
Definition metricOut (mmScaled decimals : number) : completion MetricOut :=
  mm <- round mmScaled decimals ;;
  cm <- round (div mmScaled n10) decimals ;;
  m <- round (div mmScaled n1000) decimals ;;
  Normal (mkMetricOut mm cm m).

Definition imperialOut (mmScaled decimals inchDenom : number) : completion ImperialOut :=
  let inches := div mmScaled n25_4 in
  let feet := div inches n12 in
  frac <- inchesToFraction (Num inches) inchDenom ;;
  i <- round inches decimals ;;
  f <- round feet decimals ;;
  Normal (mkImperialOut i f frac).

(** ** [src/App.jsx] *)

Module App.

(** [MeasurementConverter]: the scaled length in millimetres. *)
Definition mmScaled (st : Inputs) : number :=
  let num := Number (inputValue st) in
  if negb (isFinite num) then zero
  else
    let mmOrig := toMM (activeUnit st) num in
    div mmOrig (scaleN st).

(** [ScaleToScaleConverter]: the percentage, the number [0] or the string
    that [toFixed] returns. *)
Definition percent (fromScale toScale : number) : completion value :=
  if negb (truthy fromScale) || negb (truthy toScale) then Normal (Num zero)
  else s <- toFixed (mul (div fromScale toScale) n100) n2 ;; Normal (Str s).

End App.

(** ** The single-page variant ([ScaleConverter]) *)

Module ScaleConverter.

Definition mmScaled (st : Inputs) : number :=
  let val := Number (remove_commas (inputValue st)) in
  let v := if isFinite val then val else zero in
  let mmOrig := toMM (activeUnit st) v in
  let scaled := div mmOrig (clamp (scaleN st) one n72) in
  scaled.

End ScaleConverter.

(** ** Reading numbers as binary64 values

    Definitions used to state and prove the properties: what the
    operations above compute, not part of the program. *)

Definition fexp64 (e : Z) : Z := Z.max (e - 53) (-1074).

(** A number is a binary64 value when its mantissa and exponent are in
    canonical form. *)
Definition valid (x : number) : Prop := valid_binary prec emax x = true.

(** The exponent of the binary64 format for the value [M * 2 ^ E]. *)
Definition cexp (M E : Z) : Z := fexp64 (Zdigits2 M + E).

(** The number of sign [s] and magnitude [M * 2 ^ E], when that magnitude
    is a binary64 value. *)
Definition canon (s : bool) (M E : Z) : number :=
  S754_finite s (Z.to_pos (Z.shiftl M (E - cexp M E))) (cexp M E).

(** [M * 2 ^ E] takes no rounding: either it has room at the right, or
    the bits that leave are zero. *)
Definition exact (M E : Z) : Prop :=
  cexp M E <= E \/ (2 ^ (cexp M E - E) | M).

(** Structural equality of numbers, to check tables of cases by
    computation. *)
Definition number_eqb (x y : number) : bool :=
  match x, y with
  | S754_zero a, S754_zero b => Bool.eqb a b
  | S754_infinity a, S754_infinity b => Bool.eqb a b
  | S754_nan, S754_nan => true
  | S754_finite a m e, S754_finite b m' e' => Bool.eqb a b && Pos.eqb m m' && Z.eqb e e'
  | _, _ => false
  end.

(** The last step of [inchesToFraction], from the rounded numerator on:
    whether the whole part is incremented, and the reduced numerator and
    denominator. *)
Definition reduce (num denom : number) : completion (bool * number * number) :=
  if strict_eq num denom then Normal (true, zero, denom)
  else
    r <- g call_depth num denom ;;
    let gg := if truthy r then r else one in
    Normal (false, div num gg, div denom gg).

(** What [reduce] is expected to return on the integers [N] and [2 ^ j]. *)
Definition reduce_check (j N : Z) : bool :=
  let d := 2 ^ j in
  match reduce (of_int_signed false N) (of_Z d) with
  | Normal (carry, n', d') =>
      if N =? d then carry && number_eqb n' zero && number_eqb d' (of_Z d)
      else negb carry && number_eqb n' (of_Z (N / Z.gcd N d))
           && number_eqb d' (of_Z (d / Z.gcd N d))
  | RangeError => false
  end.

(** The state of the component when it is first shown. *)
Definition initial_inputs : Inputs :=
  mkInputs "metric" "mm" "in" "100" n10 n16 (of_Z 3).

(** The magnitude of a number counted in units of [2 ^ -1074], the
    smallest positive binary64 value; 0 for anything that is not finite. *)
Definition ulps (x : number) : Z :=
  match x with
  | S754_finite _ m e => Zpos m * 2 ^ (e + 1074)
  | _ => 0
  end.

(** The integer that a list of decimal digits denotes. *)
Definition digits_value (l : list ascii) : Z :=
  fold_left (fun a c => 10 * a + digit_value c) l 0.

(** A number with the sign bit [s]. *)
Definition with_sign (s : bool) (x : number) : number :=
  match x with
  | S754_zero _ => S754_zero s
  | S754_infinity _ => S754_infinity s
  | S754_nan => S754_nan
  | S754_finite _ m e => S754_finite s m e
  end.

(** A byte of plain text that is not white space: no white space starts
    or ends with it. *)
Definition no_space_byte (c : ascii) : bool :=
  negb (is_space c) && (nat_of_ascii c <? 128)%nat.

(** The input left after a run of digits does not go on with a digit. *)
Definition no_leading_digit (rest : list ascii) : Prop :=
  match rest with
  | c :: _ => is_digit c = false
  | [] => True
  end.


(** The exponential notation of the decimal [c * 10 ^ p], as
    [toString_large] prints it. *)
Definition exponential_digits (c p : Z) : list ascii :=
  let ds := decimal_digits c in
  let n := Z.of_nat (List.length ds) + p in
  match ds with
  | [] => []
  | d :: [] => d :: "e"%char :: "+"%char :: decimal_digits (n - 1)
  | d :: rest => d :: "."%char :: rest ++ "e"%char :: "+"%char :: decimal_digits (n - 1)
  end.

(** [z] is finite, has the sign of [v], and its magnitude differs from that
    of [v] by at most [2 ^ -50] times the magnitude of [v] plus two units of
    [2 ^ -1074]. *)
Definition close_to (v z : number) : Prop :=
  isFinite z = true /\ sign_bit z = sign_bit v /\
  2 ^ 50 * Z.abs (ulps z - ulps v) <= ulps v + 2 ^ 51.

(** Every unit of both tables. *)
Definition ALL_UNITS : list Unit := METRIC_UNITS ++ IMPERIAL_UNITS.

(** ** The handlers of the input fields *)

(** The precision that the component stores for the text [s] of its
    field: [setDecimals(clamp(Number(e.target.value), 0, 6))]. *)
Definition setDecimals_text (s : string) : number := clamp (Number s) zero n6.

(** ** Checks by computation *)

(** Whether the percentage from scale [a] to scale [b] is the text of
    [k / 100], where [k] is [10000 * a / b] rounded to the nearest integer,
    the larger of two. *)
Definition percent_check (a b : Z) : bool :=
  match App.percent (of_Z a) (of_Z b) with
  | Normal (Str s) =>
      String.eqb s (string_of_list_ascii (fixed_digits ((20000 * a + b) / (2 * b)) 2))
  | _ => false
  end.

(** ** [Number::toString], for numbers shown as text *)

(** The decimal exponent [n] of a positive rational [A / B]:
    [10 ^ (n - 1) <= A / B < 10 ^ n]. *)
Fixpoint scale_up (fuel : nat) (A B t : Z) : Z :=
  match fuel with
  | O => t
  | S fuel' => if B <=? A * 10 ^ t then t else scale_up fuel' A B (t + 1)
  end.

Definition decimal_exponent (A B : Z) : Z :=
  if B <=? A then Z.of_nat (List.length (decimal_digits (A / B)))
  else 1 - scale_up (S (Z.to_nat (Z.log2 B))) A B 1.

(** The shortest decimal [c * 10 ^ p] that reads back as the positive
    number [x = A / B] of decimal exponent [n]: for [k = 1, 2, ...] the two
    decimals of [k] digits around [x] are tried, the nearer one first and
    the even one if both are as near. *)
Fixpoint shortest_digits (fuel : nat) (k : Z) (x : number) (A B n : Z) : option (Z * Z) :=
  match fuel with
  | O => None
  | S fuel' =>
      let p := n - k in
      let '(Nn, Dd) := if p <=? 0 then (A * 10 ^ (- p), B) else (A, B * 10 ^ p) in
      let lo := Nn / Dd in
      let hi := lo + 1 in
      let ok_lo := strict_eq (of_decimal false lo p) x in
      let ok_hi := strict_eq (of_decimal false hi p) x in
      let lo_nearer :=
        match Nn - lo * Dd ?= hi * Dd - Nn with
        | Lt => true
        | Gt => false
        | Eq => Z.even lo
        end in
      if ok_lo && (lo_nearer || negb ok_hi) then Some (lo, p)
      else if ok_hi then Some (hi, p)
      else shortest_digits fuel' (k + 1) x A B n
  end.

(** The digits [ds] of a decimal with the point after the first [n] of
    them, laid out as [Number::toString] does: plain digits for an
    integer below [10 ^ 21], a point inside, [0.] and up to five zeros in
    front, and exponential notation otherwise. *)
Definition format_decimal (ds : list ascii) (n : Z) : list ascii :=
  let k := Z.of_nat (List.length ds) in
  if (k <=? n) && (n <=? 21) then ds ++ zeros (Z.to_nat (n - k))
  else if (0 <? n) && (n <=? 21) then
    firstn (Z.to_nat n) ds ++ "."%char :: skipn (Z.to_nat n) ds
  else if (-6 <? n) && (n <=? 0) then
    "0"%char :: "."%char :: zeros (Z.to_nat (- n)) ++ ds
  else
    let e := n - 1 in
    let es := (if e <? 0 then "-"%char else "+"%char) :: decimal_digits (Z.abs e) in
    match ds with
    | [] => []
    | d :: [] => d :: "e"%char :: es
    | d :: rest => d :: "."%char :: rest ++ "e"%char :: es
    end.

(** [Number::toString(x)] in radix 10.  Seventeen digits always suffice
    to tell a binary64 value from its neighbours; the exact decimal
    expansion stands for the case that is not reached. *)
Definition Number_toString (x : number) : string :=
  match x with
  | S754_nan => "NaN"%string
  | S754_zero _ => "0"%string
  | S754_infinity s => if s then "-Infinity"%string else "Infinity"%string
  | S754_finite s m e =>
      let sg := if s then ["-"%char] else [] in
      if 10 ^ 21 <=? Z.shiftl (Zpos m) e
      then string_of_list_ascii (sg ++ toString_large m e)
      else
        let A := if 0 <=? e then Z.shiftl (Zpos m) e else Zpos m in
        let B := if 0 <=? e then 1 else Z.shiftl 1 (- e) in
        let n := decimal_exponent A B in
        let '(c0, p0) :=
          match shortest_digits 17 1 (S754_finite false m e) A B n with
          | Some cp => cp
          | None => if 0 <=? e then (A, 0) else (Zpos m * 5 ^ (- e), e)
          end in
        let '(c, p) := strip_zeros 400 c0 p0 in
        let ds := decimal_digits c in
        string_of_list_ascii (sg ++ format_decimal ds (Z.of_nat (List.length ds) + p))
  end.

(** [String(v)] and the text of [${v}] in a template literal. *)
Definition ToString (v : value) : string :=
  match v with
  | Undefined => "undefined"%string
  | Null => "null"%string
  | Bool b => if b then "true"%string else "false"%string
  | Str s => s
  | Num x => Number_toString x
  end.


(** ** What the components show *)

(** A number or a string among the children of an element is shown as
    its text, [String(v)].  The mixed fraction in [src/App.jsx]:
    [{frac.whole}{frac.num ? ` ${frac.num}/${frac.denom}` : ""} in]. *)
Definition App_fraction_text (frac : Fraction) : string :=
  (Number_toString (whole frac) ++
   (if truthy (num frac)
    then " " ++ Number_toString (num frac) ++ "/" ++ Number_toString (denom frac)
    else "") ++ " in ")%string.

(** The mixed fraction in the single-page variant:
    [{frac.sign}{frac.whole}{frac.num ? <>{frac.whole ? " " : null}
    <sup>{frac.num}</sup>/<sub>{frac.denom}</sub> in</>
    : frac.whole ? " in" : "0 in"}], as the text of the paragraph. *)
Definition ScaleConverter_fraction_text (frac : Fraction) : string :=
  (sign frac ++ Number_toString (whole frac) ++
   (if truthy (num frac)
    then (if truthy (whole frac) then " " else "") ++
         Number_toString (num frac) ++ "/" ++ Number_toString (denom frac) ++ " in"
    else if truthy (whole frac) then " in" else "0 in"))%string.

(** [{percent}%], shown and copied. *)
Definition percent_text (percent : value) : string :=
  (ToString percent ++ "%")%string.

(** ** The handlers of the measurement converter *)

(** [[2, 4, 8, 16, 32, 64]], the denominators that the single-page variant
    offers. *)
Definition DENOMINATORS : list number := map of_Z [2; 4; 8; 16; 32; 64].

(** What the user can do: type in the value field, press one of the two
    system buttons, choose the [i]-th option of the unit, scale or
    denominator selector, type in the precision field.  The denominator
    selector exists in the single-page variant only. *)
Inductive Event : Type :=
  | ChangeValue (text : string)
  | ClickSystem (metric : bool)
  | SelectUnit (i : nat)
  | SelectScale (i : nat)
  | ChangeDecimals (text : string)
  | SelectDenom (i : nat).

(** The handlers.  An option of a selector carries its value as text,
    [String(n)] for a number [n], and the handler of a number reads it
    back with [Number(e.target.value)]; a selector has no option beyond
    its list. *)
Definition handle (st : Inputs) (ev : Event) : Inputs :=
  match ev with
  | ChangeValue text =>
      mkInputs (system st) (metricUnit st) (imperialUnit st) text
               (scaleN st) (inchDenom st) (decimals st)
  | ClickSystem metric =>
      mkInputs (if metric then "metric" else "imperial") (metricUnit st)
               (imperialUnit st) (inputValue st) (scaleN st) (inchDenom st) (decimals st)
  | SelectUnit i =>
      match nth_error (unitList st) i with
      | Some u =>
          if String.eqb (system st) "metric"
          then mkInputs (system st) (key u) (imperialUnit st) (inputValue st)
                        (scaleN st) (inchDenom st) (decimals st)
          else mkInputs (system st) (metricUnit st) (key u) (inputValue st)
                        (scaleN st) (inchDenom st) (decimals st)
      | None => st
      end
  | SelectScale i =>
      match nth_error ALL_SCALES i with
      | Some n =>
          mkInputs (system st) (metricUnit st) (imperialUnit st) (inputValue st)
                   (Number (Number_toString n)) (inchDenom st) (decimals st)
      | None => st
      end
  | ChangeDecimals text =>
      mkInputs (system st) (metricUnit st) (imperialUnit st) (inputValue st)
               (scaleN st) (inchDenom st) (setDecimals_text text)
  | SelectDenom i =>
      match nth_error DENOMINATORS i with
      | Some d =>
          mkInputs (system st) (metricUnit st) (imperialUnit st) (inputValue st)
                   (scaleN st) (Number (Number_toString d)) (decimals st)
      | None => st
      end
  end.

(** The state after a sequence of events, from the first render on. *)
Definition after (evs : list Event) : Inputs := fold_left handle evs initial_inputs.

(** ** The handlers of the scale-to-scale converter *)

Record Scales : Type := mkScales { fromScale : number; toScale : number }.

(** [useState(14)] and [useState(18)]. *)
Definition initial_scales : Scales := mkScales (of_Z 14) (of_Z 18).

Inductive ScaleEvent : Type :=
  | SelectFrom (i : nat)
  | SelectTo (i : nat).

Definition handle_scale (st : Scales) (ev : ScaleEvent) : Scales :=
  match ev with
  | SelectFrom i =>
      match nth_error ALL_SCALES i with
      | Some n => mkScales (Number (Number_toString n)) (toScale st)
      | None => st
      end
  | SelectTo i =>
      match nth_error ALL_SCALES i with
      | Some n => mkScales (fromScale st) (Number (Number_toString n))
      | None => st
      end
  end.

Definition scales_after (evs : list ScaleEvent) : Scales :=
  fold_left handle_scale evs initial_scales.

(** ** The theme *)

(** What the theme code reads and writes in the browser: the entries of
    [localStorage], the classes of the root element, the title of the
    document, and the answer of
    [window.matchMedia("(prefers-color-scheme: dark)")]: [None] where the
    browser has no [matchMedia], else whether the query matches. *)
Record Browser : Type := mkBrowser
  { localStorage : list (string * string);
    classList : list string;
    title : string;
    matchMedia : option bool }.

(** [localStorage.getItem(k)]; [None] is [null]. *)
Fixpoint getItem (k : string) (store : list (string * string)) : option string :=
  match store with
  | [] => None
  | (k', v) :: store' => if String.eqb k' k then Some v else getItem k store'
  end.

(** [localStorage.setItem(k, v)] *)
Fixpoint setItem (k v : string) (store : list (string * string))
  : list (string * string) :=
  match store with
  | [] => [(k, v)]
  | (k', v') :: store' =>
      if String.eqb k' k then (k', v) :: store' else (k', v') :: setItem k v store'
  end.

(** [classList.add(c)] and [classList.remove(c)] *)
Definition classList_add (c : string) (l : list string) : list string :=
  if existsb (String.eqb c) l then l else l ++ [c].

Definition classList_remove (c : string) (l : list string) : list string :=
  filter (fun c' => negb (String.eqb c c')) l.

(** The initialiser of the [theme] state:
    [saved = localStorage.getItem("theme")], returned if it is ["dark"] or
    ["light"]; else
    [window.matchMedia?.("(prefers-color-scheme: dark)").matches ? "dark" : "light"],
    where the optional call gives [undefined] without [matchMedia]. *)
Definition initial_theme (b : Browser) : string :=
  let preferred :=
    match matchMedia b with
    | Some true => "dark"%string
    | _ => "light"%string
    end in
  match getItem "theme" (localStorage b) with
  | Some saved =>
      if String.eqb saved "dark" || String.eqb saved "light" then saved else preferred
  | None => preferred
  end.

(** The effect that runs after the first render and whenever [theme] has
    changed.  In [src/App.jsx] it also sets the title of the document
    ([sets_title]); the single-page variant leaves the title alone. *)
Definition theme_effect (sets_title : bool) (theme : string) (b : Browser) : Browser :=
  mkBrowser
    (setItem "theme" theme (localStorage b))
    (if String.eqb theme "dark" then classList_add "dark" (classList b)
     else classList_remove "dark" (classList b))
    (if sets_title then "3D Print Scale Converter"%string else title b)
    (matchMedia b).

(** The handler of the theme button:
    [setTheme(theme === "dark" ? "light" : "dark")]. *)
Definition toggle_theme (theme : string) : string :=
  if String.eqb theme "dark" then "light"%string else "dark"%string.

(** [n] presses of the theme button, each followed by the effect. *)
Fixpoint press_theme (n : nat) (sets_title : bool) (theme : string) (b : Browser)
  : string * Browser :=
  match n with
  | O => (theme, b)
  | S n' =>
      let theme' := toggle_theme theme in
      press_theme n' sets_title theme' (theme_effect sets_title theme' b)
  end.

(** A visit of the page: the first render, its effect, and [n] presses of
    the theme button. *)
Definition visit (n : nat) (sets_title : bool) (b : Browser) : string * Browser :=
  let theme := initial_theme b in
  press_theme n sets_title theme (theme_effect sets_title theme b).

(** ** [toast] *)

Record Element : Type := mkElement
  { el_id : string; className : string; textContent : string; opacity : string }.

(** The page as [toast] sees it: the children of [document.body], the
    times in milliseconds at which the pending timers fire, and the
    clock.  Every timer of the program has the same callback,
    [() => (el.style.opacity = "0")] on the toast element. *)
Record Page : Type := mkPage
  { body : list Element; timers : list Z; clock : Z }.

Definition toast_id : string := "toast-inline".

Definition toast_class : string :=
  "fixed bottom-4 left-1/2 -translate-x-1/2 px-4 py-2 text-sm rounded-xl bg-black text-white shadow-lg transition-opacity".

(** [document.getElementById(id)]: the first element with this id. *)
Definition getElementById (id : string) (l : list Element) : option Element :=
  find (fun el => String.eqb (el_id el) id) l.

(** An assignment to the element that [getElementById] finds. *)
Fixpoint update_element (id : string) (f : Element -> Element) (l : list Element)
  : list Element :=
  match l with
  | [] => []
  | el :: l' =>
      if String.eqb (el_id el) id then f el :: l' else el :: update_element id f l'
  end.

(** [function toast(msg)]: the element is created and appended to the body
    when there is none, its text and opacity are set, and a timer is
    started that fires 1200 ms later. *)
Definition toast (msg : string) (p : Page) : Page :=
  let body1 :=
    match getElementById toast_id (body p) with
    | Some _ => body p
    | None => body p ++ [mkElement toast_id toast_class "" ""]
    end in
  let body2 :=
    update_element toast_id
      (fun el => mkElement (el_id el) (className el) msg "1") body1 in
  mkPage body2 (timers p ++ [clock p + 1200]) (clock p).

(** The callback of a timer. *)
Definition hide_toast (l : list Element) : list Element :=
  update_element toast_id
    (fun el => mkElement (el_id el) (className el) (textContent el) "0") l.

(** Time passes until [t]: the timers that are due fire, in the order in
    which they were started. *)
Definition advance (t : Z) (p : Page) : Page :=
  mkPage
    (fold_left (fun l _ => hide_toast l) (filter (fun due => due <=? t) (timers p)) (body p))
    (filter (fun due => negb (due <=? t)) (timers p))
    (Z.max t (clock p)).

(** What happens on the page: a toast, or time passing. *)
Inductive Action : Type :=
  | Toast (msg : string)
  | Wait (ms : Z).

Definition act (p : Page) (a : Action) : Page :=
  match a with
  | Toast msg => toast msg p
  | Wait ms => advance (clock p + ms) p
  end.

(** The toast elements of a page. *)
Definition toast_elements (p : Page) : list Element :=
  filter (fun el => String.eqb (el_id el) toast_id) (body p).

(** ** States of the measurement converter *)

(** What the handlers keep true of the state: the system is one of the
    two, each unit is a key of its table, the scale and the denominator
    are among those offered, and the precision is one that [toFixed]
    accepts, from 0 to 6 digits. *)
Definition well_formed (st : Inputs) : Prop :=
  (system st = "metric" \/ system st = "imperial")%string /\
  In (metricUnit st) (map key METRIC_UNITS) /\
  In (imperialUnit st) (map key IMPERIAL_UNITS) /\
  In (scaleN st) ALL_SCALES /\
  In (inchDenom st) DENOMINATORS /\
  exists f, ToIntegerOrInfinity (decimals st) = Some f /\ 0 <= f <= 6.

(** ** Notions of the specification

    These definitions follow the wording of the specification, not a
    function of the program; the theorems compare the program with them. *)

(** Text that is empty or made of white-space characters only: the
    characters that [Number] strips, each as its UTF-8 bytes. *)
Fixpoint white_space_only (s : list ascii) : bool :=
  match s with
  | [] => true
  | c1 :: s1 =>
      if is_space c1 then white_space_only s1
      else
        match s1 with
        | [] => false
        | c2 :: s2 =>
            if is_space2 c1 c2 then white_space_only s2
            else
              match s2 with
              | [] => false
              | c3 :: s3 => if is_space3 c1 c2 c3 then white_space_only s3 else false
              end
        end
  end.

(** Fixed-decimal rounding at the precision of [f] digits: [r] is the
    rounding of [q] when it is the binary64 value nearest to [k / 10 ^ f]
    with the sign of [q], where [k] is the integer nearest to
    [|q| * 10 ^ f], the larger one when two integers are as near (a half
    is rounded away from zero).  A number from [10 ^ 21] on is an integer
    and is its own rounding; a zero of either sign rounds to [0], and so
    does, by the guard of [round], what is not a finite number. *)
Definition fixed_decimal_rounding (f : Z) (q r : number) : Prop :=
  match q with
  | S754_finite s m e =>
      if 10 ^ 21 <=? Z.shiftl (Zpos m) e then r = q
      else exists k,
             0 <= k /\
             - 2 ^ 1074 < 2 * (k * 2 ^ 1074 - ulps q * 10 ^ f) <= 2 ^ 1074 /\
             r = of_decimal s k (- f)
  | _ => r = zero
  end.

(** The integer that a number is, if it is one: a zero of either sign is
    0, a finite number [m * 2 ^ e] is an integer when [0 <= e] or when the
    low [- e] bits of [m] are zero. *)
Definition integer_value (x : number) : option Z :=
  match x with
  | S754_zero _ => Some 0
  | S754_finite s m e =>
      if 0 <=? e then Some (cond_Zopp s (Zpos m * 2 ^ e))
      else if Zpos m mod 2 ^ (- e) =? 0
           then Some (cond_Zopp s (Zpos m / 2 ^ (- e)))
           else None
  | _ => None
  end.

(** * Facts on binary64 arithmetic *)



Lemma fexp_eq e : fexp prec emax e = fexp64 e.
Proof. reflexivity. Qed.


Lemma digits2_size p : digits2_pos p = Pos.size p.
Proof. induction p as [p IH|p IH|]; simpl; now rewrite ?IH. Qed.

Lemma digits_log2 p : Zpos (digits2_pos p) = Z.log2 (Zpos p) + 1.
Proof.
  rewrite digits2_size. destruct p as [p|p|]; simpl; try reflexivity; lia.
Qed.

Lemma Zdigits2_log2 m : 0 < m -> Zdigits2 m = Z.log2 m + 1.
Proof. destruct m as [|p|p]; try lia. intros _. apply digits_log2. Qed.

Lemma Zdigits2_bounds m :
  0 < m -> 2 ^ (Zdigits2 m - 1) <= m < 2 ^ Zdigits2 m.
Proof.
  intros Hm. rewrite (Zdigits2_log2 m Hm).
  replace (Z.log2 m + 1 - 1) with (Z.log2 m) by lia.
  replace (Z.log2 m + 1) with (Z.succ (Z.log2 m)) by lia.
  apply Z.log2_spec; assumption.
Qed.

Lemma Zdigits2_unique m d :
  2 ^ (d - 1) <= m < 2 ^ d -> 0 < d -> Zdigits2 m = d.
Proof.
  intros H Hd.
  assert (0 < m) by (pose proof (Z.pow_pos_nonneg 2 (d - 1)); lia).
  rewrite Zdigits2_log2 by assumption.
  rewrite (Z.log2_unique m (d - 1)); try lia.
  replace (Z.succ (d - 1)) with d by lia. assumption.
Qed.

Lemma Zdigits2_pos m : 0 < m -> 0 < Zdigits2 m.
Proof. intros H. rewrite Zdigits2_log2 by assumption. pose proof (Z.log2_nonneg m). lia. Qed.

Lemma Zdigits2_mul_pow2 m k :
  0 < m -> 0 <= k -> Zdigits2 (m * 2 ^ k) = Zdigits2 m + k.
Proof.
  intros Hm Hk.
  pose proof (Zdigits2_bounds m Hm) as [Hlo Hhi].
  pose proof (Zdigits2_pos m Hm).
  apply Zdigits2_unique; try lia.
  replace (Zdigits2 m + k - 1) with (Zdigits2 m - 1 + k) by lia.
  rewrite !Z.pow_add_r by lia.
  pose proof (Z.pow_pos_nonneg 2 k). nia.
Qed.

Lemma Zdigits2_div_pow2 m k :
  0 < m -> 0 <= k -> k < Zdigits2 m -> Zdigits2 (m / 2 ^ k) = Zdigits2 m - k.
Proof.
  intros Hm Hk Hlt.
  pose proof (Zdigits2_bounds m Hm) as [Hlo Hhi].
  assert (Hp : 0 < 2 ^ k) by (apply Z.pow_pos_nonneg; lia).
  apply Zdigits2_unique; try lia.
  split.
  - apply Z.div_le_lower_bound; try lia.
    rewrite <- Z.pow_add_r by lia.
    replace (k + (Zdigits2 m - k - 1)) with (Zdigits2 m - 1) by lia. assumption.
  - apply Z.div_lt_upper_bound; try lia.
    rewrite <- Z.pow_add_r by lia.
    replace (k + (Zdigits2 m - k)) with (Zdigits2 m) by lia. assumption.
Qed.

Lemma Zdigits2_le m n : 0 < m -> m <= n -> Zdigits2 m <= Zdigits2 n.
Proof.
  intros Hm Hmn. rewrite !Zdigits2_log2 by lia.
  pose proof (Z.log2_le_mono m n Hmn). lia.
Qed.

Lemma Zdigits2_lt_pow2 m k : 0 < m -> 0 <= k -> m < 2 ^ k -> Zdigits2 m <= k.
Proof.
  intros Hm Hk H. rewrite Zdigits2_log2 by lia.
  pose proof (proj1 (Z.log2_lt_pow2 m k Hm) H). lia.
Qed.

(** *** Shifting a mantissa to the right *)

Lemma iter_pos_iter {A : Type} (f : A -> A) p x : iter_pos f p x = Pos.iter f x p.
Proof.
  revert x. induction p as [p IH|p IH|]; intros x; simpl.
  - rewrite !IH. rewrite <- !Pos.iter_swap. reflexivity.
  - now rewrite !IH.
  - reflexivity.
Qed.

Lemma shr_1_m mrs : 0 <= shr_m mrs -> shr_m (shr_1 mrs) = shr_m mrs / 2.
Proof.
  destruct mrs as [m r s]. simpl. intros Hm.
  destruct m as [|[p|p|]|p]; simpl; try lia; try reflexivity.
  - apply Z.div_unique with (r := 1); lia.
  - apply Z.div_unique with (r := 0); lia.
Qed.

Lemma shr_1_nonneg mrs : 0 <= shr_m mrs -> 0 <= shr_m (shr_1 mrs).
Proof.
  intros H. rewrite shr_1_m by assumption. apply Z.div_pos; lia.
Qed.

Lemma iter_shr_1_m p mrs :
  0 <= shr_m mrs -> shr_m (iter_pos shr_1 p mrs) = shr_m mrs / 2 ^ Zpos p.
Proof.
  rewrite iter_pos_iter. revert mrs.
  induction p as [|p IH] using Pos.peano_ind; intros mrs Hm.
  - simpl. rewrite shr_1_m by assumption. reflexivity.
  - rewrite Pos.iter_succ. rewrite shr_1_m.
    + rewrite IH by assumption. rewrite Pos2Z.inj_succ, Z.pow_succ_r by lia.
      rewrite Z.div_div by (try apply Z.pow_pos_nonneg; lia).
      f_equal. lia.
    + rewrite IH by assumption. apply Z.div_pos; [assumption|].
      apply Z.pow_pos_nonneg; lia.
Qed.

Lemma shr_1_exact m :
  0 <= m -> (2 | m) ->
  shr_1 (Build_shr_record m false false) = Build_shr_record (m / 2) false false.
Proof.
  intros Hm [q Hq]. subst m.
  rewrite Z.div_mul by lia.
  destruct q as [|q|q]; try reflexivity; try lia.
  replace (Z.pos q * 2) with (Zpos q~0) by lia. reflexivity.
Qed.

Lemma iter_shr_1_exact p m :
  0 <= m -> (2 ^ Zpos p | m) ->
  iter_pos shr_1 p (Build_shr_record m false false)
  = Build_shr_record (m / 2 ^ Zpos p) false false.
Proof.
  rewrite iter_pos_iter. revert m.
  induction p as [|p IH] using Pos.peano_ind; intros m Hm Hd.
  - simpl. apply shr_1_exact; assumption.
  - rewrite Pos.iter_succ.
    rewrite Pos2Z.inj_succ, Z.pow_succ_r in * by lia.
    destruct Hd as [q Hq].
    assert (Hp : 0 < 2 ^ Zpos p) by (apply Z.pow_pos_nonneg; lia).
    rewrite IH; [|assumption|exists (q * 2); lia].
    assert (Hdiv : m / 2 ^ Zpos p = q * 2).
    { subst m. replace (q * (2 * 2 ^ Z.pos p)) with (q * 2 * 2 ^ Z.pos p) by lia.
      apply Z.div_mul; lia. }
    rewrite shr_1_exact.
    + f_equal. rewrite Hdiv. subst m.
      rewrite Z.div_mul by lia.
      rewrite Z.div_mul by lia. reflexivity.
    + apply Z.div_pos; lia.
    + exists q. lia.
Qed.


(** *** Canonical representation and exact rounding *)




Lemma pos_iter_xO m d : Zpos (Pos.iter xO m d) = Zpos m * 2 ^ Zpos d.
Proof.
  induction d as [|d IH] using Pos.peano_ind.
  - simpl. lia.
  - rewrite Pos.iter_succ, Pos2Z.inj_succ, Z.pow_succ_r by lia.
    rewrite Pos2Z.inj_xO, IH. lia.
Qed.

Lemma divide_pow2_le M k : 0 < M -> 0 <= k -> (2 ^ k | M) -> k < Zdigits2 M.
Proof.
  intros HM Hk [q Hq].
  pose proof (Zdigits2_bounds M HM) as [_ Hhi].
  assert (0 < 2 ^ k) by (apply Z.pow_pos_nonneg; lia).
  assert (2 ^ k <= M).
  { remember (2 ^ k) as P. assert (1 <= q) by nia. nia. }
  destruct (Z_lt_le_dec k (Zdigits2 M)) as [|Hle]; [assumption|].
  pose proof (Z.pow_le_mono_r 2 (Zdigits2 M) k ltac:(lia) Hle). lia.
Qed.

Lemma binary_round_aux_steps s mx ex lx mrs1 e1 mrs2 e2 :
  shr_fexp prec emax mx ex lx = (mrs1, e1) ->
  shr_fexp prec emax (round_nearest_even (shr_m mrs1) (loc_of_shr_record mrs1))
    e1 loc_Exact = (mrs2, e2) ->
  binary_round_aux prec emax s mx ex lx =
  match shr_m mrs2 with
  | Z0 => S754_zero s
  | Zpos m => if e2 <=? 971 then S754_finite s m e2 else S754_infinity s
  | Zneg _ => S754_nan
  end.
Proof.
  intros H1 H2. unfold binary_round_aux. rewrite H1, H2. reflexivity.
Qed.

Lemma shr_fexp_eq m e l :
  shr_fexp prec emax m e l = shr (shr_record_of_loc m l) e (cexp m e - e).
Proof. reflexivity. Qed.

Lemma shr_nonpos mrs e n : n <= 0 -> shr mrs e n = (mrs, e).
Proof. destruct n; try reflexivity. lia. Qed.

Lemma shr_exact m e n :
  0 <= m -> 0 < n -> (2 ^ n | m) ->
  shr (Build_shr_record m false false) e n
  = (Build_shr_record (m / 2 ^ n) false false, e + n).
Proof.
  intros Hm Hn Hd. destruct n as [|p|p]; try lia.
  unfold shr. rewrite iter_shr_1_exact by assumption. reflexivity.
Qed.

Lemma shr_m_eq mrs e n :
  0 <= shr_m mrs -> 0 <= n ->
  shr_m (fst (shr mrs e n)) = shr_m mrs / 2 ^ n /\ snd (shr mrs e n) = e + n.
Proof.
  intros Hm Hn. destruct n as [|p|p]; try lia.
  - simpl. rewrite Z.div_1_r. split; [reflexivity|lia].
  - unfold shr. simpl fst. simpl snd. rewrite iter_shr_1_m by assumption.
    split; reflexivity.
Qed.

Lemma binary_round_aux_exact s M E :
  0 < M -> E <= cexp M E -> (2 ^ (cexp M E - E) | M) -> cexp M E <= 971 ->
  binary_round_aux prec emax s M E loc_Exact = canon s M E.
Proof.
  intros HM HE Hd Hc.
  remember (cexp M E) as c eqn:Ec.
  set (M1 := M / 2 ^ (c - E)).
  assert (Hp : 0 < 2 ^ (c - E)) by (apply Z.pow_pos_nonneg; lia).
  assert (HM1 : 0 < M1).
  { unfold M1. destruct Hd as [q Hq]. rewrite Hq, Z.div_mul by lia. nia. }
  assert (Hdig : Zdigits2 M1 + c = Zdigits2 M + E).
  { unfold M1. destruct (Z.eq_dec c E) as [->|Hne].
    - replace (E - E) with 0 by lia. simpl. now rewrite Z.div_1_r.
    - pose proof (divide_pow2_le M (c - E) HM ltac:(lia) Hd).
      rewrite Zdigits2_div_pow2 by lia. lia. }
  assert (H1 : shr_fexp prec emax M E loc_Exact = (Build_shr_record M1 false false, c)).
  { rewrite shr_fexp_eq, <- Ec. simpl shr_record_of_loc.
    destruct (Z.eq_dec c E) as [->|Hne].
    - rewrite shr_nonpos by lia. unfold M1.
      replace (E - E) with 0 by lia. simpl. now rewrite Z.div_1_r.
    - rewrite shr_exact by (try lia; assumption). f_equal. lia. }
  assert (H2 : shr_fexp prec emax M1 c loc_Exact = (Build_shr_record M1 false false, c)).
  { rewrite shr_fexp_eq. unfold cexp. rewrite Hdig. fold (cexp M E). rewrite <- Ec.
    rewrite shr_nonpos by lia. reflexivity. }
  rewrite (binary_round_aux_steps s _ _ _ _ _ _ _ H1 H2).
  unfold canon. rewrite <- Ec. simpl shr_m.
  replace (Z.shiftl M (E - c)) with M1.
  - destruct M1 as [|q|q]; try lia.
    replace (c <=? 971) with true by (symmetry; apply Z.leb_le; lia).
    reflexivity.
  - unfold M1. replace (E - c) with (- (c - E)) by lia.
    rewrite Z.shiftl_opp_r, Z.shiftr_div_pow2 by lia. reflexivity.
Qed.

Lemma canon_shift s M E t :
  0 < M -> 0 <= t -> canon s (M * 2 ^ t) (E - t) = canon s M E.
Proof.
  intros HM Ht. unfold canon.
  assert (Hc : cexp (M * 2 ^ t) (E - t) = cexp M E).
  { unfold cexp. rewrite Zdigits2_mul_pow2 by lia. f_equal. lia. }
  rewrite Hc. f_equal. f_equal.
  rewrite <- Z.shiftl_mul_pow2 by lia.
  rewrite Z.shiftl_shiftl by lia. f_equal. lia.
Qed.

Lemma divide_pow2_0 M k : k = 0 -> (2 ^ k | M).
Proof. intros ->. exists M. simpl. lia. Qed.

Lemma binary_round_exact s m E :
  exact (Zpos m) E -> cexp (Zpos m) E <= 971 ->
  binary_round prec emax s m E = canon s (Zpos m) E.
Proof.
  intros Hex Hc. unfold binary_round, shl_align. rewrite fexp_eq.
  change (Z.add (Zpos (digits2_pos m)) E) with (Zdigits2 (Zpos m) + E).
  fold (cexp (Zpos m) E).
  destruct (cexp (Zpos m) E - E) as [|p|p] eqn:Ep.
  - apply binary_round_aux_exact; try lia. apply divide_pow2_0. assumption.
  - destruct Hex as [Hex|Hex]; [lia|].
    apply binary_round_aux_exact; try lia. assumption.
  - rewrite pos_iter_xO.
    assert (Hcx : cexp (Zpos m * 2 ^ Zpos p) (cexp (Zpos m) E) = cexp (Zpos m) E).
    { unfold cexp at 1. rewrite Zdigits2_mul_pow2 by lia.
      unfold cexp at 2. f_equal. lia. }
    rewrite binary_round_aux_exact; rewrite ?Hcx; try lia.
    + replace (cexp (Zpos m) E) with (E - Zpos p) at 1 by lia.
      apply canon_shift; lia.
    + apply divide_pow2_0. lia.
Qed.

Lemma canon_mantissa_pos M E : 0 < M -> exact M E -> 0 < Z.shiftl M (E - cexp M E).
Proof.
  intros HM Hex.
  destruct (Z_le_dec (cexp M E) E) as [Hle|Hgt].
  - rewrite Z.shiftl_mul_pow2 by lia.
    pose proof (Z.pow_pos_nonneg 2 (E - cexp M E)). nia.
  - destruct Hex as [Hex|[q Hq]]; [lia|].
    replace (E - cexp M E) with (- (cexp M E - E)) by lia.
    rewrite Z.shiftl_opp_r, Z.shiftr_div_pow2 by lia.
    assert (0 < 2 ^ (cexp M E - E)) by (apply Z.pow_pos_nonneg; lia).
    rewrite Hq at 1. rewrite Z.div_mul by lia. nia.
Qed.

Lemma canon_mantissa_digits M E :
  0 < M -> exact M E ->
  Zdigits2 (Z.shiftl M (E - cexp M E)) = Zdigits2 M + E - cexp M E.
Proof.
  intros HM Hex.
  destruct (Z_le_dec (cexp M E) E) as [Hle|Hgt].
  - rewrite Z.shiftl_mul_pow2 by lia. rewrite Zdigits2_mul_pow2 by lia. lia.
  - destruct Hex as [Hex|Hd]; [lia|].
    replace (E - cexp M E) with (- (cexp M E - E)) by lia.
    rewrite Z.shiftl_opp_r, Z.shiftr_div_pow2 by lia.
    rewrite Zdigits2_div_pow2; try lia.
    apply divide_pow2_le; try lia. assumption.
Qed.

Lemma canon_valid s M E :
  0 < M -> exact M E -> cexp M E <= 971 -> valid (canon s M E).
Proof.
  intros HM Hex Hc. unfold valid, canon. simpl.
  unfold bounded, canonical_mantissa. rewrite fexp_eq.
  pose proof (canon_mantissa_pos M E HM Hex) as Hpos.
  pose proof (canon_mantissa_digits M E HM Hex) as Hdig.
  destruct (Z.shiftl M (E - cexp M E)) as [|q|q] eqn:Eq; try lia.
  simpl Z.to_pos. change (Zpos (digits2_pos q)) with (Zdigits2 (Zpos q)).
  rewrite Hdig.
  replace (Zdigits2 M + E - cexp M E + cexp M E) with (Zdigits2 M + E) by lia.
  fold (cexp M E). rewrite Z.eqb_refl. simpl.
  apply Z.leb_le. unfold emax, prec. lia.
Qed.

Lemma valid_canon s m e :
  valid (S754_finite s m e) -> S754_finite s m e = canon s (Zpos m) e.
Proof.
  unfold valid. simpl. unfold bounded, canonical_mantissa. rewrite fexp_eq.
  intros H. apply andb_true_iff in H. destruct H as [H _].
  apply Z.eqb_eq in H. unfold canon, cexp.
  change (Zdigits2 (Zpos m)) with (Zpos (digits2_pos m)). rewrite H.
  replace (e - e) with 0 by lia. reflexivity.
Qed.

Lemma valid_bounds s m e :
  valid (S754_finite s m e) ->
  cexp (Zpos m) e = e /\ -1074 <= e <= 971 /\ Zdigits2 (Zpos m) <= 53.
Proof.
  unfold valid. simpl. unfold bounded, canonical_mantissa. rewrite fexp_eq.
  intros H. apply andb_true_iff in H. destruct H as [H1 H2].
  apply Z.eqb_eq in H1. apply Z.leb_le in H2. unfold emax, prec in H2.
  unfold cexp. change (Zdigits2 (Zpos m)) with (Zpos (digits2_pos m)).
  unfold fexp64 in *. lia.
Qed.


(** *** Every operation returns a binary64 value *)

Lemma fexp64_ge e : -1074 <= fexp64 e.
Proof. unfold fexp64. lia. Qed.

Lemma fexp64_mono a b : a <= b -> fexp64 a <= fexp64 b.
Proof. unfold fexp64. lia. Qed.

Lemma round_nearest_even_cases m l :
  round_nearest_even m l = m \/ round_nearest_even m l = m + 1.
Proof.
  destruct l as [|[| |]]; simpl; auto. destruct (Z.even m); auto.
Qed.

Lemma Zdigits2_nonneg m : 0 <= Zdigits2 m.
Proof. destruct m; simpl; lia. Qed.

Lemma Zdigits2_succ m :
  0 <= m -> m + 1 < 2 ^ Zdigits2 m -> Zdigits2 (m + 1) = Zdigits2 m.
Proof.
  intros Hm Hlt.
  destruct (Z.eq_dec m 0) as [->|Hne].
  - simpl in Hlt. lia.
  - pose proof (Zdigits2_bounds m ltac:(lia)) as [Hlo _].
    apply Zdigits2_unique; [lia|]. apply Zdigits2_pos. lia.
Qed.

Lemma finite_valid s m e :
  0 < m -> cexp m e = e -> e <= 971 -> valid (S754_finite s (Z.to_pos m) e).
Proof.
  intros Hm Hc He. unfold valid. simpl. unfold bounded, canonical_mantissa.
  rewrite fexp_eq. destruct m as [|p|p]; try lia. simpl Z.to_pos.
  change (Zpos (digits2_pos p)) with (Zdigits2 (Zpos p)).
  fold (cexp (Zpos p) e). rewrite Hc, Z.eqb_refl. simpl.
  apply Z.leb_le. unfold emax, prec. lia.
Qed.

(** The shape of a rounded result: the mantissa [M] loses its low bits
    and is kept or incremented; an increment that reaches [2 ^ 53] moves to
    the next exponent. *)
Lemma binary_round_aux_shape s M E l :
  0 <= M -> E <= cexp M E ->
  let c := cexp M E in
  let M1 := M / 2 ^ (c - E) in
  exists m2,
    (m2 = M1 \/ m2 = M1 + 1) /\ 0 <= m2 <= 2 ^ 53 /\
    (c = -1074 \/ 2 ^ 52 <= M1) /\
    (0 < m2 < 2 ^ 53 -> cexp m2 c = c) /\
    binary_round_aux prec emax s M E l =
    if m2 =? 0 then S754_zero s
    else if m2 <? 2 ^ 53
         then (if c <=? 971 then S754_finite s (Z.to_pos m2) c else S754_infinity s)
         else (if c + 1 <=? 971 then S754_finite s 4503599627370496 (c + 1)
               else S754_infinity s).
Proof.
  intros HM HE c M1. set (n := c - E) in *.
  assert (Hn : 0 <= n) by (unfold n, c; lia).
  assert (Hp : 0 < 2 ^ n) by (apply Z.pow_pos_nonneg; lia).
  assert (Hc : -1074 <= c) by apply fexp64_ge.
  destruct (shr_fexp prec emax M E l) as [mrs1 e1] eqn:H1.
  assert (Hs1 : shr_m mrs1 = M / 2 ^ n /\ e1 = c).
  { rewrite shr_fexp_eq in H1. fold c in H1. fold n in H1.
    pose proof (shr_m_eq (shr_record_of_loc M l) E n) as Hs.
    rewrite H1 in Hs. simpl fst in Hs. simpl snd in Hs.
    assert (Hm0 : shr_m (shr_record_of_loc M l) = M)
      by (destruct l as [|[| |]]; reflexivity).
    rewrite Hm0 in Hs. destruct (Hs HM Hn) as [Ha Hb].
    split; [assumption|]. unfold n in Hb. lia. }
  destruct Hs1 as [Hm1 He1]. subst e1. fold M1 in Hm1.
  assert (HM1 : 0 <= M1) by (apply Z.div_pos; lia).
  assert (HA : Zdigits2 M1 <= 53 /\ (Zdigits2 M1 = 53 \/ c = -1074)).
  { destruct (Z.eq_dec M1 0) as [H0|H0].
    - rewrite H0. simpl. split; [lia|]. right.
      destruct (Z.eq_dec M 0) as [HM0|HM0].
      + unfold c, cexp, fexp64 in *. rewrite HM0 in *. simpl in *. lia.
      + assert (M < 2 ^ n).
        { unfold M1 in H0. apply Z.div_small_iff in H0; lia. }
        pose proof (Zdigits2_lt_pow2 M n ltac:(lia) Hn H).
        unfold n, c, cexp, fexp64 in *. lia.
    - assert (HMpos : 0 < M).
      { destruct (Z.eq_dec M 0) as [HM0|HM0]; [|lia].
        exfalso. apply H0. unfold M1. rewrite HM0. apply Z.div_0_l. lia. }
      assert (Hlt : n < Zdigits2 M).
      { destruct (Z_lt_le_dec n (Zdigits2 M)) as [|Hge]; [assumption|].
        pose proof (Zdigits2_bounds M HMpos) as [_ Hhi].
        pose proof (Z.pow_le_mono_r 2 _ _ ltac:(lia) Hge).
        exfalso. apply H0. unfold M1. apply Z.div_small. lia. }
      unfold M1. rewrite Zdigits2_div_pow2 by lia.
      unfold n, c, cexp, fexp64 in *. lia. }
  destruct HA as [Hd1 Hd1'].
  assert (HM1lt : M1 < 2 ^ 53).
  { destruct (Z.eq_dec M1 0) as [->|]; [reflexivity|].
    pose proof (Zdigits2_bounds M1 ltac:(lia)) as [_ Hhi].
    pose proof (Z.pow_le_mono_r 2 _ _ ltac:(lia) Hd1). lia. }
  set (m2 := round_nearest_even (shr_m mrs1) (loc_of_shr_record mrs1)).
  assert (Hm2 : m2 = M1 \/ m2 = M1 + 1).
  { unfold m2. rewrite Hm1. apply round_nearest_even_cases. }
  assert (Hcx : 0 < m2 < 2 ^ 53 -> cexp m2 c = c).
  { intros Hr.
    assert (Hle : Zdigits2 m2 <= 53) by (apply Zdigits2_lt_pow2; lia).
    assert (Hge : Zdigits2 M1 <= Zdigits2 m2).
    { destruct (Z.eq_dec M1 0) as [->|]; [simpl; apply Zdigits2_nonneg|].
      apply Zdigits2_le; lia. }
    unfold cexp, fexp64. lia. }
  assert (Hnorm : c = -1074 \/ 2 ^ 52 <= M1).
  { destruct Hd1' as [H53|Hsub]; [right|left; exact Hsub].
    assert (0 < M1) by (destruct (Z.eq_dec M1 0) as [H0|H0]; [rewrite H0 in H53; simpl in H53; lia|lia]).
    pose proof (Zdigits2_bounds M1 ltac:(lia)) as [Hlo _].
    rewrite H53 in Hlo. exact Hlo. }
  exists m2. split; [exact Hm2|]. split; [lia|]. split; [exact Hnorm|].
  split; [exact Hcx|].
  destruct (shr_fexp prec emax m2 c loc_Exact) as [mrs2 e2] eqn:H2.
  rewrite (binary_round_aux_steps s _ _ _ _ _ _ _ H1 H2).
  rewrite shr_fexp_eq in H2. simpl shr_record_of_loc in H2.
  destruct (Z.eq_dec m2 0) as [Hz|Hnz].
  - (* the result is a zero *)
    rewrite Hz in H2. unfold cexp in H2. simpl Zdigits2 in H2.
    rewrite shr_nonpos in H2 by (unfold fexp64; lia).
    inversion H2. rewrite Hz. reflexivity.
  - replace (m2 =? 0) with false by (symmetry; apply Z.eqb_neq; assumption).
    destruct (Z_lt_le_dec m2 (2 ^ 53)) as [Hsmall|Hbig].
    + (* the mantissa still fits *)
      replace (m2 <? 2 ^ 53) with true by (symmetry; apply Z.ltb_lt; assumption).
      rewrite Hcx in H2 by lia. rewrite shr_nonpos in H2 by lia.
      inversion H2. subst mrs2 e2. simpl shr_m.
      destruct m2 as [|q|q]; try lia. reflexivity.
    + (* rounding up reached the next binade *)
      replace (m2 <? 2 ^ 53) with false by (symmetry; apply Z.ltb_ge; assumption).
      assert (Hm2eq : m2 = 2 ^ 53) by lia.
      rewrite Hm2eq in H2.
      assert (Hcx' : cexp (2 ^ 53) c = c + 1).
      { unfold cexp. change (Zdigits2 (2 ^ 53)) with 54. unfold fexp64. lia. }
      rewrite Hcx' in H2. replace (c + 1 - c) with 1 in H2 by lia.
      simpl in H2. inversion H2. subst mrs2 e2. reflexivity.
Qed.

Lemma binary_round_aux_valid s M E l :
  0 <= M -> E <= cexp M E -> valid (binary_round_aux prec emax s M E l).
Proof.
  intros HM HE.
  destruct (binary_round_aux_shape s M E l HM HE) as (m2 & _ & Hr & _ & Hcx & ->).
  destruct (m2 =? 0) eqn:H0; [reflexivity|]. apply Z.eqb_neq in H0.
  destruct (m2 <? 2 ^ 53) eqn:Hlt.
  - apply Z.ltb_lt in Hlt.
    destruct (cexp M E <=? 971) eqn:Hb; [|reflexivity].
    apply Z.leb_le in Hb. apply finite_valid; [lia|apply Hcx; lia|lia].
  - destruct (cexp M E + 1 <=? 971) eqn:Hb; [|reflexivity].
    apply Z.leb_le in Hb.
    apply (finite_valid s 4503599627370496 (cexp M E + 1)); try lia.
    pose proof (fexp64_ge (Zdigits2 M + E)) as Hge. fold (cexp M E) in Hge.
    unfold cexp at 1. simpl Zdigits2. unfold fexp64. lia.
Qed.

(** The magnitude of a rounded result, in units of [2 ^ -1074]: the
    truncated mantissa [M1] or the next one, at the exponent [c] of the
    format; unless [c] is the least exponent, [M1] has 53 bits. *)
Lemma binary_round_aux_ulps s M E l :
  0 <= M -> E <= cexp M E ->
  let c := cexp M E in
  let r := binary_round_aux prec emax s M E l in
  exists m2 M1,
    M1 * 2 ^ (c - E) <= M < (M1 + 1) * 2 ^ (c - E) /\
    (m2 = M1 \/ m2 = M1 + 1) /\ 0 <= M1 /\
    (c = -1074 \/ 2 ^ 52 <= M1) /\ -1074 <= c /\
    (r = S754_infinity s /\ 971 <= c \/
     isFinite r = true /\ sign_bit r = s /\ ulps r = m2 * 2 ^ (c + 1074)).
Proof.
  intros HM HE c r.
  destruct (binary_round_aux_shape s M E l HM HE)
    as (m2 & Hm2 & Hr & Hnorm & Hcx & Heq).
  fold c in Hm2, Hnorm, Hcx, Heq. fold r in Heq.
  assert (Hc : -1074 <= c) by apply fexp64_ge.
  assert (Hp : 0 < 2 ^ (c - E)) by (apply Z.pow_pos_nonneg; lia).
  exists m2, (M / 2 ^ (c - E)).
  split.
  { pose proof (Z.div_mod M (2 ^ (c - E)) ltac:(lia)) as Hdm.
    pose proof (Z.mod_pos_bound M (2 ^ (c - E)) Hp) as Hmb. nia. }
  split; [exact Hm2|]. split; [apply Z.div_pos; lia|].
  split; [exact Hnorm|]. split; [exact Hc|].
  rewrite Heq.
  destruct (m2 =? 0) eqn:H0.
  { apply Z.eqb_eq in H0. right. subst m2. simpl. repeat split. }
  apply Z.eqb_neq in H0.
  destruct (m2 <? 2 ^ 53) eqn:Hlt.
  - destruct (c <=? 971) eqn:Hb.
    + right. unfold ulps. simpl isFinite. simpl sign_bit.
      rewrite Z2Pos.id by lia. auto.
    + apply Z.leb_gt in Hb. left. split; [reflexivity|lia].
  - apply Z.ltb_ge in Hlt. assert (Hm2eq : m2 = 2 ^ 53) by lia.
    destruct (c + 1 <=? 971) eqn:Hb.
    + right. unfold ulps. simpl isFinite. simpl sign_bit.
      change (Zpos 4503599627370496) with (2 ^ 52).
      rewrite Hm2eq. rewrite <- !Z.pow_add_r by lia.
      repeat split. f_equal; lia.
    + apply Z.leb_gt in Hb. left. split; [reflexivity|lia].
Qed.

Lemma binary_round_valid s m E : valid (binary_round prec emax s m E).
Proof.
  unfold binary_round, shl_align. rewrite fexp_eq.
  change (Z.add (Zpos (digits2_pos m)) E) with (Zdigits2 (Zpos m) + E).
  fold (cexp (Zpos m) E).
  destruct (cexp (Zpos m) E - E) as [|p|p] eqn:Ep.
  - apply binary_round_aux_valid; lia.
  - apply binary_round_aux_valid; lia.
  - rewrite pos_iter_xO. apply binary_round_aux_valid.
    + pose proof (Z.pow_pos_nonneg 2 (Zpos p)). nia.
    + assert (Hcx : cexp (Zpos m * 2 ^ Zpos p) (cexp (Zpos m) E) = cexp (Zpos m) E).
      { unfold cexp at 1. rewrite Zdigits2_mul_pow2 by lia.
        unfold cexp at 2. f_equal. lia. }
      rewrite Hcx. lia.
Qed.

Lemma binary_normalize_valid m e sz : valid (binary_normalize prec emax m e sz).
Proof.
  destruct m; simpl; try apply binary_round_valid. reflexivity.
Qed.

Lemma of_Z_valid z : valid (of_Z z).
Proof. apply binary_normalize_valid. Qed.


Lemma Zdigits2_pow2 k : 0 <= k -> Zdigits2 (2 ^ k) = k + 1.
Proof.
  intros Hk. apply Zdigits2_unique; [|lia].
  replace (k + 1 - 1) with k by lia. split; [lia|].
  apply Z.pow_lt_mono_r; lia.
Qed.

Lemma Zdigits2_mul_ge a b :
  0 < a -> 0 < b -> Zdigits2 a + Zdigits2 b - 1 <= Zdigits2 (a * b).
Proof.
  intros Ha Hb.
  pose proof (Zdigits2_bounds a Ha) as [Hla _].
  pose proof (Zdigits2_bounds b Hb) as [Hlb _].
  pose proof (Zdigits2_pos a Ha). pose proof (Zdigits2_pos b Hb).
  assert (Hle : 2 ^ (Zdigits2 a + Zdigits2 b - 2) <= a * b).
  { replace (Zdigits2 a + Zdigits2 b - 2) with ((Zdigits2 a - 1) + (Zdigits2 b - 1)) by lia.
    rewrite Z.pow_add_r by lia.
    assert (0 < 2 ^ (Zdigits2 a - 1)) by (apply Z.pow_pos_nonneg; lia).
    assert (0 < 2 ^ (Zdigits2 b - 1)) by (apply Z.pow_pos_nonneg; lia).
    nia. }
  assert (Hp : 0 < 2 ^ (Zdigits2 a + Zdigits2 b - 2)) by (apply Z.pow_pos_nonneg; lia).
  pose proof (Zdigits2_le _ _ Hp Hle) as Hd.
  rewrite Zdigits2_pow2 in Hd by lia. lia.
Qed.

Lemma Zdigits2_div_ge a b :
  0 < a -> 0 < b -> 0 < a / b -> Zdigits2 a - Zdigits2 b <= Zdigits2 (a / b).
Proof.
  intros Ha Hb Hq.
  pose proof (Zdigits2_pos (a / b) Hq).
  destruct (Z_lt_le_dec (Zdigits2 a - 1 - Zdigits2 b) 0) as [Hneg|Hk]; [lia|].
  set (k := Zdigits2 a - 1 - Zdigits2 b) in *.
  pose proof (Zdigits2_bounds a Ha) as [Hla _].
  pose proof (Zdigits2_bounds b Hb) as [_ Hhb].
  pose proof (Zdigits2_pos b Hb).
  assert (Hpk : 0 < 2 ^ k) by (apply Z.pow_pos_nonneg; lia).
  assert (Hle : 2 ^ k <= a / b).
  { apply Z.div_le_lower_bound; [lia|].
    assert (Hpow : 2 ^ (Zdigits2 a - 1) = 2 ^ Zdigits2 b * 2 ^ k).
    { rewrite <- Z.pow_add_r by lia. f_equal. unfold k. lia. }
    rewrite Hpow in Hla. nia. }
  pose proof (Zdigits2_le _ _ Hpk Hle) as Hd.
  rewrite Zdigits2_pow2 in Hd by lia. unfold k in Hd. lia.
Qed.

Lemma SFdiv_core_binary_spec m1 e1 m2 e2 :
  0 < m1 -> 0 < m2 ->
  let e' := Z.min (fexp64 (Zdigits2 m1 + e1 - (Zdigits2 m2 + e2))) (e1 - e2) in
  let m' := m1 * 2 ^ (e1 - e2 - e') in
  SFdiv_core_binary prec emax m1 e1 m2 e2 = (m' / m2, e', new_location m2 (m' mod m2)).
Proof.
  intros H1 H2 e' m'. unfold SFdiv_core_binary. rewrite fexp_eq.
  fold e'. fold (Z.sub (Z.sub e1 e2) e').
  assert (Hs : 0 <= e1 - e2 - e') by (unfold e'; lia).
  assert (Hm : match e1 - e2 - e' with
               | Zpos _ => Z.shiftl m1 (e1 - e2 - e')
               | Z0 => m1
               | Zneg _ => 0
               end = m').
  { unfold m'. destruct (e1 - e2 - e') as [|p|p] eqn:Es; [lia| |lia].
    rewrite Z.shiftl_mul_pow2 by lia. reflexivity. }
  rewrite Hm. unfold Z.div, Z.modulo.
  destruct (Z.div_eucl m' m2) as [q r]. reflexivity.
Qed.

Lemma SFdiv_core_binary_enough m1 e1 m2 e2 :
  0 < m1 -> 0 < m2 ->
  let e' := Z.min (fexp64 (Zdigits2 m1 + e1 - (Zdigits2 m2 + e2))) (e1 - e2) in
  let q := m1 * 2 ^ (e1 - e2 - e') / m2 in
  0 <= q /\ e' <= cexp q e'.
Proof.
  intros H1 H2 e' q.
  assert (Hs : 0 <= e1 - e2 - e') by (unfold e'; lia).
  assert (Hp : 0 < 2 ^ (e1 - e2 - e')) by (apply Z.pow_pos_nonneg; lia).
  assert (Hm' : 0 < m1 * 2 ^ (e1 - e2 - e')) by nia.
  assert (Hq : 0 <= q) by (apply Z.div_pos; lia).
  split; [assumption|].
  pose proof (Zdigits2_mul_pow2 m1 (e1 - e2 - e') H1 Hs) as Hd'.
  destruct (Z.eq_dec q 0) as [Hq0|Hq0].
  - rewrite Hq0. unfold cexp. simpl Zdigits2.
    assert (Hlt : m1 * 2 ^ (e1 - e2 - e') < m2).
    { unfold q in Hq0. apply Z.div_small_iff in Hq0; lia. }
    pose proof (Zdigits2_le _ _ Hm' (Z.lt_le_incl _ _ Hlt)) as Hle.
    rewrite Hd' in Hle. unfold e', fexp64 in *. lia.
  - pose proof (Zdigits2_div_ge _ m2 Hm' H2 ltac:(fold q; lia)) as Hge.
    fold q in Hge. rewrite Hd' in Hge.
    unfold cexp.
    pose proof (fexp64_mono (Zdigits2 m1 + e1 - (Zdigits2 m2 + e2)) (Zdigits2 q + e')
                  ltac:(lia)).
    unfold e' in *. lia.
Qed.

Lemma SFdiv_core_round_valid s m1 e1 m2 e2 :
  0 < m1 -> 0 < m2 ->
  valid (let '(mz, ez, lz) := SFdiv_core_binary prec emax m1 e1 m2 e2 in
         binary_round_aux prec emax s mz ez lz).
Proof.
  intros H1 H2. rewrite SFdiv_core_binary_spec by assumption.
  pose proof (SFdiv_core_binary_enough m1 e1 m2 e2 H1 H2) as [Hq Hc].
  apply binary_round_aux_valid; assumption.
Qed.

Lemma of_ratio_valid neg n d : valid (of_ratio neg n d).
Proof.
  unfold of_ratio.
  destruct n as [|n|n]; destruct d as [|d|d]; try reflexivity.
  apply SFdiv_core_round_valid; lia.
Qed.

Lemma of_decimal_valid neg m e : valid (of_decimal neg m e).
Proof. unfold of_decimal. destruct (0 <=? e); apply of_ratio_valid. Qed.

Lemma mul_valid x y : valid x -> valid y -> valid (mul x y).
Proof.
  intros Hx Hy.
  destruct x as [sx|sx| |sx mx ex]; destruct y as [sy|sy| |sy my ey]; try reflexivity.
  unfold mul, SFmul.
  apply valid_bounds in Hx. apply valid_bounds in Hy.
  destruct Hx as (Hcx & Hex & Hdx). destruct Hy as (Hcy & Hey & Hdy).
  apply binary_round_aux_valid; [lia|].
  change (Z.add ex ey) with (ex + ey).
  pose proof (Zdigits2_mul_ge (Zpos mx) (Zpos my) ltac:(lia) ltac:(lia)) as Hm.
  change (Zpos mx * Zpos my) with (Zpos (mx * my)) in Hm.
  pose proof (Zdigits2_pos (Zpos mx) ltac:(lia)).
  pose proof (Zdigits2_pos (Zpos my) ltac:(lia)).
  unfold cexp, fexp64 in *.
  generalize dependent (Zdigits2 (Zpos (mx * my))).
  generalize dependent (Zdigits2 (Zpos mx)).
  generalize dependent (Zdigits2 (Zpos my)). intros. lia.
Qed.

Lemma div_valid x y : valid x -> valid y -> valid (div x y).
Proof.
  intros Hx Hy.
  destruct x as [sx|sx| |sx mx ex]; destruct y as [sy|sy| |sy my ey]; try reflexivity.
  unfold div, SFdiv. apply SFdiv_core_round_valid; lia.
Qed.

Lemma add_valid x y : valid x -> valid y -> valid (add x y).
Proof.
  intros Hx Hy.
  destruct x as [sx|sx| |sx mx ex]; destruct y as [sy|sy| |sy my ey];
    try reflexivity; try assumption;
    try (destruct sx, sy; reflexivity).
  unfold add, SFadd. apply binary_normalize_valid.
Qed.

Lemma sub_valid x y : valid x -> valid y -> valid (sub x y).
Proof.
  intros Hx Hy.
  destruct x as [sx|sx| |sx mx ex]; destruct y as [sy|sy| |sy my ey];
    try reflexivity; try assumption;
    try (destruct sx, sy; reflexivity).
  unfold sub, SFsub. apply binary_normalize_valid.
Qed.

Lemma rem_valid x y : valid x -> valid y -> valid (rem x y).
Proof.
  intros Hx Hy.
  destruct x as [sx|sx| |sx mx ex]; destruct y as [sy|sy| |sy my ey];
    try reflexivity; try assumption.
  unfold rem. apply binary_normalize_valid.
Qed.

Lemma of_int_signed_valid s n : valid (of_int_signed s n).
Proof. destruct n; try reflexivity; apply of_Z_valid. Qed.

Lemma Math_abs_valid x : valid x -> valid (Math_abs x).
Proof. destruct x; intros H; try reflexivity. exact H. Qed.

Lemma Math_floor_valid x : valid x -> valid (Math_floor x).
Proof.
  destruct x as [s|s| |s m e]; intros H; try reflexivity.
  unfold Math_floor. destruct (0 <=? e); [assumption|apply of_int_signed_valid].
Qed.

Lemma Math_round_valid x : valid x -> valid (Math_round x).
Proof.
  destruct x as [s|s| |s m e]; intros H; try reflexivity.
  unfold Math_round. destruct (0 <=? e); [assumption|apply of_int_signed_valid].
Qed.

Lemma Math_max_valid x y : valid x -> valid y -> valid (Math_max x y).
Proof.
  intros Hx Hy. unfold Math_max.
  destruct (SFcompare x y) as [[| |]|]; try assumption; try reflexivity.
  destruct (sign_bit x); assumption.
Qed.

Lemma Math_min_valid x y : valid x -> valid y -> valid (Math_min x y).
Proof.
  intros Hx Hy. unfold Math_min.
  destruct (SFcompare x y) as [[| |]|]; try assumption; try reflexivity.
  destruct (sign_bit x); assumption.
Qed.

Lemma Number_valid s : valid (Number s).
Proof.
  assert (Hr : forall r t, valid (radix_literal r t)).
  { intros r t. unfold radix_literal. destruct t; [reflexivity|].
    destruct (scan_radix r 0 (a :: t)); [apply of_ratio_valid|reflexivity]. }
  assert (Hu : forall neg t, valid (unsigned_decimal neg t)).
  { intros neg t. unfold unsigned_decimal.
    destruct (scan_digits 0 0 t) as [[ip icnt] s1].
    assert (Hgen : forall m fcnt s2,
               valid (if 0 <? icnt + fcnt
                      then match exponent_part s2 with
                           | Some e => of_decimal neg m (e - fcnt)
                           | None => S754_nan
                           end
                      else S754_nan)).
    { intros m fcnt s2. destruct (0 <? icnt + fcnt); [|reflexivity].
      destruct (exponent_part s2); [apply of_decimal_valid|reflexivity]. }
    destruct s1 as [|c s1]; [apply Hgen|].
    destruct (ascii_dec c "."%char) as [->|Hne].
    - destruct (scan_digits ip 0 s1) as [[m fcnt] s2]. apply Hgen.
    - destruct c as [[] [] [] [] [] [] [] []]; try apply Hgen.
      exfalso. apply Hne. reflexivity. }
  assert (Hs : forall neg t, valid (signed_decimal neg t)).
  { intros neg t. unfold signed_decimal.
    destruct (list_eq_dec ascii_dec t Infinity_literal); [reflexivity|apply Hu]. }
  unfold Number, Number_literal.
  destruct (trim (list_ascii_of_string s)) as [|c t]; [reflexivity|].
  destruct c as [[] [] [] [] [] [] [] []]; try apply Hs;
    destruct t as [|c' t']; try apply Hs;
    destruct c' as [[] [] [] [] [] [] [] []]; try apply Hs; apply Hr.
Qed.


(** *** Division by itself and by one *)

Lemma new_location_0 n : new_location n 0 = loc_Exact.
Proof.
  unfold new_location, new_location_even, new_location_odd.
  destruct (Z.even n); reflexivity.
Qed.

Lemma div_self s m e : div (S754_finite s m e) (S754_finite s m e) = one.
Proof.
  unfold div, SFdiv.
  rewrite SFdiv_core_binary_spec by lia.
  replace (Zdigits2 (Zpos m) + e - (Zdigits2 (Zpos m) + e)) with 0 by lia.
  replace (e - e) with 0 by lia.
  change (Z.min (fexp64 0) 0) with (-53).
  change (0 - -53) with 53.
  rewrite Z.mul_comm, Z_mod_mult, Z.div_mul by lia.
  rewrite new_location_0. destruct s; reflexivity.
Qed.

Lemma div_one x : valid x -> div x one = x.
Proof.
  intros Hx. destruct x as [s|s| |s m e]; try (destruct s; reflexivity); try reflexivity.
  pose proof (valid_bounds s m e Hx) as (Hc & He & Hd).
  change one with (S754_finite false 4503599627370496 (-52)).
  unfold div, SFdiv.
  rewrite SFdiv_core_binary_spec by lia.
  change (Zdigits2 4503599627370496) with 53.
  set (e' := Z.min (fexp64 (Zdigits2 (Zpos m) + e - (53 + -52))) (e - -52)).
  assert (He' : e' <= e /\ e - 1 <= e').
  { unfold e'. unfold cexp, fexp64 in *. lia. }
  replace (e - -52 - e') with ((e - e') + 52) by lia.
  rewrite Z.pow_add_r by lia.
  change 4503599627370496 with (2 ^ 52).
  rewrite Z.mul_assoc, Z_mod_mult, Z.div_mul by lia.
  rewrite new_location_0, xorb_false_r.
  assert (Hp : 0 < 2 ^ (e - e')) by (apply Z.pow_pos_nonneg; lia).
  assert (Hcx : cexp (Zpos m * 2 ^ (e - e')) e' = e).
  { unfold cexp. rewrite Zdigits2_mul_pow2 by lia.
    replace (Zdigits2 (Z.pos m) + (e - e') + e') with (Zdigits2 (Zpos m) + e) by lia.
    exact Hc. }
  rewrite binary_round_aux_exact; rewrite ?Hcx; try lia.
  - replace e' with (e - (e - e')) at 2 by lia.
    rewrite canon_shift by lia. symmetry. apply valid_canon. assumption.
  - exists (Zpos m). reflexivity.
Qed.

(** *** Comparison *)

Lemma SFcompare_swap x y :
  SFcompare y x = match SFcompare x y with
                  | Some c => Some (CompOpp c)
                  | None => None
                  end.
Proof.
  destruct x as [sx|sx| |sx mx ex]; destruct y as [sy|sy| |sy my ey]; simpl;
    try reflexivity; try (destruct sx; reflexivity); try (destruct sy; reflexivity);
    try (destruct sx, sy; reflexivity).
  destruct sx, sy; try reflexivity;
    rewrite (Z.compare_antisym ex ey); destruct (ex ?= ey); simpl; try reflexivity;
    rewrite (Pos.compare_cont_antisym mx my Eq); simpl;
    rewrite ?CompOpp_involutive; reflexivity.
Qed.

Lemma compare_cont_Eq_eq p q : Pos.compare_cont Eq p q = Eq -> p = q.
Proof.
  rewrite Pos.compare_cont_spec. intros H. apply Pos.compare_eq.
  destruct (p ?= q)%positive; simpl in H; try discriminate. reflexivity.
Qed.

Lemma SFcompare_Eq_finite x s m e :
  SFcompare x (S754_finite s m e) = Some Eq -> x = S754_finite s m e.
Proof.
  destruct x as [sx|sx| |sx mx ex]; simpl;
    try discriminate; try (destruct s; discriminate); try (destruct sx; discriminate).
  destruct sx, s; try discriminate;
    destruct (ex ?= e) eqn:Ee; try discriminate;
    apply Z.compare_eq in Ee; subst ex; intros H; injection H as Hc.
  - destruct (Pos.compare_cont Eq mx m) eqn:Hm; try discriminate.
    apply compare_cont_Eq_eq in Hm. subst. reflexivity.
  - apply compare_cont_Eq_eq in Hc. subst. reflexivity.
Qed.

Lemma SFcompare_None_finite x s m e :
  SFcompare x (S754_finite s m e) = None -> x = S754_nan.
Proof.
  destruct x as [sx|sx| |sx mx ex]; simpl; try discriminate; try reflexivity;
    destruct sx, s; discriminate.
Qed.

Lemma SFleb_swap_max x lo :
  SFleb lo x = true -> SFcompare x lo = Some Gt \/ SFcompare x lo = Some Eq.
Proof.
  unfold SFleb. rewrite (SFcompare_swap x lo).
  destruct (SFcompare x lo) as [[| |]|]; simpl; intros H; auto; discriminate.
Qed.

(** [clamp] leaves alone a number that lies between finite bounds. *)
Lemma clamp_id x sl ml el sh mh eh :
  SFleb (S754_finite sl ml el) x = true ->
  SFleb x (S754_finite sh mh eh) = true ->
  clamp x (S754_finite sl ml el) (S754_finite sh mh eh) = x.
Proof.
  intros Hlo Hhi. unfold clamp.
  assert (Hmax : Math_max x (S754_finite sl ml el) = x).
  { unfold Math_max. destruct (SFleb_swap_max _ _ Hlo) as [H|H]; rewrite H.
    - reflexivity.
    - apply SFcompare_Eq_finite in H. rewrite H. destruct (sign_bit _); reflexivity. }
  rewrite Hmax. unfold Math_min. unfold SFleb in Hhi.
  destruct (SFcompare x (S754_finite sh mh eh)) as [[| |]|] eqn:Hc; try discriminate.
  - apply SFcompare_Eq_finite in Hc. rewrite Hc. destruct (sign_bit _); reflexivity.
  - reflexivity.
Qed.

(** [clamp] to finite bounds [lo <= hi] returns [x] or one of the bounds,
    and the result lies between the bounds unless [x] is [NaN]. *)
Lemma clamp_cases x lo hi :
  clamp x lo hi = x \/ clamp x lo hi = lo \/ clamp x lo hi = hi \/ clamp x lo hi = S754_nan.
Proof.
  unfold clamp, Math_min, Math_max.
  destruct (SFcompare x lo) as [[| |]|]; [destruct (sign_bit x)| | |];
    match goal with
    | |- context [SFcompare ?a hi] =>
        destruct (SFcompare a hi) as [[| |]|]; try destruct (sign_bit a); auto
    end.
Qed.


(** *** The fractional part of a number and its multiples *)

Lemma shl_align_fst mx ex ez :
  ez <= ex -> Zpos (fst (shl_align mx ex ez)) = Zpos mx * 2 ^ (ex - ez).
Proof.
  intros H. unfold shl_align.
  destruct (ez - ex) as [|p|p] eqn:Ed; try lia.
  - replace (ex - ez) with 0 by lia. rewrite Z.pow_0_r, Z.mul_1_r. reflexivity.
  - simpl fst. rewrite pos_iter_xO. f_equal. f_equal. lia.
Qed.

Lemma binary_normalize_exact M E sz :
  0 < M -> exact M E -> cexp M E <= 971 ->
  binary_normalize prec emax M E sz = canon false M E.
Proof.
  intros HM Hex Hc. destruct M as [|p|p]; try lia.
  simpl. apply binary_round_exact; assumption.
Qed.

Lemma of_Z_canon w : 0 < w -> Zdigits2 w <= 53 -> of_Z w = canon false w 0.
Proof.
  intros Hw Hd. unfold of_Z. apply binary_normalize_exact; try assumption.
  - left. unfold cexp, fexp64. lia.
  - unfold cexp, fexp64. lia.
Qed.

Lemma of_int_signed_pos s n : 0 < n -> of_int_signed s n = of_Z n.
Proof. destruct n; try lia. reflexivity. Qed.

Lemma sub_self m e :
  sub (S754_finite false m e) (S754_finite false m e) = S754_zero false.
Proof.
  unfold sub, SFsub. rewrite Z.min_id.
  unfold shl_align. replace (Z.sub e e) with 0 by lia. simpl.
  rewrite Z.pos_sub_diag. reflexivity.
Qed.

(** The fractional part [abs - Math.floor(abs)] of a positive binary64
    number is computed without rounding: it is zero, or the low bits
    [f0] of the mantissa at the same exponent. *)
Lemma frac_part m e :
  valid (S754_finite false m e) ->
  let x := S754_finite false m e in
  sub x (Math_floor x) = S754_zero false \/
  exists f0, 0 < f0 /\ -1074 <= e < 0 /\ f0 < 2 ^ (- e) /\ Zdigits2 f0 <= 53 /\
             sub x (Math_floor x) = canon false f0 e.
Proof.
  intros Hv x. pose proof (valid_bounds _ _ _ Hv) as (Hc & He & Hd).
  unfold x, Math_floor. destruct (0 <=? e) eqn:He0.
  - left. apply sub_self.
  - apply Z.leb_gt in He0. simpl signed_mantissa.
    rewrite Z.shiftr_div_pow2 by lia.
    set (k := - e). assert (Hk : 0 < k) by (unfold k; lia).
    assert (Hp : 0 < 2 ^ k) by (apply Z.pow_pos_nonneg; lia).
    set (w := Zpos m / 2 ^ k).
    assert (Hw : 0 <= w) by (apply Z.div_pos; lia).
    destruct (Z.eq_dec w 0) as [Hw0|Hw0].
    + (* no integer part: the number is its own fractional part *)
      right. exists (Zpos m). rewrite Hw0. simpl of_int_signed.
      assert (Zpos m < 2 ^ k) by (unfold w in Hw0; apply Z.div_small_iff in Hw0; lia).
      repeat split; try lia; try assumption.
      unfold sub, SFsub. apply valid_canon. assumption.
    + assert (Hwpos : 0 < w) by lia.
      assert (Hwd : Zdigits2 w <= 53).
      { pose proof (Zdigits2_le w (Zpos m) Hwpos
                      ltac:(unfold w; apply Z.div_le_upper_bound; nia)). lia. }
      assert (Hof : of_int_signed false w = canon false w 0).
      { rewrite of_int_signed_pos by assumption. apply of_Z_canon; lia. }
      rewrite Hof.
      set (cw := cexp w 0).
      assert (Hcw : -1074 <= cw <= 0) by (unfold cw, cexp, fexp64; lia).
      set (f0 := Zpos m mod 2 ^ k).
      assert (Hf0 : 0 <= f0 < 2 ^ k) by (apply Z.mod_pos_bound; lia).
      assert (Hdecomp : Zpos m = w * 2 ^ k + f0).
      { unfold w, f0. rewrite Z.mul_comm. apply Z.div_mod. lia. }
      unfold canon. fold cw.
      replace (0 - cw) with (- cw) by lia.
      rewrite Z.shiftl_mul_pow2 by lia.
      assert (Hpc : 0 < 2 ^ (- cw)) by (apply Z.pow_pos_nonneg; lia).
      assert (Hmw : 0 < w * 2 ^ (- cw)) by nia.
      unfold sub, SFsub.
      set (ez := Z.min e cw).
      rewrite !shl_align_fst by (unfold ez; lia).
      rewrite Z2Pos.id by assumption.
      unfold cond_Zopp.
      assert (HD : Zpos m * 2 ^ (e - ez) - w * 2 ^ (- cw) * 2 ^ (cw - ez)
                   = f0 * 2 ^ (e - ez)).
      { rewrite <- Z.mul_assoc, <- Z.pow_add_r by (unfold ez; lia).
        replace (- cw + (cw - ez)) with (k + (e - ez)) by (unfold k; lia).
        rewrite Z.pow_add_r by (unfold ez; lia).
        rewrite Hdecomp. ring. }
      change (Z.sub (Zpos m * 2 ^ (e - ez)) (w * 2 ^ (- cw) * 2 ^ (cw - ez)))
        with (Zpos m * 2 ^ (e - ez) - w * 2 ^ (- cw) * 2 ^ (cw - ez)).
      rewrite HD.
      destruct (Z.eq_dec f0 0) as [Hz|Hnz].
      * left. rewrite Hz. reflexivity.
      * right. exists f0.
        assert (Hf0pos : 0 < f0) by lia.
        assert (Hf0d : Zdigits2 f0 <= 53).
        { pose proof (Zdigits2_le f0 (Zpos m) Hf0pos ltac:(lia)). lia. }
        repeat split; try lia.
        assert (Ht : 0 <= e - ez) by (unfold ez; lia).
        assert (Hpt : 0 < 2 ^ (e - ez)) by (apply Z.pow_pos_nonneg; lia).
        assert (Hcx : cexp (f0 * 2 ^ (e - ez)) ez = cexp f0 e).
        { unfold cexp. rewrite Zdigits2_mul_pow2 by lia. f_equal. lia. }
        assert (Hce : cexp f0 e <= e) by (unfold cexp, fexp64; lia).
        assert (Hpos : 0 < f0 * 2 ^ (e - ez)) by nia.
        assert (Hex : exact (f0 * 2 ^ (e - ez)) ez).
        { unfold exact. rewrite Hcx.
          destruct (Z_le_dec (cexp f0 e) ez) as [Hle|Hgt]; [left; assumption|right].
          exists (f0 * 2 ^ (e - cexp f0 e)).
          rewrite <- Z.mul_assoc, <- Z.pow_add_r by lia. f_equal. f_equal. lia. }
        rewrite binary_normalize_exact by (rewrite ?Hcx; assumption || lia).
        replace ez with (e - (e - ez)) at 2 by lia. apply canon_shift; lia.
Qed.

(** Multiplying by [2 ^ j] takes no rounding either. *)
Lemma mul_pow2 f0 e j :
  0 < f0 -> -1074 <= e -> Zdigits2 f0 <= 53 -> 0 <= j <= 52 ->
  Zdigits2 f0 + e + j <= 1024 ->
  mul (canon false f0 e) (S754_finite false 4503599627370496 (j - 52))
  = canon false f0 (e + j).
Proof.
  intros Hf He Hd Hj Hov.
  pose proof (Zdigits2_pos f0 Hf) as Hdp.
  set (cf := cexp f0 e).
  assert (Hcf : cf <= e /\ -1074 <= cf) by (unfold cf, cexp, fexp64; lia).
  assert (Hex : exact f0 e) by (left; fold cf; lia).
  pose proof (canon_mantissa_pos f0 e Hf Hex) as Hmpos. fold cf in Hmpos.
  unfold canon. fold cf. unfold mul, SFmul. simpl xorb.
  rewrite Pos2Z.inj_mul, Z2Pos.id by assumption.
  rewrite Z.shiftl_mul_pow2 by lia.
  change (Z.pos 4503599627370496) with (2 ^ 52).
  rewrite <- Z.mul_assoc, <- Z.pow_add_r by lia.
  set (t := e - cf + 52).
  change (Z.add cf (j - 52)) with (cf + (j - 52)).
  replace (cf + (j - 52)) with (e + j - t) by (unfold t; lia).
  assert (Ht : 0 <= t) by (unfold t; lia).
  assert (Hpt : 0 < 2 ^ t) by (apply Z.pow_pos_nonneg; lia).
  assert (Hcx : cexp (f0 * 2 ^ t) (e + j - t) = cexp f0 (e + j)).
  { unfold cexp. rewrite Zdigits2_mul_pow2 by lia. f_equal. lia. }
  assert (Hc1 : e + j - t <= cexp f0 (e + j) <= e + j).
  { unfold t, cf, cexp, fexp64. lia. }
  assert (Hpos : 0 < f0 * 2 ^ t) by nia.
  assert (Hdiv : (2 ^ (cexp f0 (e + j) - (e + j - t)) | f0 * 2 ^ t)).
  { exists (f0 * 2 ^ (e + j - cexp f0 (e + j))).
    rewrite <- Z.mul_assoc, <- Z.pow_add_r by lia. f_equal. f_equal. lia. }
  assert (Hmax : cexp f0 (e + j) <= 971) by (unfold cexp, fexp64; lia).
  rewrite binary_round_aux_exact by (rewrite ?Hcx; assumption || lia).
  rewrite canon_shift by lia. reflexivity.
Qed.

(** [Math.round] of a positive number below [2 ^ j] is an integer from 0
    to [2 ^ j]. *)
Lemma Math_round_below f0 E j :
  0 < f0 -> Zdigits2 f0 <= 53 -> -1074 <= E -> Zdigits2 f0 + E <= j -> 0 <= j <= 52 ->
  exists N, 0 <= N <= 2 ^ j /\ Math_round (canon false f0 E) = of_int_signed false N.
Proof.
  intros Hf Hd HE Hlt Hj.
  pose proof (Zdigits2_pos f0 Hf) as Hdp.
  set (c := cexp f0 E).
  assert (Hc : c <= E /\ c < 0 /\ -1074 <= c) by (unfold c, cexp, fexp64; lia).
  assert (Hex : exact f0 E) by (left; fold c; lia).
  pose proof (canon_mantissa_pos f0 E Hf Hex) as Hmpos.
  pose proof (canon_mantissa_digits f0 E Hf Hex) as Hmd.
  fold c in Hmpos, Hmd.
  unfold canon. fold c. unfold Math_round.
  replace (0 <=? c) with false by (symmetry; apply Z.leb_gt; lia).
  simpl signed_mantissa. rewrite Z2Pos.id by assumption.
  set (mc := Z.shiftl f0 (E - c)) in *.
  rewrite Z.shiftl_mul_pow2, Z.shiftr_div_pow2 by lia.
  rewrite Z.mul_1_l.
  exists ((2 * mc + 2 ^ (- c)) / 2 ^ (- c + 1)).
  split; [|reflexivity].
  assert (Hp : 0 < 2 ^ (- c)) by (apply Z.pow_pos_nonneg; lia).
  assert (Hp1 : 2 ^ (- c + 1) = 2 * 2 ^ (- c)).
  { rewrite Z.pow_add_r, Z.pow_1_r by lia. lia. }
  pose proof (Zdigits2_bounds mc Hmpos) as [_ Hhi].
  assert (Hmc : mc < 2 ^ (j - c)).
  { apply Z.lt_le_trans with (1 := Hhi). apply Z.pow_le_mono_r; lia. }
  assert (Hpj : 2 ^ (j - c) = 2 ^ j * 2 ^ (- c)).
  { rewrite <- Z.pow_add_r by lia. f_equal; lia. }
  assert (Hpjpos : 0 < 2 ^ j) by (apply Z.pow_pos_nonneg; lia).
  split.
  - apply Z.div_pos; lia.
  - apply Z.lt_succ_r. apply Z.div_lt_upper_bound; [lia|].
    rewrite Hp1. rewrite Hpj in Hmc. nia.
Qed.


(** * Checking finite tables of cases *)

Lemma number_eqb_eq x y : number_eqb x y = true -> x = y.
Proof.
  destruct x as [a|a| |a m e]; destruct y as [b|b| |b m' e']; simpl;
    try discriminate; intros H.
  - apply Bool.eqb_prop in H. now subst.
  - apply Bool.eqb_prop in H. now subst.
  - reflexivity.
  - apply andb_true_iff in H. destruct H as [H He].
    apply andb_true_iff in H. destruct H as [Hs Hm].
    apply Bool.eqb_prop in Hs. apply Pos.eqb_eq in Hm. apply Z.eqb_eq in He.
    now subst.
Qed.

Lemma forall_range (P : Z -> bool) (lo len : nat) :
  forallb (fun i => P (Z.of_nat i)) (seq lo len) = true ->
  forall n, Z.of_nat lo <= n < Z.of_nat (lo + len) -> P n = true.
Proof.
  intros H n Hn. rewrite forallb_forall in H.
  specialize (H (Z.to_nat n)). rewrite Z2Nat.id in H by lia.
  apply H. apply in_seq. lia.
Qed.

Lemma clamp_scale n : 1 <= n <= 72 -> clamp (of_Z n) one n72 = of_Z n.
Proof.
  intros Hn. apply number_eqb_eq.
  exact (forall_range (fun n => number_eqb (clamp (of_Z n) one n72) (of_Z n)) 1 72
           ltac:(vm_compute; reflexivity) n ltac:(lia)).
Qed.

Lemma ALL_SCALES_eq : ALL_SCALES = map (fun i => of_Z (Z.of_nat i)) (seq 1 72).
Proof. vm_compute. reflexivity. Qed.

Lemma In_ALL_SCALES x : In x ALL_SCALES <-> exists n, 1 <= n <= 72 /\ x = of_Z n.
Proof.
  rewrite ALL_SCALES_eq, in_map_iff. split.
  - intros [i [Hi Hin]]. apply in_seq in Hin. exists (Z.of_nat i). split; [lia|auto].
  - intros [n [Hn ->]]. exists (Z.to_nat n). split.
    + rewrite Z2Nat.id by lia. reflexivity.
    + apply in_seq. lia.
Qed.

(** * The rounding helper *)

Lemma ToIntegerOrInfinity_of_Z k :
  0 <= k <= 100 -> ToIntegerOrInfinity (of_Z k) = Some k.
Proof.
  intros Hk.
  pose proof (forall_range (fun k => match ToIntegerOrInfinity (of_Z k) with
                                     | Some f => f =? k
                                     | None => false
                                     end) 0 101
                ltac:(vm_compute; reflexivity) k ltac:(lia)) as H.
  cbv beta in H. destruct (ToIntegerOrInfinity (of_Z k)); [|discriminate].
  apply Z.eqb_eq in H. now subst.
Qed.

Lemma toFixed_normal x dp f :
  ToIntegerOrInfinity dp = Some f -> 0 <= f <= 100 ->
  exists s, toFixed x dp = Normal s.
Proof.
  intros Hf Hr. unfold toFixed. rewrite Hf.
  replace ((f <? 0) || (100 <? f)) with false.
  - eexists. reflexivity.
  - symmetry. apply orb_false_iff. split; [apply Z.ltb_ge|apply Z.ltb_ge]; lia.
Qed.

Lemma round_normal v dp f :
  ToIntegerOrInfinity dp = Some f -> 0 <= f <= 100 ->
  exists r, round v dp = Normal r.
Proof.
  intros Hf Hr. unfold round. destruct (isFinite v).
  - destruct (toFixed_normal v dp f Hf Hr) as [s Hs]. rewrite Hs. simpl.
    eexists. reflexivity.
  - eexists. reflexivity.
Qed.

Lemma round_not_finite v dp : isFinite v = false -> round v dp = Normal zero.
Proof. intros H. unfold round. now rewrite H. Qed.

Lemma metricOut_normal mm dp f :
  ToIntegerOrInfinity dp = Some f -> 0 <= f <= 100 ->
  exists a b c, round mm dp = Normal a /\ round (div mm n10) dp = Normal b /\
                round (div mm n1000) dp = Normal c /\
                metricOut mm dp = Normal (mkMetricOut a b c).
Proof.
  intros Hf Hr.
  destruct (round_normal mm dp f Hf Hr) as [a Ha].
  destruct (round_normal (div mm n10) dp f Hf Hr) as [b Hb].
  destruct (round_normal (div mm n1000) dp f Hf Hr) as [c Hc].
  exists a, b, c. unfold metricOut. rewrite Ha, Hb, Hc. auto.
Qed.

(** * The unit tables *)

Lemma activeUnit_cases st :
  In (activeUnit st) METRIC_UNITS \/ In (activeUnit st) IMPERIAL_UNITS.
Proof.
  unfold activeUnit, unitList.
  destruct (String.eqb (system st) "metric");
    match goal with
    | |- context [find ?p ?l] => destruct (find p l) as [u|] eqn:Hf
    end;
    try (apply find_some in Hf; destruct Hf as [Hin _]; auto);
    simpl; auto.
Qed.

Lemma toMM_valid u v :
  In u METRIC_UNITS \/ In u IMPERIAL_UNITS -> valid v -> valid (toMM u v).
Proof.
  intros Hu Hv. unfold METRIC_UNITS, IMPERIAL_UNITS in Hu. simpl in Hu.
  destruct Hu as [[<-|[<-|[<-|[]]]]|[<-|[<-|[]]]]; simpl;
    try assumption; repeat apply mul_valid; try assumption;
    vm_compute; reflexivity.
Qed.

Lemma activeUnit_mm st :
  system st = "metric"%string -> metricUnit st = "mm"%string ->
  forall v, toMM (activeUnit st) v = v.
Proof.
  intros Hs Hu v. unfold activeUnit, unitList, activeUnitKey. rewrite Hs, Hu.
  reflexivity.
Qed.

(** * The measurement converter *)

(** The number that the single-page variant takes from the input field. *)
Lemma parsed_valid s :
  valid (if isFinite (Number (remove_commas s)) then Number (remove_commas s) else zero).
Proof. destruct (isFinite _); [apply Number_valid|reflexivity]. Qed.

Lemma clamp_between x :
  x <> S754_nan ->
  SFleb one (clamp x one n72) = true /\ SFleb (clamp x one n72) n72 = true.
Proof.
  intros Hx. unfold clamp.
  assert (Hmax : Math_max x one = x /\ SFleb one x = true \/ Math_max x one = one).
  { unfold Math_max, SFleb. rewrite (SFcompare_swap x one).
    destruct (SFcompare x one) as [[| |]|] eqn:Hc; simpl; auto.
    - apply SFcompare_Eq_finite in Hc. subst x. auto.
    - apply SFcompare_None_finite in Hc. contradiction. }
  assert (Hmin : forall y, SFleb one y = true ->
                 SFleb one (Math_min y n72) = true /\ SFleb (Math_min y n72) n72 = true).
  { intros y Hy. unfold Math_min.
    destruct (SFcompare y n72) as [[| |]|] eqn:Hc.
    - apply SFcompare_Eq_finite in Hc. subst y. split; reflexivity.
    - split; [assumption|]. unfold SFleb. now rewrite Hc.
    - split; reflexivity.
    - apply SFcompare_None_finite in Hc. subst y. discriminate. }
  destruct Hmax as [[-> Hle]| ->]; apply Hmin; [assumption|reflexivity].
Qed.

(** C8, at the failing input.  With the text [1,000] in the input field,
    millimetres and scale 1:10, the single-page variant removes the comma
    and returns 100, while [src/App.jsx] parses the text as it is, gets
    [NaN] and returns 0. *)
Theorem C8_commas_kept_in_App :
  let st := mkInputs "metric" "mm" "in" "1,000" n10 n16 (of_Z 3) in
  Number (inputValue st) = S754_nan /\
  App.mmScaled st = zero /\
  ScaleConverter.mmScaled st = of_Z 100.
Proof. vm_compute. repeat split; reflexivity. Qed.

(** * The scale-to-scale converter *)

Lemma toFixed_2 x : exists s, toFixed x n2 = Normal s.
Proof. apply (toFixed_normal x n2 2); [reflexivity|lia]. Qed.

(** C6. For scales that are neither zero nor [NaN] the percentage is the
    string [((fromScale / toScale) * 100).toFixed(2)], and no error is
    raised; it is ["100.00"] whenever both scales are the same finite
    number, and ["77.78"] from 14 to 18.  These strings read as the
    numbers 100 and 77.78. *)
Theorem C6_percent_is_fixed_ratio :
  (forall fromScale toScale,
     truthy fromScale = true -> truthy toScale = true ->
     exists s, toFixed (mul (div fromScale toScale) n100) n2 = Normal s /\
               App.percent fromScale toScale = Normal (Str s)) /\
  (forall n, truthy n = true -> isFinite n = true ->
     App.percent n n = Normal (Str "100.00")) /\
  App.percent (of_Z 14) (of_Z 18) = Normal (Str "77.78") /\
  Number "100.00" = n100 /\ Number "77.78" = of_decimal false 7778 (-2).
Proof.
  split; [|split; [|split; [|split]]].
  - intros a b Ha Hb. destruct (toFixed_2 (mul (div a b) n100)) as [s Hs].
    exists s. split; [exact Hs|]. unfold App.percent. rewrite Ha, Hb, Hs. reflexivity.
  - intros n Ht Hf. destruct n as [s|s| |s m e]; try discriminate.
    unfold App.percent. simpl truthy. simpl negb. simpl orb. cbv iota.
    rewrite div_self. vm_compute. reflexivity.
  - vm_compute. reflexivity.
  - vm_compute. reflexivity.
  - vm_compute. reflexivity.
Qed.

Lemma C6_percent_is_fixed_ratio_witness :
  App.percent (of_Z 72) (of_Z 72) = Normal (Str "100.00").
Proof.
  apply (proj1 (proj2 C6_percent_is_fixed_ratio)); reflexivity.
Defined.

(** C7. When either scale is zero or [NaN] the percentage is the number
    0, returned without dividing and without an error. *)
Theorem C7_percent_guard (fromScale toScale : number) :
  truthy fromScale = false \/ truthy toScale = false ->
  App.percent fromScale toScale = Normal (Num zero).
Proof.
  intros [H|H]; unfold App.percent; rewrite H; simpl; [reflexivity|].
  now rewrite orb_true_r.
Qed.

Lemma C7_percent_guard_witness :
  App.percent (of_Z 0) (of_Z 18) = Normal (Num zero) /\
  App.percent (of_Z 14) (of_Z 0) = Normal (Num zero).
Proof.
  split.
  - apply (C7_percent_guard (of_Z 0) (of_Z 18)). left. reflexivity.
  - apply (C7_percent_guard (of_Z 14) (of_Z 0)). right. reflexivity.
Defined.

(** * The fraction reducer *)

Lemma inchesToFraction_not_finite v d :
  Number_isFinite v = false ->
  inchesToFraction v d = Normal (mkFraction "" zero zero d).
Proof.
  intros H. destruct v as [| |b|s|x]; try reflexivity.
  simpl in H. unfold inchesToFraction. now rewrite H.
Qed.

(** [inchesToFraction] on a finite number, with its last step apart. *)
Lemma inchesToFraction_finite x d :
  isFinite x = true ->
  inchesToFraction (Num x) d =
  let sign := if lt x zero then "-"%string else ""%string in
  let whole := Math_floor (Math_abs x) in
  let num := Math_round (mul (sub (Math_abs x) whole) d) in
  p <- reduce num d ;;
  let '(carry, n', d') := p in
  Normal (mkFraction sign (if carry then add whole one else whole) n' d').
Proof.
  intros H. unfold inchesToFraction, reduce. rewrite H. simpl negb. cbv iota zeta.
  destruct (strict_eq _ d); [reflexivity|].
  destruct (g call_depth _ d); reflexivity.
Qed.

Lemma pow2_number j :
  0 <= j <= 52 -> of_Z (2 ^ j) = S754_finite false 4503599627370496 (j - 52).
Proof.
  intros Hj. apply number_eqb_eq.
  exact (forall_range
           (fun j => number_eqb (of_Z (2 ^ j))
                       (S754_finite false 4503599627370496 (j - 52))) 0 53
           ltac:(vm_compute; reflexivity) j ltac:(lia)).
Qed.

(** The numerator before reduction is an integer from 0 to the
    denominator [2 ^ j]. *)
Lemma numerator_range x j :
  valid x -> isFinite x = true -> 0 <= j <= 52 ->
  exists N, 0 <= N <= 2 ^ j /\
    Math_round (mul (sub (Math_abs x) (Math_floor (Math_abs x))) (of_Z (2 ^ j)))
    = of_int_signed false N.
Proof.
  intros Hv Hf Hj. rewrite pow2_number by assumption.
  assert (Hp : 0 < 2 ^ j) by (apply Z.pow_pos_nonneg; lia).
  assert (Hz : exists N, 0 <= N <= 2 ^ j /\
             Math_round (mul (S754_zero false)
                           (S754_finite false 4503599627370496 (j - 52)))
             = of_int_signed false N).
  { exists 0. split; [lia|reflexivity]. }
  destruct x as [s|s| |s m e]; try discriminate.
  - exact Hz.
  - simpl Math_abs.
    assert (Hv' : valid (S754_finite false m e)) by exact Hv.
    destruct (frac_part m e Hv') as [H0|(f0 & Hf0 & He & Hlt & Hd & Hfr)].
    + rewrite H0. exact Hz.
    + rewrite Hfr. rewrite mul_pow2 by lia.
      apply Math_round_below; try lia.
      pose proof (Zdigits2_lt_pow2 f0 (- e) Hf0 ltac:(lia) Hlt). lia.
Qed.

Lemma reduce_check_all j N :
  1 <= j <= 6 -> 0 <= N <= 2 ^ j -> reduce_check j N = true.
Proof.
  intros Hj HN.
  assert (HN' : 0 <= N < 65).
  { assert (2 ^ j <= 2 ^ 6) by (apply Z.pow_le_mono_r; lia).
    change (2 ^ 6) with 64 in *. lia. }
  pose proof (forall_range
                (fun j => forallb (fun i => let N := Z.of_nat i in
                                            (2 ^ j <? N) || reduce_check j N)
                            (seq 0 65)) 1 6
                ltac:(vm_compute; reflexivity) j ltac:(lia)) as H.
  cbv beta in H.
  pose proof (forall_range (fun N => (2 ^ j <? N) || reduce_check j N) 0 65 H N
                ltac:(lia)) as H'.
  cbv beta in H'. apply orb_true_iff in H'. destruct H' as [H'|H']; [|exact H'].
  apply Z.ltb_lt in H'. lia.
Qed.

(** C4. When the rounded numerator equals the denominator, the whole part
    is incremented, the numerator is 0 and the denominator is the one
    requested; 1.96875 inches at sixteenths is 2 and 0/16. *)
Theorem C4_carry_into_whole (x d : number) :
  isFinite x = true ->
  strict_eq (Math_round (mul (sub (Math_abs x) (Math_floor (Math_abs x))) d)) d = true ->
  inchesToFraction (Num x) d
  = Normal (mkFraction (if lt x zero then "-" else "")
              (add (Math_floor (Math_abs x)) one) zero d).
Proof.
  intros Hf Heq. unfold inchesToFraction. rewrite Hf. simpl negb. cbv iota zeta.
  rewrite Heq. reflexivity.
Qed.

Lemma C4_carry_into_whole_witness :
  inchesToFraction (Num (Number "1.96875")) n16
  = Normal (mkFraction "" (of_Z 2) zero n16).
Proof.
  rewrite (C4_carry_into_whole (Number "1.96875") n16);
    vm_compute; reflexivity.
Defined.

(** * The recursion of the greatest common divisor ends *)

Lemma ulps_canon s M E :
  0 < M -> -1074 <= E -> cexp M E <= E ->
  ulps (canon s M E) = M * 2 ^ (E + 1074).
Proof.
  intros HM HE Hc. unfold canon, ulps.
  pose proof (fexp64_ge (Zdigits2 M + E)) as Hge. fold (cexp M E) in Hge.
  rewrite Z.shiftl_mul_pow2 by lia.
  assert (0 < 2 ^ (E - cexp M E)) by (apply Z.pow_pos_nonneg; lia).
  rewrite Z2Pos.id by nia.
  rewrite <- Z.mul_assoc, <- Z.pow_add_r by lia. f_equal. f_equal. lia.
Qed.

Lemma ulps_bound x : valid x -> 0 <= ulps x < 2 ^ 2098.
Proof.
  intros Hv.
  destruct x as [s|s| |s m e]; unfold ulps;
    try (split; [lia|apply Z.pow_pos_nonneg; lia]).
  pose proof (valid_bounds s m e Hv) as (_ & He & Hd).
  pose proof (Zdigits2_bounds (Zpos m) ltac:(lia)) as [_ Hhi].
  assert (Hm : Zpos m < 2 ^ 53).
  { apply Z.lt_le_trans with (1 := Hhi). apply Z.pow_le_mono_r; lia. }
  assert (Hp : 0 < 2 ^ (e + 1074)) by (apply Z.pow_pos_nonneg; lia).
  assert (Hle : 2 ^ (e + 1074) <= 2 ^ 2045) by (apply Z.pow_le_mono_r; lia).
  replace (2 ^ 2098) with (2 ^ 53 * 2 ^ 2045)
    by (rewrite <- Z.pow_add_r by lia; reflexivity).
  split; [apply Z.mul_nonneg_nonneg; lia|].
  apply Z.lt_le_trans with (2 ^ 53 * 2 ^ (e + 1074)).
  - apply Z.mul_lt_mono_pos_r; assumption.
  - apply Z.mul_le_mono_nonneg_l; [apply Z.pow_nonneg; lia|assumption].
Qed.

(** The remainder of two finite numbers is computed without rounding. *)
Lemma rem_finite sa ma ea sb mb eb :
  valid (S754_finite sa ma ea) -> valid (S754_finite sb mb eb) ->
  let a := S754_finite sa ma ea in
  let b := S754_finite sb mb eb in
  ulps (rem a b) = ulps a mod ulps b /\ isFinite (rem a b) = true.
Proof.
  intros Ha Hb a b.
  pose proof (valid_bounds _ _ _ Ha) as (_ & Hea & Hda).
  pose proof (valid_bounds _ _ _ Hb) as (_ & Heb & Hdb).
  unfold a, b, rem.
  set (ez := Z.min ea eb).
  rewrite !Z.shiftl_mul_pow2 by (unfold ez; lia).
  set (Ma := Zpos ma * 2 ^ (ea - ez)).
  set (Mb := Zpos mb * 2 ^ (eb - ez)).
  assert (HMa : 0 < Ma).
  { unfold Ma. assert (0 < 2 ^ (ea - ez)) by (apply Z.pow_pos_nonneg; unfold ez; lia). nia. }
  assert (HMb : 0 < Mb).
  { unfold Mb. assert (0 < 2 ^ (eb - ez)) by (apply Z.pow_pos_nonneg; unfold ez; lia). nia. }
  rewrite Z.rem_mod_nonneg by lia.
  set (r := Ma mod Mb).
  assert (Hr : 0 <= r < Mb) by (apply Z.mod_pos_bound; lia).
  assert (Hra : r <= Ma) by (apply Z.mod_le; lia).
  assert (HK : 0 < 2 ^ (ez + 1074)) by (apply Z.pow_pos_nonneg; unfold ez; lia).
  assert (Hua : ulps (S754_finite sa ma ea) = Ma * 2 ^ (ez + 1074)).
  { unfold ulps, Ma. rewrite <- Z.mul_assoc, <- Z.pow_add_r by (unfold ez; lia).
    f_equal. f_equal. lia. }
  assert (Hub : ulps (S754_finite sb mb eb) = Mb * 2 ^ (ez + 1074)).
  { unfold ulps, Mb. rewrite <- Z.mul_assoc, <- Z.pow_add_r by (unfold ez; lia).
    f_equal. f_equal. lia. }
  rewrite Hua, Hub, Z.mul_mod_distr_r by lia. fold r.
  destruct (Z.eq_dec r 0) as [Hr0|Hr0].
  - rewrite Hr0. destruct sa; simpl; split; reflexivity.
  - assert (Hrd : Zdigits2 r <= 53).
    { destruct (Z.min_spec ea eb) as [[_ Hm]|[_ Hm]]; fold ez in Hm.
      - assert (Ma = Zpos ma).
        { unfold Ma. rewrite Hm. replace (ea - ea) with 0 by lia. simpl. lia. }
        pose proof (Zdigits2_le r (Zpos ma) ltac:(lia) ltac:(lia)). lia.
      - assert (Mb = Zpos mb).
        { unfold Mb. rewrite Hm. replace (eb - eb) with 0 by lia. simpl. lia. }
        pose proof (Zdigits2_le r (Zpos mb) ltac:(lia) ltac:(lia)). lia. }
    assert (Hc : cexp r ez <= ez) by (unfold cexp, fexp64, ez; lia).
    assert (Hcan : binary_normalize prec emax (cond_Zopp sa r) ez sa = canon sa r ez).
    { destruct r as [|p|p] eqn:Er; try lia.
      destruct sa; simpl; apply binary_round_exact;
        try (left; exact Hc); unfold ez in *; lia. }
    rewrite Hcan. rewrite ulps_canon by (unfold ez in *; lia).
    split; reflexivity.
Qed.

Lemma mod_halves B R : 0 < R -> R < B -> 2 * (B mod R) < B.
Proof.
  intros HR HB.
  pose proof (Z.mod_pos_bound B R HR) as Hm.
  pose proof (Z.div_mod B R ltac:(lia)) as Hd.
  assert (1 <= B / R) by (apply Z.div_le_lower_bound; lia).
  nia.
Qed.

Lemma ulps_zero_falsy x : valid x -> isFinite x = true -> ulps x = 0 -> truthy x = false.
Proof.
  destruct x as [s|s| |s m e]; unfold ulps; try reflexivity; try discriminate.
  intros Hv _ H. pose proof (valid_bounds s m e Hv) as (_ & He & _).
  assert (0 < 2 ^ (e + 1074)) by (apply Z.pow_pos_nonneg; lia). nia.
Qed.

Lemma g_S depth a b :
  g (S depth) a b = if truthy b then g depth b (rem a b) else Normal a.
Proof. reflexivity. Qed.

Lemma g_not_finite depth a b :
  (3 <= depth)%nat -> isFinite b = false -> exists r, g depth a b = Normal r.
Proof.
  intros Hd Hb.
  destruct depth as [|[|[|depth]]]; try lia.
  destruct b as [s|s| |s m e]; try discriminate.
  - (* an infinite [b] *)
    destruct a as [sa|sa| |sa ma ea]; simpl; eexists; reflexivity.
  - simpl. eexists. reflexivity.
Qed.

Lemma g_terminates (t : nat) :
  forall depth a b,
    valid a -> valid b -> isFinite b = true ->
    ulps b < 2 ^ Z.of_nat t -> (2 * t + 3 <= depth)%nat ->
    exists r, g depth a b = Normal r.
Proof.
  induction t as [|t IH]; intros depth a b Ha Hb Hfb Hu Hd.
  - destruct depth as [|depth]; [lia|].
    pose proof (ulps_bound b Hb) as Hb0.
    change (2 ^ Z.of_nat 0) with 1 in Hu.
    simpl. rewrite (ulps_zero_falsy b Hb Hfb ltac:(lia)). eexists. reflexivity.
  - destruct depth as [|depth]; [lia|].
    rewrite g_S. destruct (truthy b) eqn:Htb; [|eexists; reflexivity].
    destruct b as [sb|sb| |sb mb eb]; try discriminate.
    destruct a as [sa|sa| |sa ma ea].
    + (* a zero dividend: the remainder is that zero *)
      destruct depth as [|depth]; [lia|]. simpl. eexists. reflexivity.
    + destruct depth as [|depth]; [lia|]. simpl. eexists. reflexivity.
    + destruct depth as [|depth]; [lia|]. simpl. eexists. reflexivity.
    + destruct (rem_finite sa ma ea sb mb eb Ha Hb) as [Hu1 Hf1].
      cbv zeta in Hu1, Hf1.
      set (r1 := rem (S754_finite sa ma ea) (S754_finite sb mb eb)) in *.
      assert (Hv1 : valid r1) by (apply rem_valid; assumption).
      pose proof (ulps_bound _ Ha) as Hua. pose proof (ulps_bound _ Hb) as Hub.
      assert (Hbpos : 0 < ulps (S754_finite sb mb eb)).
      { unfold ulps. pose proof (valid_bounds sb mb eb Hb) as (_ & He & _).
        assert (0 < 2 ^ (eb + 1074)) by (apply Z.pow_pos_nonneg; lia). nia. }
      pose proof (Z.mod_pos_bound (ulps (S754_finite sa ma ea)) _ Hbpos) as Hr1.
      rewrite <- Hu1 in Hr1.
      destruct depth as [|depth]; [lia|].
      rewrite g_S. destruct (truthy r1) eqn:Ht1; [|eexists; reflexivity].
      destruct r1 as [s1|s1| |s1 m1 e1] eqn:Er1; try discriminate.
      destruct (rem_finite sb mb eb s1 m1 e1 Hb Hv1) as [Hu2 Hf2].
      cbv zeta in Hu2, Hf2.
      apply IH.
      * exact Hv1.
      * apply rem_valid; assumption.
      * exact Hf2.
      * rewrite Hu2.
        assert (H1pos : 0 < ulps (S754_finite s1 m1 e1)).
        { unfold ulps. pose proof (valid_bounds s1 m1 e1 Hv1) as (_ & He & _).
          assert (0 < 2 ^ (e1 + 1074)) by (apply Z.pow_pos_nonneg; lia). nia. }
        pose proof (mod_halves _ _ H1pos (proj2 Hr1)) as Hh.
        rewrite Nat2Z.inj_succ, Z.pow_succ_r in Hu by lia. lia.
      * lia.
Qed.

Lemma g_total a b : valid a -> valid b -> exists r, g call_depth a b = Normal r.
Proof.
  intros Ha Hb.
  assert (Hd : (2 * 2098 + 3 <= call_depth)%nat).
  { unfold call_depth. apply Nat2Z.inj_le. rewrite Z2Nat.id by lia. lia. }
  destruct (isFinite b) eqn:Hf.
  - apply (g_terminates 2098); try assumption.
    pose proof (ulps_bound b Hb). replace (Z.of_nat 2098) with 2098 by lia. lia.
  - apply g_not_finite; [lia|assumption].
Qed.

Lemma inchesToFraction_total v d :
  (forall x, v = Num x -> valid x) -> valid d ->
  exists f, inchesToFraction v d = Normal f.
Proof.
  intros Hv Hd. destruct v as [| |b|s|x]; try (eexists; reflexivity).
  specialize (Hv x eq_refl). unfold inchesToFraction.
  destruct (negb (isFinite x)); [eexists; reflexivity|]. cbv zeta.
  destruct (strict_eq _ d); [eexists; reflexivity|].
  match goal with
  | |- context [g call_depth ?n d] =>
      destruct (g_total n d) as [r Hr]; [|exact Hd|rewrite Hr]
  end.
  - apply Math_round_valid, mul_valid; [|exact Hd].
    apply sub_valid; [|apply Math_floor_valid]; apply Math_abs_valid; exact Hv.
  - simpl. eexists. reflexivity.
Qed.

(** C5, the counterexample.  A finite length with a degenerate
    denominator is no zero fraction: 1.5 inches with the denominator 0 is
    the whole part 2 and 0/0, and with the denominator [NaN] it is the
    whole part 1 and [NaN]/[NaN]. *)
Lemma C5_degenerate_denominator :
  inchesToFraction (Num (of_decimal false 15 (-1))) zero
  = Normal (mkFraction "" (of_Z 2) zero zero) /\
  inchesToFraction (Num (of_decimal false 15 (-1))) S754_nan
  = Normal (mkFraction "" one S754_nan S754_nan).
Proof. split; vm_compute; reflexivity. Qed.

(** C5, amended.  For every argument that is not a finite number (a
    number that is [NaN] or infinite, or a value that is not a number) the
    fraction is zero, with an empty sign and the requested denominator;
    and the call raises no error on any argument and any denominator, it
    returns a fraction: the recursion of the greatest common divisor stays
    within the depth the engine allows. *)
Theorem C5_never_raises (v : value) (d : number) :
  (Number_isFinite v = false ->
   inchesToFraction v d = Normal (mkFraction "" zero zero d)) /\
  ((forall x, v = Num x -> valid x) -> valid d ->
   exists f, inchesToFraction v d = Normal f).
Proof.
  split; [apply inchesToFraction_not_finite|apply inchesToFraction_total].
Qed.

Lemma C5_never_raises_witness :
  inchesToFraction (Num S754_nan) n16 = Normal (mkFraction "" zero zero n16) /\
  exists f, inchesToFraction (Num (of_decimal true 23 (-1))) n16 = Normal f.
Proof.
  split.
  - apply (proj1 (C5_never_raises (Num S754_nan) n16)). reflexivity.
  - apply (proj2 (C5_never_raises (Num (of_decimal true 23 (-1))) n16)).
    + intros x Hx. injection Hx as <-. vm_compute. reflexivity.
    + vm_compute. reflexivity.
Defined.

(** * Printing and reading decimal digits *)

Lemma digit_char_spec d :
  0 <= d <= 9 -> is_digit (digit_char d) = true /\ digit_value (digit_char d) = d.
Proof.
  intros Hd.
  pose proof (forall_range
                (fun d => is_digit (digit_char d) && (digit_value (digit_char d) =? d))
                0 10 ltac:(vm_compute; reflexivity) d ltac:(lia)) as H.
  cbv beta in H. apply andb_true_iff in H. destruct H as [H1 H2].
  apply Z.eqb_eq in H2. auto.
Qed.

Lemma fold_digits l acc :
  fold_left (fun a c => 10 * a + digit_value c) l acc
  = acc * 10 ^ Z.of_nat (List.length l) + digits_value l.
Proof.
  unfold digits_value. revert acc.
  induction l as [|c l IH]; intros acc.
  - simpl. lia.
  - cbn [fold_left]. rewrite IH, (IH (10 * 0 + digit_value c)).
    cbn [List.length]. rewrite Nat2Z.inj_succ, Z.pow_succ_r by lia. ring.
Qed.

Lemma digits_value_app l1 l2 :
  digits_value (l1 ++ l2)
  = digits_value l1 * 10 ^ Z.of_nat (List.length l2) + digits_value l2.
Proof.
  unfold digits_value at 1. rewrite fold_left_app, fold_digits. reflexivity.
Qed.

Lemma digits_value_single c : digits_value [c] = digit_value c.
Proof. unfold digits_value. cbn [fold_left]. lia. Qed.

Lemma forallb_single c : is_digit c = true -> forallb is_digit [c] = true.
Proof. intros H. cbn [forallb]. now rewrite H. Qed.

Lemma scan_digits_cons acc cnt c s :
  scan_digits acc cnt (c :: s)
  = if is_digit c then scan_digits (10 * acc + digit_value c) (cnt + 1) s
    else (acc, cnt, c :: s).
Proof. reflexivity. Qed.

Lemma scan_digits_app l : forall acc cnt rest,
  forallb is_digit l = true -> no_leading_digit rest ->
  scan_digits acc cnt (l ++ rest)
  = (acc * 10 ^ Z.of_nat (List.length l) + digits_value l,
     cnt + Z.of_nat (List.length l), rest).
Proof.
  induction l as [|c l IH]; intros acc cnt rest Hl Hrest.
  - simpl app. simpl List.length. change (digits_value []) with 0.
    replace (acc * 10 ^ Z.of_nat 0 + 0) with acc by (simpl; lia).
    replace (cnt + Z.of_nat 0) with cnt by (simpl; lia).
    destruct rest as [|c rest]; [reflexivity|].
    simpl in Hrest. rewrite scan_digits_cons, Hrest. reflexivity.
  - simpl in Hl. apply andb_true_iff in Hl. destruct Hl as [Hc Hl].
    simpl app. rewrite scan_digits_cons, Hc. rewrite IH by assumption.
    change (c :: l) with ([c] ++ l). rewrite digits_value_app.
    simpl List.length. rewrite Nat2Z.inj_succ, Z.pow_succ_r by lia.
    rewrite digits_value_single.
    replace ((10 * acc + digit_value c) * 10 ^ Z.of_nat (List.length l) + digits_value l)
      with (acc * (10 * 10 ^ Z.of_nat (List.length l))
            + (digit_value c * 10 ^ Z.of_nat (List.length l) + digits_value l)) by ring.
    replace (cnt + 1 + Z.of_nat (List.length l))
      with (cnt + Z.succ (Z.of_nat (List.length l))) by lia.
    reflexivity.
Qed.

Lemma digits_loop_spec fuel : forall n acc,
  0 <= n < 10 ^ Z.of_nat (S fuel) ->
  exists ds, digits_loop (S fuel) n acc = ds ++ acc /\
             forallb is_digit ds = true /\ digits_value ds = n /\ ds <> [].
Proof.
  induction fuel as [|fuel IH]; intros n acc Hn.
  - change (10 ^ Z.of_nat 1) with 10 in Hn.
    exists [digit_char (n mod 10)].
    change (digits_loop 1 n acc)
      with (if n <? 10 then digit_char (n mod 10) :: acc
            else digit_char (n mod 10) :: acc).
    replace (n <? 10) with true by (symmetry; apply Z.ltb_lt; lia).
    rewrite Z.mod_small by lia.
    destruct (digit_char_spec n ltac:(lia)) as [H1 H2].
    repeat split.
    + apply forallb_single. exact H1.
    + rewrite digits_value_single. exact H2.
    + discriminate.
  - change (digits_loop (S (S fuel)) n acc)
      with (if n <? 10 then digit_char (n mod 10) :: acc
            else digits_loop (S fuel) (n / 10) (digit_char (n mod 10) :: acc)).
    pose proof (Z.mod_pos_bound n 10 ltac:(lia)) as Hm.
    destruct (digit_char_spec (n mod 10) ltac:(lia)) as [H1 H2].
    destruct (n <? 10) eqn:Hlt.
    + exists [digit_char (n mod 10)]. apply Z.ltb_lt in Hlt.
      repeat split.
      * apply forallb_single. exact H1.
      * rewrite digits_value_single, H2. apply Z.mod_small. lia.
      * discriminate.
    + apply Z.ltb_ge in Hlt.
      destruct (IH (n / 10) (digit_char (n mod 10) :: acc)) as (ds & Hds & Hall & Hval & Hne).
      { split; [apply Z.div_pos; lia|].
        apply Z.div_lt_upper_bound; [lia|].
        rewrite <- Z.pow_succ_r by lia. rewrite <- Nat2Z.inj_succ. lia. }
      exists (ds ++ [digit_char (n mod 10)]).
      repeat split.
      * rewrite Hds, <- app_assoc. reflexivity.
      * rewrite forallb_app, Hall, (forallb_single _ H1). reflexivity.
      * rewrite digits_value_app, Hval, digits_value_single, H2.
        cbn [List.length]. change (10 ^ Z.of_nat 1) with 10.
        pose proof (Z.div_mod n 10 ltac:(lia)). lia.
      * destruct ds; discriminate.
Qed.

Lemma decimal_digits_spec n :
  0 <= n ->
  forallb is_digit (decimal_digits n) = true /\
  digits_value (decimal_digits n) = n /\ decimal_digits n <> [].
Proof.
  intros Hn. unfold decimal_digits.
  destruct (digits_loop_spec (Z.to_nat (Z.log2 n)) n []) as (ds & Hds & Hall & Hval & Hne).
  - split; [assumption|].
    rewrite Nat2Z.inj_succ, Z2Nat.id by apply Z.log2_nonneg.
    destruct (Z.eq_dec n 0) as [->|Hn0].
    + simpl. lia.
    + pose proof (Z.log2_spec n ltac:(lia)) as [_ Hhi].
      apply Z.lt_le_trans with (1 := Hhi).
      apply Z.pow_le_mono_l. lia.
  - rewrite Hds, app_nil_r. auto.
Qed.

Lemma zeros_spec k :
  forallb is_digit (zeros k) = true /\ List.length (zeros k) = k /\
  forall l, digits_value (zeros k ++ l) = digits_value l.
Proof.
  induction k as [|k (H1 & H2 & H3)].
  - repeat split.
  - repeat split.
    + simpl. exact H1.
    + simpl. now rewrite H2.
    + intros l. simpl app. change ("0"%char :: zeros k ++ l) with (["0"%char] ++ (zeros k ++ l)).
      rewrite digits_value_app, H3. reflexivity.
Qed.

(** The digits that [toFixed] prints: with no decimals the digits of [n];
    otherwise digits, a point and exactly [f] digits, which together
    denote [n]. *)
Lemma fixed_digits_shape n f :
  0 <= n -> 0 <= f ->
  exists a b,
    fixed_digits n f = (if f =? 0 then a else a ++ "."%char :: b) /\
    forallb is_digit a = true /\ forallb is_digit b = true /\ a <> [] /\
    Z.of_nat (List.length b) = f /\ digits_value (a ++ b) = n.
Proof.
  intros Hn Hf.
  destruct (decimal_digits_spec n Hn) as (Hall & Hval & Hne).
  unfold fixed_digits.
  destruct (f =? 0) eqn:Hf0.
  - apply Z.eqb_eq in Hf0. subst f.
    exists (decimal_digits n), []. rewrite app_nil_r. repeat split; assumption.
  - apply Z.eqb_neq in Hf0.
    set (m := decimal_digits n) in *.
    set (k := Z.of_nat (List.length m)).
    set (m' := if k <=? f then zeros (Z.to_nat (f + 1 - k)) ++ m else m).
    assert (Hm' : forallb is_digit m' = true /\ digits_value m' = n /\
                  f + 1 <= Z.of_nat (List.length m')).
    { unfold m'. destruct (k <=? f) eqn:Hk.
      - apply Z.leb_le in Hk.
        destruct (zeros_spec (Z.to_nat (f + 1 - k))) as (Z1 & Z2 & Z3).
        repeat split.
        + rewrite forallb_app, Z1, Hall. reflexivity.
        + rewrite Z3. exact Hval.
        + rewrite length_app, Z2. fold k. unfold k. lia.
      - apply Z.leb_gt in Hk. repeat split; try assumption. fold k. lia. }
    destruct Hm' as (Hall' & Hval' & Hlen').
    set (k' := Z.of_nat (List.length m')) in *.
    set (a := firstn (Z.to_nat (k' - f)) m').
    set (b := skipn (Z.to_nat (k' - f)) m').
    assert (Hab : a ++ b = m') by apply firstn_skipn.
    assert (Hla : List.length a = Z.to_nat (k' - f)).
    { unfold a. rewrite length_firstn. unfold k'. lia. }
    assert (Hlb : Z.of_nat (List.length b) = f).
    { unfold b. rewrite length_skipn. unfold k' in *. lia. }
    assert (Halla : forallb is_digit a = true /\ forallb is_digit b = true).
    { rewrite <- Hab, forallb_app in Hall'. apply andb_true_iff in Hall'. exact Hall'. }
    destruct Halla as [Halla Hallb].
    exists a, b. repeat split; try assumption.
    + intros Ha. rewrite Ha in Hla. simpl in Hla. lia.
    + rewrite Hab. exact Hval'.
Qed.

Lemma unsigned_decimal_fixed neg n f :
  0 <= n -> 0 <= f ->
  unsigned_decimal neg (fixed_digits n f) = of_decimal neg n (- f).
Proof.
  intros Hn Hf.
  destruct (fixed_digits_shape n f Hn Hf) as (a & b & Heq & Ha & Hb & Hne & Hlb & Hval).
  rewrite Heq. unfold unsigned_decimal.
  destruct (f =? 0) eqn:Hf0.
  - apply Z.eqb_eq in Hf0. subst f.
    assert (b = []) by (destruct b; [reflexivity|simpl in Hlb; lia]). subst b.
    rewrite app_nil_r in Hval.
    rewrite <- (app_nil_r a) at 1.
    rewrite scan_digits_app by (try assumption; exact I).
    rewrite Hval. simpl exponent_part.
    replace (0 <? 0 + Z.of_nat (List.length a) + 0) with true.
    + f_equal; lia.
    + symmetry. apply Z.ltb_lt. destruct a; [contradiction|].
      cbn [List.length]. lia.
  - rewrite scan_digits_app by (try assumption; reflexivity).
    cbv iota beta.
    rewrite <- (app_nil_r b) at 1.
    rewrite scan_digits_app by (try assumption; exact I).
    simpl exponent_part.
    replace (0 <? 0 + Z.of_nat (List.length a) + (0 + Z.of_nat (List.length b))) with true
      by (symmetry; apply Z.ltb_lt; lia).
    f_equal; [rewrite <- Hval, digits_value_app|]; lia.
Qed.

(** *** [Number] on a printed number *)

Lemma digit_not_space c : is_digit c = true -> no_space_byte c = true.
Proof.
  destruct c as [[] [] [] [] [] [] [] []]; intros H; vm_compute in H;
    try discriminate H; reflexivity.
Qed.

Lemma is_space2_bytes c1 c2 :
  is_space2 c1 c2 = true -> (128 <= nat_of_ascii c1 /\ 128 <= nat_of_ascii c2)%nat.
Proof.
  unfold is_space2. intros H. apply andb_true_iff in H. destruct H as [H1 H2].
  apply Nat.eqb_eq in H1, H2. rewrite H1, H2. split; repeat constructor.
Qed.

Lemma is_space3_bytes c1 c2 c3 :
  is_space3 c1 c2 c3 = true -> (128 <= nat_of_ascii c1 /\ 128 <= nat_of_ascii c3)%nat.
Proof.
  unfold is_space3. cbv zeta. intros H.
  repeat match type of H with
         | (_ || _) = true => apply orb_true_iff in H; destruct H as [H|H]
         end;
    repeat match goal with
           | H0 : (_ && _) = true |- _ =>
               apply andb_true_iff in H0; destruct H0 as [H0 ?]
           end;
    repeat match goal with
           | H0 : (_ =? _)%nat = true |- _ => apply Nat.eqb_eq in H0
           | H0 : (_ <=? _)%nat = true |- _ => apply Nat.leb_le in H0
           | H0 : (_ || _) = true |- _ => apply orb_true_iff in H0; destruct H0 as [H0|H0]
           | H0 : (_ && _) = true |- _ => apply andb_true_iff in H0; destruct H0 as [H0 ?]
           end; lia.
Qed.

Lemma no_space_byte_spec c :
  no_space_byte c = true -> is_space c = false /\ (nat_of_ascii c < 128)%nat.
Proof.
  unfold no_space_byte. intros H. apply andb_true_iff in H. destruct H as [H1 H2].
  apply negb_true_iff in H1. apply Nat.ltb_lt in H2. auto.
Qed.

Lemma trim_left_head c l : no_space_byte c = true -> trim_left (c :: l) = c :: l.
Proof.
  intros H. apply no_space_byte_spec in H. destruct H as [Hs Hb].
  cbn [trim_left]. rewrite Hs.
  destruct l as [|c2 l2]; [reflexivity|].
  destruct (is_space2 c c2) eqn:E2; [apply is_space2_bytes in E2; lia|].
  destruct l2 as [|c3 l3]; [reflexivity|].
  destruct (is_space3 c c2 c3) eqn:E3; [apply is_space3_bytes in E3; lia|].
  reflexivity.
Qed.

Lemma trim_left_reversed_head c l :
  no_space_byte c = true -> trim_left_reversed (c :: l) = c :: l.
Proof.
  intros H. apply no_space_byte_spec in H. destruct H as [Hs Hb].
  cbn [trim_left_reversed]. rewrite Hs.
  destruct l as [|c2 l2]; [reflexivity|].
  destruct (is_space2 c2 c) eqn:E2; [apply is_space2_bytes in E2; lia|].
  destruct l2 as [|c3 l3]; [reflexivity|].
  destruct (is_space3 c3 c2 c) eqn:E3; [apply is_space3_bytes in E3; lia|].
  reflexivity.
Qed.

Lemma trim_no_space l :
  forallb no_space_byte l = true -> trim l = l.
Proof.
  intros H. unfold trim.
  assert (Hl : trim_left l = l).
  { destruct l as [|c l']; [reflexivity|].
    cbn [forallb] in H. apply andb_true_iff in H. destruct H as [Hc _].
    now apply trim_left_head. }
  rewrite Hl.
  assert (Hr : trim_left_reversed (rev l) = rev l).
  { assert (Hrev : forallb no_space_byte (rev l) = true).
    { rewrite forallb_forall in *. intros c Hc. apply H. apply in_rev. exact Hc. }
    destruct (rev l) as [|c l']; [reflexivity|].
    cbn [forallb] in Hrev. apply andb_true_iff in Hrev. destruct Hrev as [Hc _].
    now apply trim_left_reversed_head. }
  rewrite Hr. apply rev_involutive.
Qed.

Lemma digits_no_space l :
  forallb is_digit l = true -> forallb no_space_byte l = true.
Proof.
  rewrite !forallb_forall. intros H c Hc.
  apply digit_not_space, H, Hc.
Qed.

Lemma Number_literal_minus t : Number_literal ("-"%char :: t) = signed_decimal true t.
Proof. reflexivity. Qed.

(** What may follow the first digit of a printed number. *)
Lemma Number_literal_digit c t :
  is_digit c = true ->
  match t with
  | c2 :: _ => is_digit c2 = true \/ c2 = "."%char \/ c2 = "e"%char
  | [] => True
  end ->
  Number_literal (c :: t) = signed_decimal false (c :: t).
Proof.
  intros Hc Ht.
  destruct c as [[] [] [] [] [] [] [] []]; vm_compute in Hc; try discriminate Hc;
    try reflexivity.
  destruct t as [|c2 t']; [reflexivity|].
  destruct c2 as [[] [] [] [] [] [] [] []]; try reflexivity;
    exfalso; destruct Ht as [H|[H|H]]; vm_compute in H; discriminate H.
Qed.

Lemma signed_decimal_digit neg c t :
  is_digit c = true -> signed_decimal neg (c :: t) = unsigned_decimal neg (c :: t).
Proof.
  intros Hc. unfold signed_decimal.
  destruct (list_eq_dec ascii_dec (c :: t) Infinity_literal) as [Heq|Hne];
    [|reflexivity].
  exfalso. injection Heq as Hh _. subst c. vm_compute in Hc. discriminate Hc.
Qed.

Lemma fixed_digits_head n f :
  0 <= n -> 0 <= f ->
  exists c t,
    fixed_digits n f = c :: t /\ is_digit c = true /\
    match t with
    | c2 :: _ => is_digit c2 = true \/ c2 = "."%char \/ c2 = "e"%char
    | [] => True
    end /\
    forallb no_space_byte (c :: t) = true.
Proof.
  intros Hn Hf.
  destruct (fixed_digits_shape n f Hn Hf) as (a & b & Heq & Ha & Hb & Hne & _ & _).
  destruct a as [|c a']; [contradiction|].
  pose proof Ha as Ha0.
  cbn [forallb] in Ha. apply andb_true_iff in Ha. destruct Ha as [Hc Ha'].
  assert (Hns : forallb no_space_byte
                  (if f =? 0 then c :: a' else (c :: a') ++ "."%char :: b) = true).
  { destruct (f =? 0); [apply digits_no_space; exact Ha0|].
    rewrite forallb_app. rewrite (digits_no_space _ Ha0).
    cbn [forallb]. rewrite (digits_no_space _ Hb). reflexivity. }
  rewrite <- Heq in Hns.
  destruct (f =? 0).
  - exists c, a'. rewrite Heq in *. repeat split; try assumption.
    destruct a' as [|c2 a'']; [exact I|]. left.
    cbn [forallb] in Ha'. apply andb_true_iff in Ha'. apply Ha'.
  - exists c, (a' ++ "."%char :: b). rewrite Heq in *. repeat split; try assumption.
    destruct a' as [|c2 a'']; cbn [app].
    + right. left. reflexivity.
    + left. cbn [forallb] in Ha'. apply andb_true_iff in Ha'. apply Ha'.
Qed.

(** [Number] reads the string that [toFixed] prints for the integer [n]
    with [f] decimals as the binary64 value nearest to [n / 10 ^ f]. *)
Lemma Number_fixed (neg : bool) n f :
  0 <= n -> 0 <= f ->
  Number (string_of_list_ascii ((if neg then ["-"%char] else []) ++ fixed_digits n f))
  = of_decimal neg n (- f).
Proof.
  intros Hn Hf.
  destruct (fixed_digits_head n f Hn Hf) as (c & t & Heq & Hc & Ht & Hns).
  unfold Number. rewrite list_ascii_of_string_of_list_ascii.
  rewrite trim_no_space.
  - destruct neg; cbn [app].
    + rewrite Number_literal_minus, Heq, signed_decimal_digit by assumption.
      rewrite <- Heq. apply unsigned_decimal_fixed; assumption.
    + rewrite Heq, Number_literal_digit, signed_decimal_digit by assumption.
      rewrite <- Heq. apply unsigned_decimal_fixed; assumption.
  - rewrite Heq. destruct neg; cbn [app]; [|exact Hns].
    cbn [forallb] in Hns |- *. rewrite Hns. reflexivity.
Qed.

(** *** The sign of a rounded result *)

Lemma binary_round_aux_with_sign s M E l :
  binary_round_aux prec emax s M E l
  = match binary_round_aux prec emax false M E l with
    | S754_nan => S754_nan
    | r => with_sign s r
    end.
Proof.
  unfold binary_round_aux.
  destruct (shr_fexp prec emax M E l) as [mrs1 e1].
  destruct (shr_fexp prec emax _ e1 loc_Exact) as [mrs2 e2].
  destruct (shr_m mrs2); try reflexivity.
  destruct (Z.leb e2 (Z.sub emax prec)); reflexivity.
Qed.

Lemma of_ratio_with_sign s n d x :
  of_ratio false n d = x -> x <> S754_nan -> of_ratio s n d = with_sign s x.
Proof.
  intros Hx Hnan. unfold of_ratio in *.
  destruct n as [|n|n]; destruct d as [|d|d]; try congruence;
    try (subst x; reflexivity).
  destruct (SFdiv_core_binary prec emax (Zpos n) 0 (Zpos d) 0) as [[q e] l].
  rewrite binary_round_aux_with_sign, Hx.
  destruct x; reflexivity.
Qed.

(** *** A quotient below [2 ^ B] does not overflow *)

Lemma of_ratio_finite neg n d B :
  0 <= n -> 0 < d -> n < d * 2 ^ B -> 0 <= B <= 1000 ->
  isFinite (of_ratio neg n d) = true.
Proof.
  intros Hn Hd Hlt HB. unfold of_ratio.
  destruct n as [|n|n]; destruct d as [|d|d]; try lia; try reflexivity.
  rewrite SFdiv_core_binary_spec by lia.
  pose proof (SFdiv_core_binary_enough (Zpos n) 0 (Zpos d) 0 ltac:(lia) ltac:(lia))
    as [Hq Hc].
  cbv zeta in Hq, Hc.
  set (e' := Z.min (fexp64 (Zdigits2 (Zpos n) + 0 - (Zdigits2 (Zpos d) + 0))) (0 - 0)) in *.
  set (q := Zpos n * 2 ^ (0 - 0 - e') / Zpos d) in *.
  assert (He' : e' <= 0) by (unfold e'; lia).
  destruct (binary_round_aux_ulps neg q e' (new_location (Zpos d) (Zpos n * 2 ^ (0 - 0 - e') mod Zpos d)) Hq Hc)
    as (m2 & M1 & _ & _ & _ & _ & _ & [[_ Hinf]|[Hfin _]]); [|exact Hfin].
  exfalso.
  assert (Hp : 0 < 2 ^ (0 - 0 - e')) by (apply Z.pow_pos_nonneg; lia).
  assert (HpB : 0 < 2 ^ B) by (apply Z.pow_pos_nonneg; lia).
  assert (Hqlt : q < 2 ^ (B - e')).
  { unfold q. apply Z.div_lt_upper_bound; [lia|].
    replace (B - e') with (B + (0 - 0 - e')) by lia.
    rewrite Z.pow_add_r by lia. nia. }
  assert (Hdq : Zdigits2 q + e' <= B).
  { destruct (Z.eq_dec q 0) as [->|Hq0]; [simpl; lia|].
    pose proof (Zdigits2_lt_pow2 q (B - e') ltac:(lia) ltac:(lia) Hqlt). lia. }
  unfold cexp, fexp64 in Hinf. lia.
Qed.

Lemma of_decimal_finite neg n f :
  0 <= n -> 0 <= f -> n < 10 ^ f * 2 ^ 70 ->
  isFinite (of_decimal neg n (- f)) = true.
Proof.
  intros Hn Hf Hlt. unfold of_decimal.
  assert (Hp : 0 < 10 ^ f) by (apply Z.pow_pos_nonneg; lia).
  destruct (0 <=? - f) eqn:H0.
  - apply Z.leb_le in H0. assert (f = 0) by lia. subst f.
    change (10 ^ (- 0)) with 1. change (10 ^ 0) with 1 in Hlt.
    apply (of_ratio_finite neg _ 1 70); lia.
  - rewrite Z.opp_involutive. apply (of_ratio_finite neg n (10 ^ f) 70); lia.
Qed.

(** The integer that [toFixed] prints is not negative and, for a number
    below [10 ^ 21], below [10 ^ f * 2 ^ 70]. *)
Lemma fixed_integer_bound m e f :
  0 <= f -> Z.shiftl (Zpos m) e < 10 ^ 21 ->
  0 <= fixed_integer m e f < 10 ^ f * 2 ^ 70.
Proof.
  intros Hf HX. unfold fixed_integer.
  assert (Hp : 0 < 10 ^ f) by (apply Z.pow_pos_nonneg; lia).
  assert (H21 : 10 ^ 21 < 2 ^ 70) by reflexivity.
  destruct (0 <=? e) eqn:He.
  - apply Z.leb_le in He.
    rewrite Z.shiftl_mul_pow2 in * by lia.
    assert (0 < 2 ^ e) by (apply Z.pow_pos_nonneg; lia).
    replace (Zpos m * 10 ^ f * 2 ^ e) with (10 ^ f * (Zpos m * 2 ^ e)) by ring.
    split; [nia|]. apply Z.mul_lt_mono_pos_l; lia.
  - apply Z.leb_gt in He.
    set (k := - e). assert (Hk : 0 < k) by (unfold k; lia).
    replace e with (- k) in HX by (unfold k; lia).
    rewrite Z.shiftl_opp_r, Z.shiftr_div_pow2 in HX by lia.
    rewrite Z.shiftl_mul_pow2, Z.shiftr_div_pow2, Z.mul_1_l by lia.
    assert (Hpk : 0 < 2 ^ k) by (apply Z.pow_pos_nonneg; lia).
    assert (Hpk1 : 2 ^ (k + 1) = 2 * 2 ^ k) by (rewrite Z.pow_add_r, Z.pow_1_r by lia; lia).
    rewrite Hpk1.
    assert (Hm : Zpos m < 10 ^ 21 * 2 ^ k).
    { destruct (Z_lt_le_dec (Zpos m) (10 ^ 21 * 2 ^ k)) as [|Hge]; [assumption|].
      exfalso. assert (10 ^ 21 <= Zpos m / 2 ^ k) by (apply Z.div_le_lower_bound; lia).
      lia. }
    split.
    + apply Z.div_pos; lia.
    + apply Z.div_lt_upper_bound; [lia|].
      remember (10 ^ f) as F. remember (2 ^ k) as K.
      remember (10 ^ 21) as T. remember (2 ^ 70) as S70.
      assert (Zpos m * F < T * K * F) by (apply Z.mul_lt_mono_pos_r; lia).
      nia.
Qed.

(** *** Numbers from [10 ^ 21] on: the shortest decimal that reads back *)

Lemma strict_eq_finite x s m e :
  strict_eq x (S754_finite s m e) = true -> x = S754_finite s m e.
Proof.
  unfold strict_eq, SFeqb. intros H.
  destruct (SFcompare x (S754_finite s m e)) as [[| |]|] eqn:Hc; try discriminate.
  apply SFcompare_Eq_finite in Hc. exact Hc.
Qed.

Lemma shortest_decimal_spec m e X D fuel : forall k,
  of_decimal false X 0 = S754_finite false m e ->
  k + Z.of_nat fuel = D + 1 -> 1 <= k ->
  let '(c0, p0) := shortest_decimal fuel k (S754_finite false m e) X D in
  0 <= p0 /\ of_decimal false c0 p0 = S754_finite false m e.
Proof.
  induction fuel as [|fuel IH]; intros k HX Hk Hk1.
  - simpl. split; [lia|exact HX].
  - cbn [shortest_decimal]. cbv zeta.
    assert (Hp : 0 <= D - k) by lia.
    destruct (strict_eq (of_decimal false (X / 10 ^ (D - k)) (D - k))
                (S754_finite false m e)) eqn:Hlo;
      destruct (strict_eq (of_decimal false (X / 10 ^ (D - k) + 1) (D - k))
                  (S754_finite false m e)) eqn:Hhi;
      cbn [andb orb negb];
      try (destruct (match X - X / 10 ^ (D - k) * 10 ^ (D - k)
                           ?= (X / 10 ^ (D - k) + 1) * 10 ^ (D - k) - X with
                     | Eq => Z.even (X / 10 ^ (D - k))
                     | Lt => true
                     | Gt => false
                     end));
      cbn [andb orb negb];
      try (split; [exact Hp|apply strict_eq_finite; assumption]).
    all: apply IH; [exact HX|lia|lia].
Qed.

Lemma strip_zeros_spec fuel : forall c p,
  0 < c -> 0 <= p ->
  let '(c', p') := strip_zeros fuel c p in
  0 < c' /\ 0 <= p' /\ c' * 10 ^ p' = c * 10 ^ p.
Proof.
  induction fuel as [|fuel IH]; intros c p Hc Hp.
  - simpl. repeat split; lia.
  - cbn [strip_zeros].
    destruct ((c mod 10 =? 0) && (0 <? c)) eqn:Hz.
    + apply andb_true_iff in Hz. destruct Hz as [Hz _]. apply Z.eqb_eq in Hz.
      pose proof (Z.div_mod c 10 ltac:(lia)) as Hd.
      specialize (IH (c / 10) (p + 1) ltac:(lia) ltac:(lia)).
      destruct (strip_zeros fuel (c / 10) (p + 1)) as [c' p'].
      destruct IH as (H1 & H2 & H3). repeat split; try assumption.
      rewrite H3, Z.pow_add_r, Z.pow_1_r by lia.
      replace c with (10 * (c / 10)) at 2 by lia. ring.
    + repeat split; lia.
Qed.

Lemma of_decimal_nonneg_exp neg c p :
  0 <= p -> of_decimal neg c p = of_ratio neg (c * 10 ^ p) 1.
Proof.
  intros Hp. unfold of_decimal.
  now replace (0 <=? p) with true by (symmetry; apply Z.leb_le; lia).
Qed.

(** A number that is an integer is the nearest binary64 value to that
    integer. *)
Lemma of_ratio_integer s m e :
  valid (S754_finite s m e) -> 0 <= e ->
  of_ratio s (Zpos m * 2 ^ e) 1 = S754_finite s m e.
Proof.
  intros Hv He.
  pose proof (valid_bounds s m e Hv) as (Hc & Heb & Hd).
  assert (Hpe : 0 < 2 ^ e) by (apply Z.pow_pos_nonneg; lia).
  assert (HX : 0 < Zpos m * 2 ^ e) by nia.
  unfold of_ratio.
  destruct (Zpos m * 2 ^ e) as [|X|X] eqn:EX; try lia. rewrite <- EX.
  rewrite SFdiv_core_binary_spec by lia.
  rewrite Zdigits2_mul_pow2 by lia.
  change (Zdigits2 1) with 1.
  set (e' := Z.min (fexp64 (Zdigits2 (Zpos m) + e + 0 - (1 + 0))) (0 - 0)).
  assert (He' : e' <= 0 /\ e' <= e) by (unfold e'; lia).
  rewrite Z.div_1_r, Z.mod_1_r, new_location_0.
  set (t := e + (0 - 0 - e')).
  replace (Zpos m * 2 ^ e * 2 ^ (0 - 0 - e')) with (Zpos m * 2 ^ t)
    by (unfold t; rewrite Z.pow_add_r by lia; ring).
  assert (Ht : 0 <= t) by (unfold t; lia).
  assert (Hpt : 0 < 2 ^ t) by (apply Z.pow_pos_nonneg; lia).
  assert (Hcx : cexp (Zpos m * 2 ^ t) e' = e).
  { unfold cexp. rewrite Zdigits2_mul_pow2 by lia.
    replace (Zdigits2 (Zpos m) + t + e') with (Zdigits2 (Zpos m) + e) by (unfold t; lia).
    exact Hc. }
  assert (Hdiv : (2 ^ (e - e') | Zpos m * 2 ^ t)).
  { exists (Zpos m). unfold t. f_equal; f_equal; lia. }
  rewrite binary_round_aux_exact by (rewrite ?Hcx; (assumption || lia || nia)).
  replace e' with (e - t) by (unfold t; lia).
  rewrite canon_shift by lia. symmetry. apply valid_canon. exact Hv.
Qed.

Lemma exponent_part_plus ex :
  exponent_part ("e"%char :: "+"%char :: ex)
  = match scan_digits 0 0 ex with
    | (v, cnt, []) => if 0 <? cnt then Some v else None
    | _ => None
    end.
Proof.
  unfold exponent_part. cbn [Ascii.eqb Bool.eqb orb andb].
  destruct (scan_digits 0 0 ex) as [[v cnt] [|c r]]; [|reflexivity].
  destruct (0 <? cnt); reflexivity.
Qed.

Lemma exponent_part_digits n :
  0 <= n ->
  exponent_part ("e"%char :: "+"%char :: decimal_digits n) = Some n.
Proof.
  intros Hn. destruct (decimal_digits_spec n Hn) as (Hall & Hval & Hne).
  rewrite exponent_part_plus.
  rewrite <- (app_nil_r (decimal_digits n)).
  rewrite scan_digits_app by (try assumption; exact I).
  rewrite Hval.
  replace (0 <? 0 + Z.of_nat (List.length (decimal_digits n))) with true.
  - f_equal; lia.
  - symmetry. apply Z.ltb_lt. destruct (decimal_digits n); [contradiction|].
    cbn [List.length]. lia.
Qed.

(** The exponential notation of the decimal [c * 10 ^ p] reads back as the
    binary64 value nearest to it. *)
Lemma unsigned_decimal_exponential neg c p :
  0 < c -> 0 <= p ->
  let ds := decimal_digits c in
  let n := Z.of_nat (List.length ds) + p in
  unsigned_decimal neg
    match ds with
    | [] => []
    | d :: [] => d :: "e"%char :: "+"%char :: decimal_digits (n - 1)
    | d :: rest => d :: "."%char :: rest ++ "e"%char :: "+"%char :: decimal_digits (n - 1)
    end
  = of_decimal neg c p.
Proof.
  intros Hc Hp ds n.
  destruct (decimal_digits_spec c ltac:(lia)) as (Hall & Hval & Hne).
  fold ds in Hall, Hval, Hne.
  assert (Hn : 0 <= n - 1).
  { unfold n. destruct ds; [contradiction|]. cbn [List.length]. lia. }
  destruct ds as [|d rest] eqn:Eds; [contradiction|].
  cbn [forallb] in Hall. apply andb_true_iff in Hall. destruct Hall as [Hd Hrest].
  assert (Hd1 : forallb is_digit [d] = true) by (apply forallb_single; exact Hd).
  destruct rest as [|r rest'].
  - unfold unsigned_decimal.
    change (d :: "e"%char :: "+"%char :: decimal_digits (n - 1))
      with ([d] ++ "e"%char :: "+"%char :: decimal_digits (n - 1)).
    rewrite scan_digits_app by (try assumption; reflexivity).
    cbv iota beta. rewrite exponent_part_digits by assumption.
    cbn [List.length].
    replace (0 <? 0 + Z.of_nat 1 + 0) with true by reflexivity.
    rewrite digits_value_single. rewrite digits_value_single in Hval.
    f_equal; unfold n; cbn [List.length]; lia.
  - unfold unsigned_decimal.
    change (d :: "."%char :: (r :: rest') ++ "e"%char :: "+"%char :: decimal_digits (n - 1))
      with ([d] ++ "."%char :: (r :: rest') ++ "e"%char :: "+"%char :: decimal_digits (n - 1)).
    rewrite scan_digits_app by (try assumption; reflexivity).
    cbv iota beta.
    rewrite scan_digits_app by (try assumption; reflexivity).
    rewrite exponent_part_digits by assumption.
    replace (0 <? 0 + Z.of_nat (List.length [d]) + (0 + Z.of_nat (List.length (r :: rest'))))
      with true by (symmetry; apply Z.ltb_lt; cbn [List.length]; lia).
    change (d :: r :: rest') with ([d] ++ r :: rest') in Hval.
    rewrite digits_value_app in Hval.
    f_equal; unfold n; cbn [List.length] in *; lia.
Qed.

Lemma exponential_digits_head c p :
  0 < c -> 0 <= p ->
  exists d t,
    exponential_digits c p = d :: t /\ is_digit d = true /\
    match t with
    | c2 :: _ => is_digit c2 = true \/ c2 = "."%char \/ c2 = "e"%char
    | [] => True
    end /\
    forallb no_space_byte (d :: t) = true.
Proof.
  intros Hc Hp. unfold exponential_digits.
  destruct (decimal_digits_spec c ltac:(lia)) as (Hall & _ & Hne).
  set (n := Z.of_nat (List.length (decimal_digits c)) + p).
  assert (Hn : 0 <= n - 1).
  { unfold n. destruct (decimal_digits c); [contradiction|]. cbn [List.length]. lia. }
  destruct (decimal_digits_spec (n - 1) Hn) as (Hex & _ & _).
  apply digits_no_space in Hex.
  destruct (decimal_digits c) as [|d rest]; [contradiction|].
  pose proof (digits_no_space _ Hall) as Hns.
  cbn [forallb] in Hall, Hns.
  apply andb_true_iff in Hall. destruct Hall as [Hd Hrest].
  apply andb_true_iff in Hns. destruct Hns as [Hnd Hnrest].
  destruct rest as [|r rest'].
  - eexists. eexists. split; [reflexivity|]. split; [exact Hd|]. split.
    + right. right. reflexivity.
    + cbn [forallb]. rewrite Hnd, Hex. reflexivity.
  - eexists. eexists. split; [reflexivity|]. split; [exact Hd|]. split.
    + right. left. reflexivity.
    + cbn [forallb]. rewrite Hnd. cbn [andb negb].
      change (no_space_byte "."%char) with true. cbn [andb].
      change (no_space_byte r && forallb no_space_byte
                (rest' ++ "e"%char :: "+"%char :: decimal_digits (n - 1)))
        with (forallb no_space_byte
                ((r :: rest') ++ "e"%char :: "+"%char :: decimal_digits (n - 1))).
      rewrite forallb_app, Hnrest. cbn [forallb]. rewrite Hex. reflexivity.
Qed.

Lemma Number_exponential (neg : bool) c p :
  0 < c -> 0 <= p ->
  Number (string_of_list_ascii ((if neg then ["-"%char] else []) ++ exponential_digits c p))
  = of_decimal neg c p.
Proof.
  intros Hc Hp.
  destruct (exponential_digits_head c p Hc Hp) as (d & t & Heq & Hd & Ht & Hns).
  unfold Number. rewrite list_ascii_of_string_of_list_ascii.
  rewrite trim_no_space.
  - destruct neg; cbn [app].
    + rewrite Number_literal_minus, Heq, signed_decimal_digit by assumption.
      rewrite <- Heq. apply unsigned_decimal_exponential; assumption.
    + rewrite Heq, Number_literal_digit, signed_decimal_digit by assumption.
      rewrite <- Heq. apply unsigned_decimal_exponential; assumption.
  - rewrite Heq. destruct neg; cbn [app]; [|exact Hns].
    cbn [forallb] in Hns |- *. rewrite Hns. reflexivity.
Qed.

Lemma toString_large_eq m e :
  toString_large m e =
  let X := Z.shiftl (Zpos m) e in
  let D := Z.of_nat (List.length (decimal_digits X)) in
  let '(c0, p0) := shortest_decimal (Z.to_nat D) 1 (S754_finite false m e) X D in
  let '(c, p) := strip_zeros (Z.to_nat D) c0 p0 in
  exponential_digits c p.
Proof. reflexivity. Qed.

(** A number from [10 ^ 21] on is printed by [toFixed] in a notation that
    [Number] reads back as the same number. *)
Lemma Number_toString_large s m e :
  valid (S754_finite s m e) -> 10 ^ 21 <= Z.shiftl (Zpos m) e ->
  Number (string_of_list_ascii ((if s then ["-"%char] else []) ++ toString_large m e))
  = S754_finite s m e.
Proof.
  intros Hv HX.
  pose proof (valid_bounds s m e Hv) as (_ & Heb & Hd).
  assert (Hm : Zpos m < 2 ^ 53).
  { pose proof (Zdigits2_bounds (Zpos m) ltac:(lia)) as [_ Hhi].
    apply Z.lt_le_trans with (1 := Hhi). apply Z.pow_le_mono_r; lia. }
  assert (He : 0 < e).
  { destruct (Z_lt_le_dec 0 e) as [|Hle]; [assumption|]. exfalso.
    assert (Z.shiftl (Zpos m) e <= Zpos m).
    { replace e with (- (- e)) by lia.
      rewrite Z.shiftl_opp_r, Z.shiftr_div_pow2 by lia.
      apply Z.div_le_upper_bound; [apply Z.pow_pos_nonneg; lia|].
      assert (1 <= 2 ^ (- e)) by (apply (Z.pow_le_mono_r 2 0); lia). nia. }
    assert (2 ^ 53 < 10 ^ 21) by reflexivity. lia. }
  rewrite toString_large_eq. cbv zeta.
  rewrite Z.shiftl_mul_pow2 in * by lia.
  set (X := Zpos m * 2 ^ e) in *.
  set (D := Z.of_nat (List.length (decimal_digits X))).
  assert (Hvf : valid (S754_finite false m e)) by exact Hv.
  assert (HXx : of_decimal false X 0 = S754_finite false m e).
  { rewrite of_decimal_nonneg_exp by lia. rewrite Z.pow_0_r, Z.mul_1_r.
    apply of_ratio_integer; [exact Hvf|lia]. }
  pose proof (shortest_decimal_spec m e X D (Z.to_nat D) 1 HXx ltac:(unfold D; lia)
                ltac:(lia)) as Hsh.
  destruct (shortest_decimal (Z.to_nat D) 1 (S754_finite false m e) X D) as [c0 p0].
  destruct Hsh as [Hp0 Hc0].
  assert (Hc0pos : 0 < c0).
  { destruct (Z_lt_le_dec 0 c0) as [|Hle]; [assumption|]. exfalso.
    rewrite of_decimal_nonneg_exp in Hc0 by assumption.
    assert (Hp : 0 < 10 ^ p0) by (apply Z.pow_pos_nonneg; lia).
    unfold of_ratio in Hc0.
    destruct (c0 * 10 ^ p0) as [|q|q] eqn:Eq; try discriminate. nia. }
  pose proof (strip_zeros_spec (Z.to_nat D) c0 p0 Hc0pos Hp0) as Hst.
  destruct (strip_zeros (Z.to_nat D) c0 p0) as [c p].
  destruct Hst as (Hcpos & Hp & Hcp).
  rewrite Number_exponential by assumption.
  rewrite of_decimal_nonneg_exp in * by assumption.
  rewrite Hcp.
  rewrite (of_ratio_with_sign s _ _ _ Hc0) by discriminate. reflexivity.
Qed.

(** * What the rounding helper returns *)

Lemma toFixed_eq x dp f :
  ToIntegerOrInfinity dp = Some f -> 0 <= f <= 100 ->
  toFixed x dp =
  Normal match x with
         | S754_nan => "NaN"%string
         | S754_infinity false => "Infinity"%string
         | S754_infinity true => "-Infinity"%string
         | S754_zero _ => string_of_list_ascii (fixed_digits 0 f)
         | S754_finite s m e =>
             let sg := if s then ["-"%char] else [] in
             if 10 ^ 21 <=? Z.shiftl (Zpos m) e
             then string_of_list_ascii (sg ++ toString_large m e)
             else string_of_list_ascii (sg ++ fixed_digits (fixed_integer m e f) f)
         end.
Proof.
  intros Hf Hr. unfold toFixed. rewrite Hf.
  replace ((f <? 0) || (100 <? f)) with false; [reflexivity|].
  symmetry. apply orb_false_iff. split; apply Z.ltb_ge; lia.
Qed.

(** [round(v, dp)] of a finite number: the number itself from [10 ^ 21]
    on, and otherwise the binary64 value nearest to [n / 10 ^ f], where [n]
    is the integer nearest to [|v| * 10 ^ f] (the larger of two). *)
Lemma round_finite s m e dp f :
  valid (S754_finite s m e) ->
  ToIntegerOrInfinity dp = Some f -> 0 <= f <= 100 ->
  round (S754_finite s m e) dp =
  Normal (if 10 ^ 21 <=? Z.shiftl (Zpos m) e then S754_finite s m e
          else of_decimal s (fixed_integer m e f) (- f)).
Proof.
  intros Hv Hf Hr. unfold round. simpl isFinite. cbv iota.
  rewrite (toFixed_eq _ dp f Hf Hr). cbn [bind]. cbv zeta.
  destruct (10 ^ 21 <=? Z.shiftl (Zpos m) e) eqn:Hbig.
  - apply Z.leb_le in Hbig. rewrite Number_toString_large by assumption. reflexivity.
  - apply Z.leb_gt in Hbig.
    pose proof (fixed_integer_bound m e f ltac:(lia) Hbig) as [Hn _].
    rewrite Number_fixed by lia. reflexivity.
Qed.

Lemma round_zero s dp f :
  ToIntegerOrInfinity dp = Some f -> 0 <= f <= 100 ->
  round (S754_zero s) dp = Normal zero.
Proof.
  intros Hf Hr. unfold round. simpl isFinite. cbv iota.
  rewrite (toFixed_eq _ dp f Hf Hr). cbn [bind].
  pose proof (Number_fixed false 0 f ltac:(lia) ltac:(lia)) as H.
  cbn [app] in H. rewrite H. f_equal.
  unfold of_decimal. assert (Hp : 0 < 10 ^ f) by (apply Z.pow_pos_nonneg; lia).
  destruct (0 <=? - f).
  - reflexivity.
  - rewrite Z.opp_involutive. unfold of_ratio.
    destruct (10 ^ f); try lia. reflexivity.
Qed.

Lemma round_is_finite v dp f :
  valid v -> ToIntegerOrInfinity dp = Some f -> 0 <= f <= 100 ->
  exists r, round v dp = Normal r /\ isFinite r = true /\ valid r.
Proof.
  intros Hv Hf Hr.
  destruct v as [s|s| |s m e].
  - exists zero. rewrite (round_zero s dp f Hf Hr). repeat split.
  - exists zero. split; [reflexivity|]. repeat split.
  - exists zero. split; [reflexivity|]. repeat split.
  - rewrite (round_finite s m e dp f Hv Hf Hr).
    eexists. split; [reflexivity|].
    destruct (10 ^ 21 <=? Z.shiftl (Zpos m) e) eqn:Hbig.
    + split; [reflexivity|exact Hv].
    + apply Z.leb_gt in Hbig.
      pose proof (fixed_integer_bound m e f ltac:(lia) Hbig) as [Hn Hlt].
      split; [apply of_decimal_finite; lia|apply of_decimal_valid].
Qed.

(** * The rounded outputs of the measurement converter *)

Lemma div_not_finite x s m e :
  isFinite x = false -> isFinite (div x (S754_finite s m e)) = false.
Proof. destruct x; try discriminate; reflexivity. Qed.

Lemma mmScaled_valid st :
  valid (scaleN st) -> valid (App.mmScaled st) /\ valid (ScaleConverter.mmScaled st).
Proof.
  intros Hs. split.
  - unfold App.mmScaled. destruct (negb (isFinite _)); [reflexivity|].
    apply div_valid; [|exact Hs].
    apply toMM_valid; [apply activeUnit_cases|apply Number_valid].
  - unfold ScaleConverter.mmScaled. apply div_valid.
    + apply toMM_valid; [apply activeUnit_cases|apply parsed_valid].
    + unfold clamp. apply Math_min_valid; [apply Math_max_valid|]; try assumption;
        reflexivity.
Qed.

Lemma outputs_finite mm dp denom f :
  valid mm -> valid denom -> ToIntegerOrInfinity dp = Some f -> 0 <= f <= 100 ->
  exists mo io,
    metricOut mm dp = Normal mo /\ imperialOut mm dp denom = Normal io /\
    isFinite (out_mm mo) = true /\ isFinite (out_cm mo) = true /\
    isFinite (out_m mo) = true /\ isFinite (out_in io) = true /\
    isFinite (out_ft io) = true /\
    (isFinite mm = false ->
     out_mm mo = zero /\ out_cm mo = zero /\ out_m mo = zero /\
     out_in io = zero /\ out_ft io = zero).
Proof.
  intros Hmm Hden Hf Hr.
  assert (Hc : forall c, valid c -> valid (div mm c))
    by (intros c Hcv; apply div_valid; assumption).
  assert (H10 : valid n10) by reflexivity.
  assert (H1000 : valid n1000) by reflexivity.
  assert (H254 : valid n25_4) by reflexivity.
  assert (H12 : valid n12) by reflexivity.
  assert (Hin : valid (div mm n25_4)) by (apply Hc; assumption).
  assert (Hft : valid (div (div mm n25_4) n12)) by (apply div_valid; assumption).
  destruct (round_is_finite mm dp f Hmm Hf Hr) as (a & Ha & Hfa & _).
  destruct (round_is_finite _ dp f (Hc n10 H10) Hf Hr) as (b & Hb & Hfb & _).
  destruct (round_is_finite _ dp f (Hc n1000 H1000) Hf Hr) as (c & Hcm & Hfc & _).
  destruct (round_is_finite _ dp f Hin Hf Hr) as (i & Hi & Hfi & _).
  destruct (round_is_finite _ dp f Hft Hf Hr) as (t & Ht & Hft' & _).
  destruct (inchesToFraction_total (Num (div mm n25_4)) denom) as [fr Hfr].
  { intros x Hx. injection Hx as <-. exact Hin. }
  { exact Hden. }
  exists (mkMetricOut a b c), (mkImperialOut i t fr).
  unfold metricOut, imperialOut. cbv zeta.
  rewrite Ha, Hb, Hcm, Hfr, Hi, Ht. cbn [bind].
  repeat (split; [first [reflexivity | assumption]|]).
  intros Hnf. cbn [out_mm out_cm out_m out_in out_ft].
  assert (Hnf1 : isFinite (div mm n25_4) = false) by (apply div_not_finite; exact Hnf).
  rewrite round_not_finite in Ha, Hb, Hcm, Hi, Ht
    by (try assumption; apply div_not_finite; assumption).
  injection Ha as <-. injection Hb as <-. injection Hcm as <-.
  injection Hi as <-. injection Ht as <-. repeat split.
Qed.

(** C10. [round] returns 0 for [NaN] and the infinities, whatever the
    precision; and for every state of the converter whose precision is
    within what [toFixed] accepts, the five rounded fields (mm, cm, m, in,
    ft) are finite numbers in both variants: they are 0 when the scaled
    millimetre value has overflowed, and the rounded value, which stays
    finite, otherwise. *)
Theorem C10_rounded_outputs_finite (st : Inputs) (f : Z) :
  (forall v dp, isFinite v = false -> round v dp = Normal zero) /\
  (valid (scaleN st) -> valid (inchDenom st) ->
   ToIntegerOrInfinity (decimals st) = Some f -> 0 <= f <= 100 ->
   forall mm, mm = App.mmScaled st \/ mm = ScaleConverter.mmScaled st ->
   exists mo io,
     metricOut mm (decimals st) = Normal mo /\
     imperialOut mm (decimals st) (inchDenom st) = Normal io /\
     isFinite (out_mm mo) = true /\ isFinite (out_cm mo) = true /\
     isFinite (out_m mo) = true /\ isFinite (out_in io) = true /\
     isFinite (out_ft io) = true /\
     (isFinite mm = false ->
      out_mm mo = zero /\ out_cm mo = zero /\ out_m mo = zero /\
      out_in io = zero /\ out_ft io = zero)).
Proof.
  split; [apply round_not_finite|].
  intros Hs Hd Hf Hr mm Hmm.
  destruct (mmScaled_valid st Hs) as [HA HS].
  apply (outputs_finite mm _ _ f); try assumption.
  destruct Hmm as [-> | ->]; assumption.
Qed.

Lemma C10_rounded_outputs_finite_witness :
  let st := mkInputs "metric" "m" "in" "1e308" n10 n16 (of_Z 3) in
  isFinite (App.mmScaled st) = false /\
  exists mo io,
    metricOut (App.mmScaled st) (decimals st) = Normal mo /\
    imperialOut (App.mmScaled st) (decimals st) (inchDenom st) = Normal io /\
    isFinite (out_mm mo) = true /\ isFinite (out_cm mo) = true /\
    isFinite (out_m mo) = true /\ isFinite (out_in io) = true /\
    isFinite (out_ft io) = true /\
    (isFinite (App.mmScaled st) = false ->
     out_mm mo = zero /\ out_cm mo = zero /\ out_m mo = zero /\
     out_in io = zero /\ out_ft io = zero).
Proof.
  intros st. split; [vm_compute; reflexivity|].
  apply (proj2 (C10_rounded_outputs_finite st 3)).
  - vm_compute. reflexivity.
  - vm_compute. reflexivity.
  - vm_compute. reflexivity.
  - lia.
  - left. reflexivity.
Defined.

(** * The error of one multiplication and of one division *)

Lemma mul_enough mx ex my ey :
  valid (S754_finite false mx ex) -> valid (S754_finite false my ey) ->
  ex + ey <= cexp (Zpos mx * Zpos my) (ex + ey).
Proof.
  intros Hx Hy.
  apply valid_bounds in Hx. apply valid_bounds in Hy.
  destruct Hx as (Hcx & Hex & Hdx). destruct Hy as (Hcy & Hey & Hdy).
  pose proof (Zdigits2_mul_ge (Zpos mx) (Zpos my) ltac:(lia) ltac:(lia)) as Hm.
  pose proof (Zdigits2_pos (Zpos mx) ltac:(lia)).
  pose proof (Zdigits2_pos (Zpos my) ltac:(lia)).
  unfold cexp, fexp64 in *.
  generalize dependent (Zdigits2 (Zpos mx * Zpos my)).
  generalize dependent (Zdigits2 (Zpos mx)).
  generalize dependent (Zdigits2 (Zpos my)). intros. lia.
Qed.

(** A product by a number [mc * 2 ^ ec] with [ec <= 0] is infinite, or it
    is within [T] units of [2 ^ -1074] of the exact product, where [T] is
    1 or at most [2 ^ -52] times the result. *)
Lemma mul_error sx mx ex sc mc ec :
  valid (S754_finite sx mx ex) -> valid (S754_finite sc mc ec) -> ec <= 0 ->
  let x := S754_finite sx mx ex in
  let r := mul x (S754_finite sc mc ec) in
  r = S754_infinity (xorb sx sc) \/
  (isFinite r = true /\ sign_bit r = xorb sx sc /\
   exists T, 1 <= T /\ (T = 1 \/ 2 ^ 52 * T <= ulps r) /\
     ulps r * 2 ^ (- ec) <= ulps x * Zpos mc + T * 2 ^ (- ec) /\
     ulps x * Zpos mc <= ulps r * 2 ^ (- ec) + T * 2 ^ (- ec)).
Proof.
  intros Hx Hc Hec x r.
  pose proof (valid_bounds _ _ _ Hx) as (_ & Hex & _).
  pose proof (mul_enough mx ex mc ec Hx Hc) as Hen.
  unfold r, x, mul, SFmul.
  change (Zpos (mx * mc)) with (Zpos mx * Zpos mc).
  change (Z.add ex ec) with (ex + ec).
  destruct (binary_round_aux_ulps (xorb sx sc) (Zpos mx * Zpos mc) (ex + ec) loc_Exact
              ltac:(lia) Hen)
    as (m2 & M1 & Hbr & Hm2 & HM1 & Hnorm & Hc0 & [[Hinf _]|(Hfin & Hsign & Hu)]).
  - left. exact Hinf.
  - right. split; [exact Hfin|]. split; [exact Hsign|].
    set (c := cexp (Zpos mx * Zpos mc) (ex + ec)) in *.
    exists (2 ^ (c + 1074)).
    assert (HT : 0 < 2 ^ (c + 1074)) by (apply Z.pow_pos_nonneg; lia).
    assert (HA : 0 < 2 ^ (- ec)) by (apply Z.pow_pos_nonneg; lia).
    assert (HW : 0 < 2 ^ (ex + 1074)) by (apply Z.pow_pos_nonneg; lia).
    split; [lia|]. split.
    { destruct Hnorm as [Hsub|Hn]; [left; rewrite Hsub; reflexivity|right].
      rewrite Hu. apply Z.mul_le_mono_nonneg_r; lia. }
    rewrite Hu. unfold ulps.
    assert (Hscale : 2 ^ (c - (ex + ec)) * 2 ^ (ex + 1074) = 2 ^ (c + 1074) * 2 ^ (- ec)).
    { rewrite <- !Z.pow_add_r by lia. f_equal; lia. }
    remember (2 ^ (c - (ex + ec))) as N.
    remember (2 ^ (ex + 1074)) as W.
    remember (2 ^ (c + 1074)) as T. remember (2 ^ (- ec)) as A.
    assert (H1 : M1 * (T * A) <= Zpos mx * W * Zpos mc).
    { rewrite <- Hscale. nia. }
    assert (H2 : Zpos mx * W * Zpos mc < (M1 + 1) * (T * A)).
    { rewrite <- Hscale. nia. }
    destruct Hm2 as [-> | ->]; nia.
Qed.

(** A quotient by a number [mc * 2 ^ ec >= 2] with [ec <= 0] is finite and
    within [T] units of the exact quotient. *)
Lemma div_error sx mx ex sc mc ec :
  valid (S754_finite sx mx ex) -> valid (S754_finite sc mc ec) ->
  ec <= 0 -> 2 ^ (1 - ec) <= Zpos mc ->
  let x := S754_finite sx mx ex in
  let r := div x (S754_finite sc mc ec) in
  isFinite r = true /\ sign_bit r = xorb sx sc /\
  exists T, 1 <= T /\ (T = 1 \/ 2 ^ 52 * T <= ulps r) /\
    ulps r * Zpos mc <= ulps x * 2 ^ (- ec) + T * Zpos mc /\
    ulps x * 2 ^ (- ec) <= ulps r * Zpos mc + T * Zpos mc.
Proof.
  intros Hx Hc Hec Hbig x r.
  pose proof (valid_bounds _ _ _ Hx) as (_ & Hex & Hdx).
  unfold r, x, div, SFdiv.
  rewrite SFdiv_core_binary_spec by lia.
  pose proof (SFdiv_core_binary_enough (Zpos mx) ex (Zpos mc) ec ltac:(lia) ltac:(lia))
    as [Hq Hen].
  cbv zeta in Hq, Hen.
  set (e' := Z.min (fexp64 (Zdigits2 (Zpos mx) + ex - (Zdigits2 (Zpos mc) + ec))) (ex - ec)) in *.
  set (m' := Zpos mx * 2 ^ (ex - ec - e')) in *.
  set (q := m' / Zpos mc) in *.
  assert (He' : -1074 <= e' <= ex - ec) by (unfold e', fexp64; lia).
  assert (Hs : 0 < 2 ^ (ex - ec - e')) by (apply Z.pow_pos_nonneg; lia).
  assert (Hm' : 0 < m') by (unfold m'; nia).
  pose proof (Z.div_mod m' (Zpos mc) ltac:(lia)) as Hdm. fold q in Hdm.
  pose proof (Z.mod_pos_bound m' (Zpos mc) ltac:(lia)) as Hmb.
  assert (Hdmc : 2 - ec <= Zdigits2 (Zpos mc)).
  { pose proof (Zdigits2_le (2 ^ (1 - ec)) (Zpos mc)
                  ltac:(apply Z.pow_pos_nonneg; lia) Hbig) as Hle.
    rewrite Zdigits2_pow2 in Hle by lia. lia. }
  assert (Hmag : Zdigits2 q + e' <= 1023).
  { destruct (Z.eq_dec q 0) as [Hq0|Hq0].
    - rewrite Hq0. simpl Zdigits2. unfold e', fexp64. lia.
    - assert (Hqm : q * Zpos mc <= m') by lia.
      pose proof (Zdigits2_mul_ge q (Zpos mc) ltac:(lia) ltac:(lia)) as Hge.
      pose proof (Zdigits2_le (q * Zpos mc) m' ltac:(nia) Hqm) as Hle.
      unfold m' in Hle. rewrite Zdigits2_mul_pow2 in Hle by lia. lia. }
  destruct (binary_round_aux_ulps (xorb sx sc) q e'
              (new_location (Zpos mc) (m' mod Zpos mc)) Hq Hen)
    as (m2 & M1 & Hbr & Hm2 & HM1 & Hnorm & Hc0 & [[_ Hinf]|(Hfin & Hsign & Hu)]).
  { exfalso. unfold cexp, fexp64 in Hinf. lia. }
  split; [exact Hfin|]. split; [exact Hsign|].
  set (c := cexp q e') in *.
  exists (2 ^ (c + 1074)).
  assert (HT : 0 < 2 ^ (c + 1074)) by (apply Z.pow_pos_nonneg; lia).
  assert (HA : 0 < 2 ^ (- ec)) by (apply Z.pow_pos_nonneg; lia).
  assert (HW : 0 < 2 ^ (e' + 1074)) by (apply Z.pow_pos_nonneg; lia).
  split; [lia|]. split.
  { destruct Hnorm as [Hsub|Hn]; [left; rewrite Hsub; reflexivity|right].
    rewrite Hu. apply Z.mul_le_mono_nonneg_r; lia. }
  rewrite Hu. unfold ulps.
  assert (Hscale : 2 ^ (c - e') * 2 ^ (e' + 1074) = 2 ^ (c + 1074)).
  { rewrite <- Z.pow_add_r by lia. f_equal; lia. }
  assert (Hux : m' * 2 ^ (e' + 1074) = Zpos mx * 2 ^ (ex + 1074) * 2 ^ (- ec)).
  { unfold m'. rewrite <- !Z.mul_assoc, <- !Z.pow_add_r by lia. f_equal. f_equal; lia. }
  rewrite <- Hux.
  remember (2 ^ (c - e')) as N. remember (2 ^ (e' + 1074)) as W.
  remember (2 ^ (c + 1074)) as T.
  assert (HN : 0 < N) by (subst N; apply Z.pow_pos_nonneg; lia).
  assert (H1 : M1 * N * Zpos mc <= m') by nia.
  assert (H2 : m' < (M1 + 1) * N * Zpos mc) by nia.
  assert (H1' : M1 * T * Zpos mc <= m' * W).
  { rewrite <- Hscale. nia. }
  assert (H2' : m' * W < (M1 + 1) * T * Zpos mc).
  { rewrite <- Hscale.
    replace ((M1 + 1) * (N * W) * Zpos mc) with ((M1 + 1) * N * Zpos mc * W) by ring.
    apply Z.mul_lt_mono_pos_r; assumption. }
  destruct Hm2 as [-> | ->]; nia.
Qed.

Lemma ulps_nonneg x : 0 <= ulps x.
Proof.
  destruct x as [s|s| |s m e]; unfold ulps; lia.
Qed.

(** The same for every finite first operand, zero included. *)
Lemma mul_step v sc mc ec :
  valid v -> isFinite v = true -> valid (S754_finite sc mc ec) -> ec <= 0 ->
  let r := mul v (S754_finite sc mc ec) in
  isFinite r = true ->
  sign_bit r = xorb (sign_bit v) sc /\
  exists T, 1 <= T /\ (T = 1 \/ 2 ^ 52 * T <= ulps r) /\
    ulps r * 2 ^ (- ec) <= ulps v * Zpos mc + T * 2 ^ (- ec) /\
    ulps v * Zpos mc <= ulps r * 2 ^ (- ec) + T * 2 ^ (- ec).
Proof.
  intros Hv Hf Hc Hec r Hr.
  assert (HA : 0 < 2 ^ (- ec)) by (apply Z.pow_pos_nonneg; lia).
  destruct v as [s|s| |s m e]; try discriminate.
  - unfold r. simpl. split; [reflexivity|]. exists 1. lia.
  - destruct (mul_error s m e sc mc ec Hv Hc Hec) as [Hinf|(_ & Hs & HT)].
    + fold r in Hinf. rewrite Hinf in Hr. discriminate.
    + split; [exact Hs|exact HT].
Qed.

Lemma div_step v sc mc ec :
  valid v -> isFinite v = true -> valid (S754_finite sc mc ec) ->
  ec <= 0 -> 2 ^ (1 - ec) <= Zpos mc ->
  let r := div v (S754_finite sc mc ec) in
  isFinite r = true /\ sign_bit r = xorb (sign_bit v) sc /\
  exists T, 1 <= T /\ (T = 1 \/ 2 ^ 52 * T <= ulps r) /\
    ulps r * Zpos mc <= ulps v * 2 ^ (- ec) + T * Zpos mc /\
    ulps v * 2 ^ (- ec) <= ulps r * Zpos mc + T * Zpos mc.
Proof.
  intros Hv Hf Hc Hec Hbig r.
  destruct v as [s|s| |s m e]; try discriminate.
  - unfold r. simpl. repeat split. exists 1. lia.
  - apply div_error; assumption.
Qed.

Lemma mul_finite_left v c :
  isFinite (mul v c) = true -> isFinite v = true.
Proof. destruct v; try reflexivity; destruct c; discriminate. Qed.

(** Multiplying by one of the factors of the unit tables and dividing by
    it again. *)
Lemma round_trip_factor v mc ec :
  valid v -> valid (S754_finite false mc ec) ->
  (Zpos mc = 5629499534213120 /\ ec = -49 \/
   Zpos mc = 8796093022208000 /\ ec = -43 \/
   Zpos mc = 7149464408450662 /\ ec = -48) ->
  let c := S754_finite false mc ec in
  isFinite (mul v c) = true -> close_to v (div (mul v c) c).
Proof.
  intros Hv Hc Hcases c Hy.
  pose proof (mul_finite_left _ _ Hy) as Hfv.
  assert (Hec : ec <= 0) by lia.
  assert (Hbig : 2 ^ (1 - ec) <= Zpos mc).
  { destruct Hcases as [[-> ->]|[[-> ->]|[-> ->]]]; vm_compute; discriminate. }
  destruct (mul_step v false mc ec Hv Hfv Hc Hec Hy) as (Hsy & Ty & HTy & HTy' & Hy1 & Hy2).
  assert (Hvy : valid (mul v c)) by (apply mul_valid; assumption).
  destruct (div_step (mul v c) false mc ec Hvy Hy Hc Hec Hbig)
    as (Hfz & Hsz & Tz & HTz & HTz' & Hz1 & Hz2).
  fold c in Hsy, Hy1, Hy2, HTy', Hfz, Hsz, Hz1, Hz2, HTz'.
  unfold close_to. split; [exact Hfz|]. split.
  { rewrite Hsz, Hsy, !xorb_false_r. reflexivity. }
  pose proof (ulps_nonneg v). pose proof (ulps_nonneg (mul v c)).
  pose proof (ulps_nonneg (div (mul v c) c)).
  remember (ulps v) as Uv. remember (ulps (mul v c)) as Uy.
  remember (ulps (div (mul v c) c)) as Uz.
  destruct Hcases as [[Hm ->]|[[Hm ->]|[Hm ->]]]; rewrite Hm in *;
    [change (2 ^ (- -49)) with 562949953421312 in *
    |change (2 ^ (- -43)) with 8796093022208 in *
    |change (2 ^ (- -48)) with 281474976710656 in *]; lia.
Qed.

(** Feet: two multiplications, and a division by the product of the two
    factors, itself rounded. *)
Lemma round_trip_feet v :
  valid v -> isFinite (mul (mul v n12) n25_4) = true ->
  close_to v (div (mul (mul v n12) n25_4) (mul n12 n25_4)).
Proof.
  intros Hv Hy2.
  change (mul n12 n25_4) with (S754_finite false 5362098306337996 (-44)).
  pose proof (mul_finite_left _ _ Hy2) as Hy1.
  pose proof (mul_finite_left _ _ Hy1) as Hfv.
  assert (H12 : valid n12) by reflexivity.
  assert (H254 : valid n25_4) by reflexivity.
  assert (Hc : valid (S754_finite false 5362098306337996 (-44))) by reflexivity.
  assert (Hv1 : valid (mul v n12)) by (apply mul_valid; assumption).
  assert (Hv2 : valid (mul (mul v n12) n25_4)) by (apply mul_valid; assumption).
  destruct (mul_step v false 6755399441055744 (-49) Hv Hfv H12 ltac:(lia) Hy1)
    as (Hs1 & T1 & HT1 & HT1' & Ha1 & Ha2).
  destruct (mul_step (mul v n12) false 7149464408450662 (-48) Hv1 Hy1 H254 ltac:(lia) Hy2)
    as (Hs2 & T2 & HT2 & HT2' & Hb1 & Hb2).
  destruct (div_step (mul (mul v n12) n25_4) false 5362098306337996 (-44) Hv2 Hy2 Hc
              ltac:(lia) ltac:(vm_compute; discriminate))
    as (Hfz & Hsz & Tz & HTz & HTz' & Hz1 & Hz2).
  change (S754_finite false 6755399441055744 (-49)) with n12 in *.
  change (S754_finite false 7149464408450662 (-48)) with n25_4 in *.
  unfold close_to. split; [exact Hfz|]. split.
  { rewrite Hsz, Hs2, Hs1, !xorb_false_r. reflexivity. }
  pose proof (ulps_nonneg v). pose proof (ulps_nonneg (mul v n12)).
  pose proof (ulps_nonneg (mul (mul v n12) n25_4)).
  pose proof (ulps_nonneg (div (mul (mul v n12) n25_4)
                             (S754_finite false 5362098306337996 (-44)))).
  remember (ulps v) as Uv. remember (ulps (mul v n12)) as U1.
  remember (ulps (mul (mul v n12) n25_4)) as U2.
  remember (ulps (div (mul (mul v n12) n25_4)
                    (S754_finite false 5362098306337996 (-44)))) as Uz.
  change (2 ^ (- -49)) with 562949953421312 in *.
  change (2 ^ (- -48)) with 281474976710656 in *.
  change (2 ^ (- -44)) with 17592186044416 in *.
  lia.
Qed.

Lemma close_to_refl v : isFinite v = true -> close_to v v.
Proof.
  intros Hf. unfold close_to. repeat split; [assumption|].
  pose proof (ulps_nonneg v). rewrite Z.sub_diag. simpl Z.abs. lia.
Qed.

(** C9, the counterexample.  A length of 1e308 centimetres is finite, its
    millimetre value overflows, and the way back returns [Infinity]. *)
Lemma C9_round_trip_overflows :
  exists u, In u ALL_UNITS /\ key u = "cm"%string /\
            isFinite (Number "1e308") = true /\
            fromMM u (toMM u (Number "1e308")) = S754_infinity false /\
            ~ close_to (Number "1e308") (fromMM u (toMM u (Number "1e308"))).
Proof.
  exists (mkUnit "cm" "Centimetres (cm)" (fun v => mul v n10) (fun mm => div mm n10)).
  split; [right; left; reflexivity|]. split; [reflexivity|].
  split; [vm_compute; reflexivity|].
  split; [vm_compute; reflexivity|].
  intros (Hf & _). vm_compute in Hf. discriminate.
Qed.

(** C9, amended.  For every unit of both tables and every number [v]
    whose millimetre value [toMM(v)] is finite, [fromMM(toMM(v))] is finite,
    has the sign of [v] and differs from [v] by at most [2 ^ -50 * |v|]
    plus two units of [2 ^ -1074]; for millimetres it is [v] itself. *)
Theorem C9_round_trip_within_tolerance (u : Unit) (v : number) :
  In u ALL_UNITS -> valid v -> isFinite (toMM u v) = true ->
  close_to v (fromMM u (toMM u v)) /\
  (key u = "mm"%string -> fromMM u (toMM u v) = v).
Proof.
  intros Hu Hv Hf. unfold ALL_UNITS, METRIC_UNITS, IMPERIAL_UNITS in Hu.
  simpl in Hu.
  destruct Hu as [<-|[<-|[<-|[<-|[<-|[]]]]]]; cbn [toMM fromMM key] in *.
  - split; [apply close_to_refl; exact Hf|reflexivity].
  - split; [|discriminate].
    apply (round_trip_factor v 5629499534213120 (-49)); auto. reflexivity.
  - split; [|discriminate].
    apply (round_trip_factor v 8796093022208000 (-43)); auto. reflexivity.
  - split; [|discriminate].
    apply (round_trip_factor v 7149464408450662 (-48)); auto. reflexivity.
  - split; [|discriminate]. apply round_trip_feet; assumption.
Qed.

Lemma C9_round_trip_within_tolerance_witness :
  close_to (Number "2.54")
    (div (mul (mul (Number "2.54") n12) n25_4) (mul n12 n25_4)).
Proof.
  apply (proj1 (C9_round_trip_within_tolerance
                  (mkUnit "ft" "Feet (ft)" (fun v => mul (mul v n12) n25_4)
                     (fun mm => div mm (mul n12 n25_4)))
                  (Number "2.54")
                  ltac:(right; right; right; right; left; reflexivity)
                  ltac:(vm_compute; reflexivity)
                  ltac:(vm_compute; reflexivity))).
Defined.

(** * Further properties of the helpers *)

(** ** [clamp] *)

Lemma SFcompare_refl x : x <> S754_nan -> SFcompare x x = Some Eq.
Proof.
  destruct x as [s|s| |s m e]; intros Hx; try contradiction.
  - reflexivity.
  - destruct s; reflexivity.
  - simpl. rewrite Z.compare_refl.
    assert (H : Pos.compare_cont Eq m m = Eq) by apply Pos.compare_refl.
    rewrite H. destruct s; reflexivity.
Qed.

Lemma SFleb_refl x : x <> S754_nan -> SFleb x x = true.
Proof. intros Hx. unfold SFleb. now rewrite SFcompare_refl. Qed.

Lemma SFcompare_None x y : SFcompare x y = None -> x = S754_nan \/ y = S754_nan.
Proof.
  destruct x as [s|s| |s m e]; destruct y as [s'|s'| |s' m' e']; simpl; auto;
    try discriminate; destruct s; try destruct s'; discriminate.
Qed.

(** Numbers that compare equal are the same number, or two zeros. *)
Lemma SFcompare_Eq_cases x y :
  SFcompare x y = Some Eq ->
  x = y \/ exists a b, x = S754_zero a /\ y = S754_zero b.
Proof.
  destruct y as [s'|s'| |s' m' e'].
  - destruct x as [s|s| |s m e]; simpl; try discriminate; eauto.
    + destruct s; discriminate.
    + destruct s; discriminate.
  - destruct x as [s|s| |s m e]; simpl; try discriminate.
    + destruct s'; discriminate.
    + destruct s, s'; try discriminate; auto.
    + destruct s'; discriminate.
  - destruct x; discriminate.
  - intros H. left. now apply SFcompare_Eq_finite.
Qed.

(** [Math.max(v, lo)] is [v] or [lo], and not below [lo]. *)
Lemma Math_max_lower v lo :
  v <> S754_nan -> lo <> S754_nan ->
  (Math_max v lo = v \/ Math_max v lo = lo) /\ SFleb lo (Math_max v lo) = true.
Proof.
  intros Hv Hlo. unfold Math_max.
  pose proof (SFcompare_swap v lo) as Hsw.
  destruct (SFcompare v lo) as [[| |]|] eqn:Hc.
  - destruct (sign_bit v).
    + split; [now right|now apply SFleb_refl].
    + split; [now left|]. unfold SFleb. now rewrite Hsw.
  - split; [now right|now apply SFleb_refl].
  - split; [now left|]. unfold SFleb. now rewrite Hsw.
  - apply SFcompare_None in Hc. tauto.
Qed.

(** [Math.min(y, hi)] is [y] or [hi], not above [hi], and not below a
    bound that is below both. *)
Lemma Math_min_upper lo y hi :
  y <> S754_nan -> hi <> S754_nan ->
  SFleb lo y = true -> SFleb lo hi = true ->
  (Math_min y hi = y \/ Math_min y hi = hi) /\
  SFleb lo (Math_min y hi) = true /\ SFleb (Math_min y hi) hi = true.
Proof.
  intros Hy Hhi Hly Hlh. unfold Math_min.
  destruct (SFcompare y hi) as [[| |]|] eqn:Hc.
  - destruct (sign_bit y).
    + split; [now left|]. split; [assumption|]. unfold SFleb. now rewrite Hc.
    + split; [now right|]. split; [assumption|now apply SFleb_refl].
  - split; [now left|]. split; [assumption|]. unfold SFleb. now rewrite Hc.
  - split; [now right|]. split; [assumption|now apply SFleb_refl].
  - apply SFcompare_None in Hc. tauto.
Qed.

(** X1.  [clamp(v, min, max)] with [min <= max] lies between the two bounds
    for every number [v] but [NaN], and it is [v], [min] or [max]; it
    compares equal to [v] when [v] is already between the bounds; and
    [NaN] is not clamped: it comes back as [NaN]. *)
Theorem clamp_within_bounds (v lo hi : number) :
  lo <> S754_nan -> hi <> S754_nan -> SFleb lo hi = true ->
  (v <> S754_nan ->
   SFleb lo (clamp v lo hi) = true /\ SFleb (clamp v lo hi) hi = true /\
   (clamp v lo hi = v \/ clamp v lo hi = lo \/ clamp v lo hi = hi) /\
   (SFleb lo v = true -> SFleb v hi = true -> strict_eq (clamp v lo hi) v = true)) /\
  clamp S754_nan lo hi = S754_nan.
Proof.
  intros Hlo Hhi Hle. split; [|reflexivity].
  intros Hv. unfold clamp.
  destruct (Math_max_lower v lo Hv Hlo) as [Hmax Hlmax].
  assert (Hy : Math_max v lo <> S754_nan) by (destruct Hmax as [-> | ->]; assumption).
  destruct (Math_min_upper lo _ hi Hy Hhi Hlmax Hle) as (Hmin & H1 & H2).
  split; [exact H1|]. split; [exact H2|]. split.
  - destruct Hmin as [-> | ->]; [|tauto]. destruct Hmax as [-> | ->]; tauto.
  - intros Hlv Hvh. unfold strict_eq, SFeqb.
    assert (Hmv : Math_max v lo = v \/
                  exists a b, Math_max v lo = S754_zero a /\ v = S754_zero b).
    { unfold Math_max. pose proof (SFcompare_swap v lo) as Hsw.
      unfold SFleb in Hlv. rewrite Hsw in Hlv.
      destruct (SFcompare v lo) as [[| |]|] eqn:Hc; try discriminate; auto.
      destruct (sign_bit v); auto.
      apply SFcompare_Eq_cases in Hc. destruct Hc as [->|(a & b & -> & ->)]; eauto. }
    assert (Hcmp : SFcompare (Math_max v lo) hi = SFcompare v hi).
    { destruct Hmv as [->|(a & b & -> & ->)]; reflexivity. }
    assert (Hself : SFcompare (Math_max v lo) v = Some Eq).
    { destruct Hmv as [->|(a & b & -> & ->)]; [now apply SFcompare_refl|reflexivity]. }
    unfold Math_min. rewrite Hcmp.
    unfold SFleb in Hvh. pose proof (SFcompare_swap v hi) as Hsw.
    destruct (SFcompare v hi) as [[| |]|] eqn:Hc; try discriminate.
    + destruct (sign_bit (Math_max v lo)); [now rewrite Hself|now rewrite Hsw].
    + now rewrite Hself.
Qed.

Lemma clamp_within_bounds_witness :
  SFleb zero (clamp (of_Z 9) zero n6) = true /\
  SFleb (clamp (of_Z 9) zero n6) n6 = true.
Proof.
  destruct (clamp_within_bounds (of_Z 9) zero n6) as [H _];
    [discriminate|discriminate|reflexivity|].
  destruct H as (H1 & H2 & _); [discriminate|]. split; assumption.
Defined.

(** ** The precision field *)

(** Whatever is clamped to the range from 0 to 6 is a precision that
    [toFixed] accepts: [NaN] counts as 0 and a fraction is truncated. *)
Lemma clamp_precision x :
  valid x ->
  exists f, ToIntegerOrInfinity (clamp x zero n6) = Some f /\ 0 <= f <= 6.
Proof.
  intros Hv. destruct x as [s|s| |s m e].
  - exists 0. split; [destruct s; reflexivity|lia].
  - destruct s; [exists 0|exists 6]; (split; [vm_compute; reflexivity|lia]).
  - exists 0. split; [reflexivity|lia].
  - destruct s.
    { exists 0. split; [reflexivity|lia]. }
    apply valid_bounds in Hv. destruct Hv as (_ & He & Hd).
    pose proof (Zdigits2_bounds (Zpos m) ltac:(lia)) as [_ Hm].
    assert (Hm53 : Zpos m < 2 ^ 53).
    { eapply Z.lt_le_trans; [exact Hm|]. apply Z.pow_le_mono_r; lia. }
    assert (Hsh : forall k, k <= 0 -> Zpos m < 7 * 2 ^ (- k) ->
                  0 <= Z.shiftl (Zpos m) k <= 6).
    { intros k Hk Hlt. rewrite Z.shiftl_div_pow2 by lia.
      assert (Hp : 0 < 2 ^ (- k)) by (apply Z.pow_pos_nonneg; lia).
      split; [apply Z.div_pos; lia|].
      apply Z.lt_succ_r. apply Z.div_lt_upper_bound; lia. }
    unfold clamp.
    change (Math_max (S754_finite false m e) zero) with (S754_finite false m e).
    unfold Math_min, n6. cbn [SFcompare].
    destruct (e ?= -50) eqn:Hc.
    + apply Z.compare_eq in Hc. subst e.
      destruct (Pos.compare_cont Eq m 6755399441055744) eqn:Hp.
      * exists 6. split; [reflexivity|lia].
      * exists (Z.shiftl (Zpos m) (-50)). split; [reflexivity|].
        apply (proj1 (Pos.compare_lt_iff m 6755399441055744)) in Hp.
        apply (Hsh (-50)); [clear; lia|].
        apply Pos2Z.pos_lt_pos in Hp.
        eapply Z.lt_trans; [exact Hp|reflexivity].
      * exists 6. split; [reflexivity|lia].
    + exists (Z.shiftl (Zpos m) e). split; [reflexivity|].
      change (e < -50) in Hc.
      apply Hsh; [lia|].
      assert (2 ^ 51 <= 2 ^ (- e)) by (apply Z.pow_le_mono_r; lia).
      change (2 ^ 53) with (4 * 2 ^ 51) in Hm53. lia.
    + exists 6. split; [reflexivity|lia].
Qed.

(** X2.  Whatever text the precision field holds, the precision that the
    handler stores is one that [toFixed] accepts, a whole number of digits
    from 0 to 6 once truncated, so that [round] raises no [RangeError] with
    it; text that is not a number is stored as [NaN] and rounds to 0
    digits. *)
Theorem stored_precision_accepted (s : string) :
  (exists f, ToIntegerOrInfinity (setDecimals_text s) = Some f /\ 0 <= f <= 6 /\
             (Number s = S754_nan -> setDecimals_text s = S754_nan /\ f = 0)) /\
  (forall v, exists r, round v (setDecimals_text s) = Normal r).
Proof.
  destruct (clamp_precision (Number s) (Number_valid s)) as (f & Hf & Hr).
  split.
  - exists f. split; [exact Hf|]. split; [exact Hr|].
    intros Hn. unfold setDecimals_text in *. rewrite Hn in *.
    split; [reflexivity|]. simpl in Hf. congruence.
  - intros v. apply (round_normal v _ f Hf). lia.
Qed.

Lemma stored_precision_accepted_witness :
  setDecimals_text "abc" = S754_nan /\
  exists r, round (of_decimal false 12345 (-4)) (setDecimals_text "2.7") = Normal r.
Proof.
  split.
  - destruct (proj1 (stored_precision_accepted "abc")) as (f & _ & _ & H).
    apply H. reflexivity.
  - apply (proj2 (stored_precision_accepted "2.7")).
Defined.

(** ** The two variants of the measurement converter *)

Lemma remove_commas_id s :
  ~ In ","%char (list_ascii_of_string s) -> remove_commas s = s.
Proof.
  induction s as [|c s IH]; intros H; [reflexivity|].
  simpl in *. destruct (Ascii.eqb c ","%char) eqn:Hc.
  - apply Ascii.eqb_eq in Hc. subst c. tauto.
  - f_equal. apply IH. tauto.
Qed.

Lemma zero_scaled u n :
  In u METRIC_UNITS \/ In u IMPERIAL_UNITS -> 1 <= n <= 72 ->
  div (toMM u zero) (of_Z n) = zero.
Proof.
  intros Hu Hn.
  assert (Hz : toMM u zero = zero).
  { unfold METRIC_UNITS, IMPERIAL_UNITS in Hu. simpl in Hu.
    destruct Hu as [[<-|[<-|[<-|[]]]]|[<-|[<-|[]]]]; reflexivity. }
  rewrite Hz. apply number_eqb_eq.
  apply (forall_range (fun n => number_eqb (div zero (of_Z n)) zero) 1 72);
    [vm_compute; reflexivity|lia].
Qed.

(** X3.  On an input without a comma and a scale that the selector offers, the
    measurement converter of [src/App.jsx] and the single-page variant
    compute the same scaled length, whether the text parses or not. *)
Theorem variants_agree_without_commas (st : Inputs) :
  ~ In ","%char (list_ascii_of_string (inputValue st)) ->
  In (scaleN st) ALL_SCALES ->
  App.mmScaled st = ScaleConverter.mmScaled st.
Proof.
  intros Hc Hs. apply In_ALL_SCALES in Hs. destruct Hs as (n & Hn & Hs).
  unfold App.mmScaled, ScaleConverter.mmScaled.
  rewrite (remove_commas_id _ Hc), Hs, (clamp_scale n Hn).
  destruct (isFinite (Number (inputValue st))); simpl negb; cbv iota.
  - reflexivity.
  - symmetry. apply zero_scaled; [apply activeUnit_cases|assumption].
Qed.

Lemma variants_agree_without_commas_witness :
  App.mmScaled (mkInputs "imperial" "mm" "ft" "abc" n72 n16 (of_Z 3))
  = ScaleConverter.mmScaled (mkInputs "imperial" "mm" "ft" "abc" n72 n16 (of_Z 3)).
Proof.
  apply variants_agree_without_commas.
  - simpl. intros [H|[H|[H|[]]]]; discriminate.
  - apply In_ALL_SCALES. exists 72. split; [lia|reflexivity].
Defined.

(** ** The greatest common divisor inside [inchesToFraction] *)

(** A finite binary64 value is determined by its sign and its magnitude. *)
Lemma ulps_inj x y :
  valid x -> valid y -> isFinite x = true -> isFinite y = true ->
  sign_bit x = sign_bit y -> ulps x = ulps y -> x = y.
Proof.
  intros Hx Hy Hfx Hfy Hs Hu.
  assert (Hpos : forall s m e, valid (S754_finite s m e) ->
                 0 < ulps (S754_finite s m e)).
  { intros s m e Hv. unfold ulps. pose proof (valid_bounds s m e Hv) as (_ & He & _).
    assert (0 < 2 ^ (e + 1074)) by (apply Z.pow_pos_nonneg; lia). nia. }
  destruct x as [sx|sx| |sx mx ex]; destruct y as [sy|sy| |sy my ey];
    try discriminate; simpl in Hs; subst.
  - reflexivity.
  - pose proof (Hpos _ _ _ Hy). simpl ulps in Hu at 1. lia.
  - pose proof (Hpos _ _ _ Hx). simpl ulps in Hu at 2. lia.
  - pose proof (valid_bounds _ _ _ Hx) as (Hcx & Hex & _).
    pose proof (valid_bounds _ _ _ Hy) as (Hcy & Hey & _).
    unfold ulps in Hu.
    assert (Hd : Zdigits2 (Zpos mx) + ex = Zdigits2 (Zpos my) + ey).
    { pose proof (Zdigits2_mul_pow2 (Zpos mx) (ex + 1074) ltac:(lia) ltac:(lia)) as H1.
      pose proof (Zdigits2_mul_pow2 (Zpos my) (ey + 1074) ltac:(lia) ltac:(lia)) as H2.
      rewrite Hu in H1. lia. }
    assert (He : ex = ey) by (unfold cexp in Hcx, Hcy; rewrite Hd in Hcx; lia).
    subst ey. f_equal.
    assert (0 < 2 ^ (ex + 1074)) by (apply Z.pow_pos_nonneg; lia).
    assert (Zpos mx = Zpos my) by nia. congruence.
Qed.

(** An integer from 0 to [2 ^ 53] is a binary64 value. *)
Lemma of_Z_ulps w :
  0 <= w <= 2 ^ 53 ->
  isFinite (of_Z w) = true /\ sign_bit (of_Z w) = false /\
  ulps (of_Z w) = w * 2 ^ 1074.
Proof.
  intros Hw. destruct (Z.eq_dec w 0) as [->|H0]; [repeat split|].
  destruct (Z.eq_dec w (2 ^ 53)) as [->|H53]; [repeat split|].
  assert (Hd : Zdigits2 w <= 53) by (apply Zdigits2_lt_pow2; lia).
  rewrite of_Z_canon by lia.
  split; [reflexivity|]. split; [reflexivity|].
  rewrite ulps_canon; [reflexivity|lia|lia|unfold cexp, fexp64; lia].
Qed.

(** The remainder has the sign of the dividend. *)
Lemma rem_sign sa ma ea sb mb eb :
  valid (S754_finite sa ma ea) -> valid (S754_finite sb mb eb) ->
  sign_bit (rem (S754_finite sa ma ea) (S754_finite sb mb eb)) = sa.
Proof.
  intros Ha Hb.
  pose proof (valid_bounds _ _ _ Ha) as (_ & Hea & Hda).
  pose proof (valid_bounds _ _ _ Hb) as (_ & Heb & Hdb).
  unfold rem.
  set (ez := Z.min ea eb).
  rewrite !Z.shiftl_mul_pow2 by (unfold ez; lia).
  set (Ma := Zpos ma * 2 ^ (ea - ez)).
  set (Mb := Zpos mb * 2 ^ (eb - ez)).
  assert (HMa : 0 < Ma).
  { unfold Ma. assert (0 < 2 ^ (ea - ez)) by (apply Z.pow_pos_nonneg; unfold ez; lia). nia. }
  assert (HMb : 0 < Mb).
  { unfold Mb. assert (0 < 2 ^ (eb - ez)) by (apply Z.pow_pos_nonneg; unfold ez; lia). nia. }
  rewrite Z.rem_mod_nonneg by lia.
  set (r := Ma mod Mb).
  assert (Hr : 0 <= r < Mb) by (apply Z.mod_pos_bound; lia).
  assert (Hra : r <= Ma) by (apply Z.mod_le; lia).
  destruct (Z.eq_dec r 0) as [Hr0|Hr0].
  - rewrite Hr0. destruct sa; reflexivity.
  - assert (Hrd : Zdigits2 r <= 53).
    { destruct (Z.min_spec ea eb) as [[_ Hm]|[_ Hm]]; fold ez in Hm.
      - assert (Ma = Zpos ma).
        { unfold Ma. rewrite Hm. replace (ea - ea) with 0 by lia. simpl. lia. }
        pose proof (Zdigits2_le r (Zpos ma) ltac:(lia) ltac:(lia)). lia.
      - assert (Mb = Zpos mb).
        { unfold Mb. rewrite Hm. replace (eb - eb) with 0 by lia. simpl. lia. }
        pose proof (Zdigits2_le r (Zpos mb) ltac:(lia) ltac:(lia)). lia. }
    assert (Hc : cexp r ez <= ez) by (unfold cexp, fexp64, ez; lia).
    assert (Hcan : binary_normalize prec emax (cond_Zopp sa r) ez sa = canon sa r ez).
    { destruct r as [|p|p] eqn:Er; try lia.
      destruct sa; simpl; apply binary_round_exact;
        try (left; exact Hc); unfold ez in *; lia. }
    rewrite Hcan. reflexivity.
Qed.

(** The remainder, for every finite dividend. *)
Lemma rem_ulps a sb mb eb :
  valid a -> isFinite a = true -> valid (S754_finite sb mb eb) ->
  let r := rem a (S754_finite sb mb eb) in
  ulps r = ulps a mod ulps (S754_finite sb mb eb) /\ isFinite r = true /\
  valid r /\ sign_bit r = sign_bit a.
Proof.
  intros Ha Hfa Hb r.
  assert (Hvr : valid r) by (apply rem_valid; assumption).
  destruct a as [sa|sa| |sa ma ea]; try discriminate.
  - assert (Hr : r = S754_zero sa) by reflexivity.
    rewrite Hr. unfold ulps at 1 2. rewrite Z.mod_0_l; [auto|].
    unfold ulps. pose proof (valid_bounds _ _ _ Hb) as (_ & He & _).
    assert (0 < 2 ^ (eb + 1074)) by (apply Z.pow_pos_nonneg; lia). nia.
  - destruct (rem_finite sa ma ea sb mb eb Ha Hb) as [Hu Hf].
    split; [exact Hu|]. split; [exact Hf|]. split; [exact Hvr|].
    apply rem_sign; assumption.
Qed.

(** What [g] returns, when it returns: a finite number whose magnitude
    is the greatest common divisor of the magnitudes of [a] and [b], all
    counted in units of [2 ^ -1074]. *)
Lemma g_gcd depth : forall a b r,
  valid a -> valid b -> isFinite a = true -> isFinite b = true ->
  g depth a b = Normal r ->
  valid r /\ isFinite r = true /\ ulps r = Z.gcd (ulps a) (ulps b) /\
  (sign_bit a = false -> sign_bit b = false -> sign_bit r = false).
Proof.
  induction depth as [|depth IH]; intros a b r Ha Hb Hfa Hfb Hg; [discriminate|].
  rewrite g_S in Hg. destruct (truthy b) eqn:Htb.
  - destruct b as [sb|sb| |sb mb eb]; try discriminate.
    destruct (rem_ulps a sb mb eb Ha Hfa Hb) as (Hu & Hf & Hv & Hs).
    destruct (IH _ _ r Hb Hv Hfb Hf Hg) as (Hvr & Hfr & Hur & Hsr).
    split; [exact Hvr|]. split; [exact Hfr|]. split.
    + rewrite Hur, Hu. rewrite Z.gcd_comm, Z.gcd_mod; [apply Z.gcd_comm|].
      unfold ulps. pose proof (valid_bounds _ _ _ Hb) as (_ & He & _).
      assert (0 < 2 ^ (eb + 1074)) by (apply Z.pow_pos_nonneg; lia). nia.
    + intros Hsa Hsb. apply Hsr; [exact Hsb|]. rewrite Hs. exact Hsa.
  - injection Hg as <-.
    destruct b as [sb|sb| |sb mb eb]; try discriminate.
    split; [exact Ha|]. split; [exact Hfa|]. split.
    + unfold ulps at 3. rewrite Z.gcd_0_r. pose proof (ulps_nonneg a). lia.
    + auto.
Qed.

(** X4.  [g] returns, within the depth of recursion that the engine allows,
    the greatest common divisor of two finite numbers: the magnitude of
    the result is the greatest common divisor of the magnitudes of the
    arguments, counted in units of [2 ^ -1074]; on integers from 0 to
    [2 ^ 53] it is their greatest common divisor. *)
Theorem g_is_gcd :
  (forall a b, valid a -> valid b -> isFinite a = true -> isFinite b = true ->
     exists r, g call_depth a b = Normal r /\ isFinite r = true /\
               ulps r = Z.gcd (ulps a) (ulps b)) /\
  (forall A B, 0 <= A <= 2 ^ 53 -> 0 <= B <= 2 ^ 53 ->
     g call_depth (of_Z A) (of_Z B) = Normal (of_Z (Z.gcd A B))).
Proof.
  split.
  - intros a b Ha Hb Hfa Hfb. destruct (g_total a b Ha Hb) as [r Hr].
    exists r. split; [exact Hr|].
    destruct (g_gcd _ _ _ _ Ha Hb Hfa Hfb Hr) as (_ & Hf & Hu & _). auto.
  - intros A B HA HB.
    destruct (g_total (of_Z A) (of_Z B) (of_Z_valid A) (of_Z_valid B)) as [r Hr].
    rewrite Hr. f_equal.
    destruct (of_Z_ulps A HA) as (HfA & HsA & HuA).
    destruct (of_Z_ulps B HB) as (HfB & HsB & HuB).
    destruct (g_gcd _ _ _ _ (of_Z_valid A) (of_Z_valid B) HfA HfB Hr)
      as (Hv & Hf & Hu & Hs).
    assert (HG : 0 <= Z.gcd A B <= 2 ^ 53).
    { split; [apply Z.gcd_nonneg|].
      destruct (Z.eq_dec A 0) as [->|HA0].
      - rewrite Z.gcd_0_l. lia.
      - pose proof (Z.gcd_divide_l A B) as Hd.
        apply Z.divide_pos_le in Hd; lia. }
    destruct (of_Z_ulps _ HG) as (HfG & HsG & HuG).
    apply ulps_inj; try assumption; try apply of_Z_valid.
    + rewrite HsG. apply Hs; assumption.
    + rewrite Hu, HuA, HuB, HuG. rewrite Z.gcd_mul_mono_r_nonneg; [reflexivity|].
      apply Z.pow_nonneg. lia.
Qed.

Lemma g_is_gcd_witness :
  g call_depth (of_Z 48) (of_Z 64) = Normal (of_Z (Z.gcd 48 64)).
Proof. apply (proj2 g_is_gcd 48 64); lia. Defined.

(** ** The percentage of the scale-to-scale converter *)

Lemma percent_check_all a b :
  1 <= a <= 72 -> 1 <= b <= 72 -> percent_check a b = true.
Proof.
  intros Ha Hb.
  pose proof (forall_range
                (fun a => forallb (fun j => percent_check a (Z.of_nat j)) (seq 1 72))
                1 72 ltac:(vm_compute; reflexivity) a ltac:(lia)) as H.
  cbv beta in H.
  apply (forall_range (percent_check a) 1 72 H). lia.
Qed.

(** X5.  For every pair of scales that the two selectors offer, the percentage
    is the exact ratio [100 * fromScale / toScale] correctly rounded to two
    decimals: the text shown is that of [k / 100] for the integer [k]
    nearest to [10000 * fromScale / toScale].  The two roundings of the
    binary64 division and multiplication never show in the second
    decimal. *)
Theorem percent_correctly_rounded (a b : Z) :
  1 <= a <= 72 -> 1 <= b <= 72 ->
  exists k,
    App.percent (of_Z a) (of_Z b)
    = Normal (Str (string_of_list_ascii (fixed_digits k 2))) /\
    2 * Z.abs (k * b - 10000 * a) <= b /\
    Number (string_of_list_ascii (fixed_digits k 2)) = of_decimal false k (-2).
Proof.
  intros Ha Hb. pose proof (percent_check_all a b Ha Hb) as H.
  unfold percent_check in H.
  set (k := (20000 * a + b) / (2 * b)) in *.
  assert (Hk : 0 <= k) by (apply Z.div_pos; lia).
  exists k. split; [|split].
  - destruct (App.percent (of_Z a) (of_Z b)) as [[| | |s|]|]; try discriminate.
    apply String.eqb_eq in H. now subst s.
  - pose proof (Z.mul_div_le (20000 * a + b) (2 * b) ltac:(lia)) as H1.
    pose proof (Z.mul_succ_div_gt (20000 * a + b) (2 * b) ltac:(lia)) as H2.
    fold k in H1, H2. lia.
  - apply (Number_fixed false k 2); lia.
Qed.

Lemma percent_correctly_rounded_witness :
  exists k,
    App.percent (of_Z 32) (of_Z 72)
    = Normal (Str (string_of_list_ascii (fixed_digits k 2))) /\
    2 * Z.abs (k * 72 - 10000 * 32) <= 72 /\
    Number (string_of_list_ascii (fixed_digits k 2)) = of_decimal false k (-2).
Proof. apply (percent_correctly_rounded 32 72); lia. Defined.

(** ** [round] *)

(** [fixed_integer] is the integer nearest to [m * 2 ^ e * 10 ^ f], the
    larger one when two are as near. *)
Lemma fixed_integer_nearest m e f :
  0 <= f -> -1074 <= e ->
  let k := fixed_integer m e f in
  let U := Zpos m * 2 ^ (e + 1074) in
  0 <= k /\ - 2 ^ 1074 < 2 * (k * 2 ^ 1074 - U * 10 ^ f) <= 2 ^ 1074.
Proof.
  intros Hf He k U. unfold k, U, fixed_integer.
  assert (Hp10 : 0 < 10 ^ f) by (apply Z.pow_pos_nonneg; lia).
  destruct (0 <=? e) eqn:He0.
  - apply Z.leb_le in He0. rewrite Z.shiftl_mul_pow2 by lia.
    assert (0 < 2 ^ e) by (apply Z.pow_pos_nonneg; lia).
    rewrite Z.pow_add_r by lia.
    assert (0 < 2 ^ 1074) by (apply Z.pow_pos_nonneg; lia).
    split; [nia|].
    replace (Zpos m * 10 ^ f * 2 ^ e * 2 ^ 1074 - Zpos m * (2 ^ e * 2 ^ 1074) * 10 ^ f)
      with 0 by ring. lia.
  - apply Z.leb_gt in He0.
    rewrite Z.shiftl_mul_pow2, Z.shiftr_div_pow2, Z.mul_1_l by lia.
    set (A := 2 ^ (- e)).
    assert (HA : 0 < A) by (apply Z.pow_pos_nonneg; lia).
    assert (HA1 : 2 ^ (- e + 1) = 2 * A).
    { unfold A. rewrite Z.pow_add_r, Z.pow_1_r by lia. lia. }
    rewrite HA1.
    set (Y := Zpos m * 10 ^ f).
    replace (2 * Zpos m * 10 ^ f) with (2 * Y) by (unfold Y; ring).
    assert (HY : 0 < Y) by (unfold Y; nia).
    set (q := (2 * Y + A) / (2 * A)).
    pose proof (Z.mul_div_le (2 * Y + A) (2 * A) ltac:(lia)) as H1.
    pose proof (Z.mul_succ_div_gt (2 * Y + A) (2 * A) ltac:(lia)) as H2.
    fold q in H1, H2.
    assert (Hq : 0 <= q) by (apply Z.div_pos; lia).
    split; [exact Hq|].
    set (B := 2 ^ (e + 1074)).
    assert (HB : 0 < B) by (apply Z.pow_pos_nonneg; lia).
    assert (HAB : A * B = 2 ^ 1074).
    { unfold A, B. rewrite <- Z.pow_add_r by lia. f_equal. lia. }
    rewrite <- HAB.
    replace (2 * (q * (A * B) - Zpos m * B * 10 ^ f)) with (B * (2 * A * q - 2 * Y))
      by (unfold Y; ring).
    split.
    + replace (- (A * B)) with (B * (- A)) by ring.
      apply Z.mul_lt_mono_pos_l; lia.
    + rewrite (Z.mul_comm A B). apply Z.mul_le_mono_nonneg_l; lia.
Qed.

(** X6.  [round(v, dp)] of a finite number [v] below [10 ^ 21] in magnitude is
    the binary64 value nearest to [k / 10 ^ f] with the sign of [v], where
    [f] is the precision and [k] the integer nearest to [|v| * 10 ^ f], the
    larger one on a tie: halves are rounded away from zero, and the
    rounding of [-v] mirrors that of [v]. *)
Theorem round_nearest_decimal (m : positive) (e : Z) (dp : number) (f : Z) :
  valid (S754_finite false m e) ->
  ToIntegerOrInfinity dp = Some f -> 0 <= f <= 100 ->
  Z.shiftl (Zpos m) e < 10 ^ 21 ->
  exists k,
    0 <= k /\
    - 2 ^ 1074 < 2 * (k * 2 ^ 1074 - Zpos m * 2 ^ (e + 1074) * 10 ^ f) <= 2 ^ 1074 /\
    forall s, round (S754_finite s m e) dp = Normal (of_decimal s k (- f)).
Proof.
  intros Hv Hf Hr Hsmall.
  pose proof (valid_bounds _ _ _ Hv) as (_ & He & _).
  destruct (fixed_integer_nearest m e f ltac:(lia) ltac:(lia)) as [Hk Hn].
  exists (fixed_integer m e f). split; [exact Hk|]. split; [exact Hn|].
  intros s.
  assert (Hvs : valid (S754_finite s m e)) by exact Hv.
  rewrite (round_finite s m e dp f Hvs Hf Hr).
  apply Z.leb_gt in Hsmall. rewrite Hsmall. reflexivity.
Qed.

Lemma round_nearest_decimal_witness :
  exists k,
    0 <= k /\
    - 2 ^ 1074
    < 2 * (k * 2 ^ 1074 - 5629499534213120 * 2 ^ (-51 + 1074) * 10 ^ 0) <= 2 ^ 1074 /\
    forall s, round (S754_finite s 5629499534213120 (-51)) zero
              = Normal (of_decimal s k (- 0)).
Proof.
  apply (round_nearest_decimal 5629499534213120 (-51) zero 0);
    try reflexivity; lia.
Defined.

(** ** How near the fraction is to the length *)

(** The whole part and the fractional part of a positive binary64 number
    [m * 2 ^ e] with [e < 0]: the high and the low bits of the mantissa. *)
Lemma floor_and_fraction m e :
  valid (S754_finite false m e) -> e < 0 ->
  let x := S754_finite false m e in
  let w := Zpos m / 2 ^ (- e) in
  let f0 := Zpos m mod 2 ^ (- e) in
  Math_floor x = of_int_signed false w /\ 0 <= w < 2 ^ 52 /\
  (f0 = 0 -> sub x (Math_floor x) = S754_zero false) /\
  (0 < f0 -> sub x (Math_floor x) = canon false f0 e /\ Zdigits2 f0 <= 53).
Proof.
  intros Hv He0 x w f0. pose proof (valid_bounds _ _ _ Hv) as (Hc & He & Hd).
  set (k := - e) in *. assert (Hk : 0 < k) by (unfold k; lia).
  assert (Hp : 0 < 2 ^ k) by (apply Z.pow_pos_nonneg; lia).
  assert (Hw : 0 <= w) by (apply Z.div_pos; lia).
  assert (Hf0 : 0 <= f0 < 2 ^ k) by (apply Z.mod_pos_bound; lia).
  assert (Hdecomp : Zpos m = w * 2 ^ k + f0).
  { unfold w, f0. rewrite Z.mul_comm. apply Z.div_mod. lia. }
  pose proof (Zdigits2_bounds (Zpos m) ltac:(lia)) as [_ Hm].
  assert (Hm53 : Zpos m < 2 ^ 53).
  { eapply Z.lt_le_trans; [exact Hm|]. apply Z.pow_le_mono_r; lia. }
  assert (Hw52 : w < 2 ^ 52).
  { apply Z.div_lt_upper_bound; [lia|].
    assert (2 * 1 <= 2 ^ k).
    { change (2 * 1) with (2 ^ 1). apply Z.pow_le_mono_r; lia. }
    change (2 ^ 53) with (2 * 2 ^ 52) in Hm53. nia. }
  assert (Hfl : Math_floor x = of_int_signed false w).
  { unfold x, Math_floor. replace (0 <=? e) with false by (symmetry; apply Z.leb_gt; lia).
    simpl signed_mantissa. rewrite Z.shiftr_div_pow2 by lia. reflexivity. }
  split; [exact Hfl|]. split; [lia|].
  rewrite Hfl.
  destruct (Z.eq_dec w 0) as [Hw0|Hw0].
  - (* no integer part: the number is its own fractional part *)
    rewrite Hw0. simpl of_int_signed.
    assert (Hmf : f0 = Zpos m) by lia.
    split; [lia|]. intros _. rewrite Hmf. split; [|lia].
    unfold x, sub, SFsub. apply valid_canon. assumption.
  - assert (Hwpos : 0 < w) by lia.
    assert (Hwd : Zdigits2 w <= 53) by (apply Zdigits2_lt_pow2; lia).
    assert (Hof : of_int_signed false w = canon false w 0).
    { rewrite of_int_signed_pos by assumption. apply of_Z_canon; lia. }
    rewrite Hof.
    set (cw := cexp w 0).
    pose proof (Zdigits2_pos w Hwpos) as Hwdp.
    assert (Hcw : -1074 <= cw <= 0) by (unfold cw, cexp, fexp64; lia).
    unfold canon. fold cw.
    replace (0 - cw) with (- cw) by lia.
    rewrite Z.shiftl_mul_pow2 by lia.
    assert (Hpc : 0 < 2 ^ (- cw)) by (apply Z.pow_pos_nonneg; lia).
    assert (Hmw : 0 < w * 2 ^ (- cw)) by nia.
    unfold x, sub, SFsub.
    set (ez := Z.min e cw).
    rewrite !shl_align_fst by (unfold ez; lia).
    rewrite Z2Pos.id by assumption.
    unfold cond_Zopp.
    assert (HD : Zpos m * 2 ^ (e - ez) - w * 2 ^ (- cw) * 2 ^ (cw - ez)
                 = f0 * 2 ^ (e - ez)).
    { rewrite <- Z.mul_assoc, <- Z.pow_add_r by (unfold ez; lia).
      replace (- cw + (cw - ez)) with (k + (e - ez)) by (unfold k; lia).
      rewrite Z.pow_add_r by (unfold ez; lia).
      rewrite Hdecomp. ring. }
    change (Z.sub (Zpos m * 2 ^ (e - ez)) (w * 2 ^ (- cw) * 2 ^ (cw - ez)))
      with (Zpos m * 2 ^ (e - ez) - w * 2 ^ (- cw) * 2 ^ (cw - ez)).
    rewrite HD. split.
    + intros Hz. rewrite Hz. reflexivity.
    + intros Hf0pos.
      assert (Hf0d : Zdigits2 f0 <= 53).
      { pose proof (Zdigits2_le f0 (Zpos m) Hf0pos ltac:(lia)). lia. }
      split; [|exact Hf0d].
      assert (Ht : 0 <= e - ez) by (unfold ez; lia).
      assert (Hpt : 0 < 2 ^ (e - ez)) by (apply Z.pow_pos_nonneg; lia).
      assert (Hcx : cexp (f0 * 2 ^ (e - ez)) ez = cexp f0 e).
      { unfold cexp. rewrite Zdigits2_mul_pow2 by lia. f_equal. lia. }
      pose proof (Zdigits2_pos f0 Hf0pos) as Hf0dp.
      assert (Hce : cexp f0 e <= e) by (unfold cexp, fexp64; lia).
      assert (Hpos : 0 < f0 * 2 ^ (e - ez)) by nia.
      assert (Hex : exact (f0 * 2 ^ (e - ez)) ez).
      { unfold exact. rewrite Hcx.
        destruct (Z_le_dec (cexp f0 e) ez) as [Hle|Hgt]; [left; assumption|right].
        exists (f0 * 2 ^ (e - cexp f0 e)).
        rewrite <- Z.mul_assoc, <- Z.pow_add_r by lia. f_equal. f_equal. lia. }
      rewrite binary_normalize_exact by (rewrite ?Hcx; assumption || lia).
      replace ez with (e - (e - ez)) at 2 by lia. apply canon_shift; lia.
Qed.

(** [Math.round] of a positive number [f0 * 2 ^ E] below [2 ^ 52]: the
    integer nearest to it, the larger of two. *)
Lemma Math_round_nearest f0 E j :
  0 < f0 -> Zdigits2 f0 <= 53 -> -1074 <= E -> Zdigits2 f0 + E <= j -> 0 <= j <= 52 ->
  Math_round (canon false f0 E)
  = of_int_signed false ((2 * (f0 * 2 ^ (E + 1074)) + 2 ^ 1074) / (2 * 2 ^ 1074)).
Proof.
  intros Hf Hd HE Hlt Hj.
  pose proof (Zdigits2_pos f0 Hf) as Hdp.
  set (c := cexp f0 E).
  assert (Hc : c <= E /\ c < 0 /\ -1074 <= c) by (unfold c, cexp, fexp64; lia).
  assert (Hex : exact f0 E) by (left; fold c; lia).
  pose proof (canon_mantissa_pos f0 E Hf Hex) as Hmpos.
  fold c in Hmpos.
  unfold canon. fold c. unfold Math_round.
  replace (0 <=? c) with false by (symmetry; apply Z.leb_gt; lia).
  simpl signed_mantissa. rewrite Z2Pos.id by assumption.
  rewrite (Z.shiftl_mul_pow2 1), Z.shiftr_div_pow2, Z.mul_1_l by lia.
  rewrite (Z.shiftl_mul_pow2 f0) by lia.
  f_equal.
  set (T := 2 ^ (c + 1074)).
  assert (HT : 0 < T) by (apply Z.pow_pos_nonneg; lia).
  assert (HP : 2 ^ 1074 = 2 ^ (- c) * T).
  { unfold T. rewrite <- Z.pow_add_r by lia. f_equal. lia. }
  assert (HY : f0 * 2 ^ (E + 1074) = f0 * 2 ^ (E - c) * T).
  { unfold T. rewrite <- Z.mul_assoc, <- Z.pow_add_r by lia. f_equal. f_equal. lia. }
  rewrite HY, HP.
  replace (2 * (f0 * 2 ^ (E - c) * T) + 2 ^ (- c) * T)
    with ((2 * (f0 * 2 ^ (E - c)) + 2 ^ (- c)) * T) by ring.
  replace (2 * (2 ^ (- c) * T)) with (2 ^ (- c + 1) * T)
    by (rewrite Z.pow_add_r, Z.pow_1_r by lia; ring).
  assert (0 < 2 ^ (- c + 1)) by (apply Z.pow_pos_nonneg; lia).
  rewrite Z.div_mul_cancel_r by lia. reflexivity.
Qed.

(** Adding one to an integer below [2 ^ 52] takes no rounding. *)
Lemma add_one w : 0 <= w < 2 ^ 52 -> add (of_int_signed false w) one = of_Z (w + 1).
Proof.
  intros Hw. destruct (Z.eq_dec w 0) as [->|H0]; [reflexivity|].
  assert (Hwpos : 0 < w) by lia.
  assert (Hwd : Zdigits2 w <= 53) by (apply Zdigits2_lt_pow2; lia).
  assert (Hwd1 : Zdigits2 (w + 1) <= 53) by (apply Zdigits2_lt_pow2; lia).
  pose proof (Zdigits2_pos w Hwpos) as Hdp.
  pose proof (Zdigits2_pos (w + 1) ltac:(lia)) as Hdp1.
  rewrite of_int_signed_pos by assumption.
  rewrite (of_Z_canon w) by lia. rewrite (of_Z_canon (w + 1)) by lia.
  set (cw := cexp w 0).
  assert (Hcw : -52 <= cw <= 0) by (unfold cw, cexp, fexp64; lia).
  unfold canon at 1. fold cw.
  replace (0 - cw) with (- cw) by lia.
  rewrite Z.shiftl_mul_pow2 by lia.
  assert (Hpc : 0 < 2 ^ (- cw)) by (apply Z.pow_pos_nonneg; lia).
  assert (Hmw : 0 < w * 2 ^ (- cw)) by nia.
  unfold one, add, SFadd.
  replace (Z.min cw (-52)) with (-52) by lia.
  rewrite !shl_align_fst by lia.
  rewrite Z2Pos.id by assumption.
  unfold cond_Zopp.
  change (Z.pos 4503599627370496) with (2 ^ 52).
  replace (-52 - -52) with 0 by lia. rewrite Z.pow_0_r, Z.mul_1_r.
  rewrite <- Z.mul_assoc, <- Z.pow_add_r by lia.
  replace (- cw + (cw - -52)) with 52 by lia.
  change (Z.add (w * 2 ^ 52) (2 ^ 52)) with (w * 2 ^ 52 + 2 ^ 52).
  replace (w * 2 ^ 52 + 2 ^ 52) with ((w + 1) * 2 ^ 52) by ring.
  assert (Hcx : cexp ((w + 1) * 2 ^ 52) (-52) = cexp (w + 1) 0).
  { unfold cexp. rewrite Zdigits2_mul_pow2 by lia. f_equal. lia. }
  assert (Hc1 : -52 <= cexp (w + 1) 0 <= 0) by (unfold cexp, fexp64; lia).
  rewrite binary_normalize_exact.
  - replace (-52) with (0 - 52) by lia. apply canon_shift; lia.
  - assert (0 < 2 ^ 52) by (apply Z.pow_pos_nonneg; lia). nia.
  - right. rewrite Hcx. exists ((w + 1) * 2 ^ (- cexp (w + 1) 0)).
    rewrite <- Z.mul_assoc, <- Z.pow_add_r by lia. f_equal. f_equal. lia.
  - rewrite Hcx. lia.
Qed.

(** A valid number with exponent [0 <= e] is the integer [m * 2 ^ e]. *)
Lemma of_Z_integer m e :
  valid (S754_finite false m e) -> 0 <= e ->
  of_Z (Zpos m * 2 ^ e) = S754_finite false m e.
Proof.
  intros Hv He. pose proof (valid_bounds _ _ _ Hv) as (Hc & Hb & Hd).
  assert (Hp : 0 < 2 ^ e) by (apply Z.pow_pos_nonneg; lia).
  assert (Hcx : cexp (Zpos m * 2 ^ e) 0 = e).
  { unfold cexp in *. rewrite Zdigits2_mul_pow2 by lia.
    replace (Zdigits2 (Zpos m) + e + 0) with (Zdigits2 (Zpos m) + e) by lia. exact Hc. }
  unfold of_Z. rewrite binary_normalize_exact.
  - replace 0 with (e - e) at 1 by lia. rewrite canon_shift by lia.
    symmetry. apply valid_canon. exact Hv.
  - nia.
  - right. rewrite Hcx. exists (Zpos m). f_equal. f_equal. lia.
  - rewrite Hcx. lia.
Qed.

(** The whole part and the numerator before reduction, from the magnitude
    [U] of the length in units of [2 ^ -1074]: the whole part is the
    quotient of [U] by [2 ^ 1074], and the numerator is the remainder times
    [2 ^ j], rounded to the nearest integer. *)
Lemma whole_and_numerator x j :
  valid x -> isFinite x = true -> 0 <= j <= 52 ->
  let P := 2 ^ 1074 in
  let W := ulps x / P in
  let F := ulps x mod P in
  Math_floor (Math_abs x) = of_Z W /\
  Math_round (mul (sub (Math_abs x) (Math_floor (Math_abs x))) (of_Z (2 ^ j)))
  = of_int_signed false ((2 * (F * 2 ^ j) + P) / (2 * P)) /\
  (F = 0 \/ W < 2 ^ 52).
Proof.
  intros Hv Hf Hj P W F. rewrite pow2_number by assumption.
  assert (HP : 0 < P) by (apply Z.pow_pos_nonneg; lia).
  assert (Hsmall : (2 * (0 * 2 ^ j) + P) / (2 * P) = 0).
  { apply Z.div_small. lia. }
  destruct x as [s|s| |s m e]; [|discriminate Hf|discriminate Hf|].
  - unfold W, F. simpl ulps. rewrite Z.div_0_l, Z.mod_0_l by lia.
    rewrite Hsmall. repeat split. now left.
  - simpl Math_abs.
    assert (Hv' : valid (S754_finite false m e)) by exact Hv.
    pose proof (valid_bounds _ _ _ Hv') as (Hc & He & Hd).
    assert (HU : ulps (S754_finite s m e) = Zpos m * 2 ^ (e + 1074)) by reflexivity.
    destruct (Z_le_dec 0 e) as [He0|He0].
    + (* an integer *)
      assert (HUe : ulps (S754_finite s m e) = Zpos m * 2 ^ e * P).
      { rewrite HU, Z.pow_add_r by lia. unfold P. ring. }
      assert (HW : W = Zpos m * 2 ^ e) by (unfold W; rewrite HUe; apply Z.div_mul; lia).
      assert (HF : F = 0) by (unfold F; rewrite HUe; apply Z.mod_mul; lia).
      rewrite HW, HF, Hsmall, (of_Z_integer m e Hv' He0).
      assert (Hfl : Math_floor (S754_finite false m e) = S754_finite false m e).
      { unfold Math_floor. now replace (0 <=? e) with true by (symmetry; apply Z.leb_le; lia). }
      rewrite Hfl, sub_self. repeat split. now left.
    + destruct (floor_and_fraction m e Hv' ltac:(lia)) as (Hfl & Hw & Hz & Hnz).
      cbv zeta in Hfl, Hw, Hz, Hnz.
      set (k := - e) in *.
      assert (Hpk : 0 < 2 ^ k) by (apply Z.pow_pos_nonneg; unfold k; lia).
      set (T := 2 ^ (e + 1074)).
      assert (HT : 0 < T) by (apply Z.pow_pos_nonneg; lia).
      assert (HPk : P = 2 ^ k * T).
      { unfold P, T, k. rewrite <- Z.pow_add_r by lia. f_equal. lia. }
      assert (HW : W = Zpos m / 2 ^ k).
      { unfold W. rewrite HU. fold T. rewrite HPk. apply Z.div_mul_cancel_r; lia. }
      assert (HF : F = Zpos m mod 2 ^ k * T).
      { unfold F. rewrite HU. fold T. rewrite HPk. apply Z.mul_mod_distr_r; lia. }
      split.
      { rewrite Hfl, HW.
        destruct (Zpos m / 2 ^ k) as [|p|p] eqn:Ew; try lia; reflexivity. }
      split; [|right; lia].
      pose proof (Z.mod_pos_bound (Zpos m) (2 ^ k) Hpk) as Hf0.
      destruct (Z.eq_dec (Zpos m mod 2 ^ k) 0) as [H0|H0].
      * assert (HF0 : F = 0) by (rewrite HF, H0; apply Z.mul_0_l).
        rewrite (Hz H0), HF0, Hsmall. reflexivity.
      * destruct (Hnz ltac:(lia)) as [Hsub Hd0]. rewrite Hsub.
        rewrite mul_pow2 by lia.
        assert (Hdk : Zdigits2 (Zpos m mod 2 ^ k) <= k).
        { apply Zdigits2_lt_pow2; unfold k in *; lia. }
        rewrite (Math_round_nearest _ (e + j) j) by (unfold k in *; lia).
        f_equal. f_equal. f_equal. f_equal. rewrite HF. unfold T.
        rewrite <- Z.mul_assoc, <- Z.pow_add_r by lia. f_equal. f_equal. lia.
Qed.

(** X7.  For every finite length and each denominator [2 ^ j] that the
    component offers, the fraction returned is the length rounded to the
    nearest multiple of [1 / 2 ^ j]: the whole part [W], the numerator [n]
    and the denominator [d], a divisor of [2 ^ j], are integers with
    [|W + n / d - |inches|| <= 1 / (2 * 2 ^ j)]; the sign is kept apart,
    a minus for lengths below zero. *)
Theorem fraction_is_nearest (x : number) (j : Z) :
  valid x -> isFinite x = true -> 1 <= j <= 6 ->
  exists f W n d,
    inchesToFraction (Num x) (of_Z (2 ^ j)) = Normal f /\
    whole f = of_Z W /\ num f = of_Z n /\ denom f = of_Z d /\
    0 <= W /\ 0 <= n /\ 0 < d /\ (d | 2 ^ j) /\
    2 * 2 ^ j * Z.abs ((W * d + n) * 2 ^ 1074 - ulps x * d) <= d * 2 ^ 1074 /\
    sign f = (if lt x zero then "-" else "")%string.
Proof.
  intros Hv Hf Hj.
  destruct (whole_and_numerator x j Hv Hf ltac:(lia)) as (Hfl & Hnum & Hcarry).
  cbv zeta in Hfl, Hnum, Hcarry.
  set (P := 2 ^ 1074) in *. set (W := ulps x / P) in *. set (F := ulps x mod P) in *.
  set (D := 2 ^ j) in *.
  set (N := (2 * (F * D) + P) / (2 * P)) in *.
  assert (HP : 0 < P) by (apply Z.pow_pos_nonneg; lia).
  assert (HD : 0 < D) by (apply Z.pow_pos_nonneg; lia).
  pose proof (ulps_nonneg x) as HU0.
  assert (HW0 : 0 <= W) by (apply Z.div_pos; lia).
  pose proof (Z.mod_pos_bound (ulps x) P HP) as HF. fold F in HF.
  assert (HU : ulps x = W * P + F).
  { unfold W, F. rewrite (Z.mul_comm _ P). apply Z.div_mod. lia. }
  pose proof (Z.mul_div_le (2 * (F * D) + P) (2 * P) ltac:(lia)) as H1.
  pose proof (Z.mul_succ_div_gt (2 * (F * D) + P) (2 * P) ltac:(lia)) as H2.
  fold N in H1, H2.
  assert (HN0 : 0 <= N) by (apply Z.div_pos; nia).
  assert (HND : N <= D).
  { apply Z.lt_succ_r. apply Z.div_lt_upper_bound; [lia|]. nia. }
  pose proof (reduce_check_all j N Hj ltac:(fold D; lia)) as Hchk.
  rewrite (inchesToFraction_finite x _ Hf). cbv zeta. rewrite Hnum, Hfl.
  unfold reduce_check in Hchk. cbv zeta in Hchk. fold D in Hchk |- *.
  destruct (reduce (of_int_signed false N) (of_Z D)) as [[[carry n'] d']|];
    [|discriminate].
  simpl bind.
  destruct (N =? D) eqn:HNd.
  - apply Z.eqb_eq in HNd.
    apply andb_true_iff in Hchk. destruct Hchk as [Hchk Hd].
    apply andb_true_iff in Hchk. destruct Hchk as [Hc Hn].
    apply number_eqb_eq in Hn, Hd. subst n' d'. rewrite Hc.
    assert (HW52 : W < 2 ^ 52).
    { destruct Hcarry as [HF0|HW52]; [|exact HW52].
      exfalso. rewrite HF0 in H2. nia. }
    eexists. exists (W + 1), 0, D. split; [reflexivity|]. cbn [whole num denom sign].
    split.
    { assert (Hofz : of_Z W = of_int_signed false W).
      { destruct W as [|p|p] eqn:EW; try lia; reflexivity. }
      rewrite Hofz. apply add_one. lia. }
    repeat split; try lia.
    + exists 1. lia.
    + rewrite HU.
      replace (((W + 1) * D + 0) * P - (W * P + F) * D) with (D * (P - F)) by ring.
      rewrite Z.abs_eq by nia.
      rewrite HNd in H1.
      replace (2 * D * (D * (P - F))) with (D * (2 * P * D - 2 * (F * D))) by ring.
      apply Z.mul_le_mono_nonneg_l; lia.
  - apply Z.eqb_neq in HNd.
    apply andb_true_iff in Hchk. destruct Hchk as [Hchk Hd].
    apply andb_true_iff in Hchk. destruct Hchk as [Hc Hn].
    apply number_eqb_eq in Hn, Hd. subst n' d'.
    apply negb_true_iff in Hc. rewrite Hc.
    set (G := Z.gcd N D).
    assert (HG : 0 < G).
    { unfold G. pose proof (Z.gcd_nonneg N D).
      destruct (Z.eq_dec (Z.gcd N D) 0) as [H0|H0]; [|lia].
      apply Z.gcd_eq_0_r in H0. lia. }
    destruct (Z.gcd_divide_l N D) as [qn Hqn].
    destruct (Z.gcd_divide_r N D) as [qd Hqd].
    fold G in Hqn, Hqd.
    assert (HNq : N / G = qn) by (rewrite Hqn at 1; apply Z.div_mul; lia).
    assert (Hdq : D / G = qd) by (rewrite Hqd at 1; apply Z.div_mul; lia).
    eexists. exists W, (N / G), (D / G). split; [reflexivity|]. cbn [whole num denom sign].
    rewrite HNq, Hdq.
    assert (Hqd0 : 0 < qd) by nia.
    assert (Hqn0 : 0 <= qn) by nia.
    repeat split; try lia.
    + exists G. lia.
    + rewrite HU.
      replace ((W * qd + qn) * P - (W * P + F) * qd) with (P * qn - F * qd) by ring.
      set (Z0 := P * qn - F * qd).
      assert (HZ : - P < 2 * (G * Z0) <= P).
      { unfold Z0.
        replace (2 * (G * (P * qn - F * qd)))
          with (2 * P * (qn * G) - 2 * (F * (qd * G))) by ring.
        rewrite <- Hqn, <- Hqd. lia. }
      rewrite Hqd at 1.
      replace (2 * (qd * G) * Z.abs Z0) with (qd * (2 * (G * Z.abs Z0))) by ring.
      apply Z.mul_le_mono_nonneg_l; [lia|].
      destruct (Z.abs_spec Z0) as [[_ ->]|[_ ->]]; nia.
Qed.

Lemma fraction_is_nearest_witness :
  exists f W n d,
    inchesToFraction (Num (of_decimal true 3937 (-3))) (of_Z (2 ^ 4)) = Normal f /\
    whole f = of_Z W /\ num f = of_Z n /\ denom f = of_Z d /\
    0 <= W /\ 0 <= n /\ 0 < d /\ (d | 2 ^ 4) /\
    2 * 2 ^ 4 * Z.abs ((W * d + n) * 2 ^ 1074 - ulps (of_decimal true 3937 (-3)) * d)
    <= d * 2 ^ 1074 /\
    sign f = (if lt (of_decimal true 3937 (-3)) zero then "-" else "")%string.
Proof.
  apply (fraction_is_nearest (of_decimal true 3937 (-3)) 4).
  - vm_compute. reflexivity.
  - vm_compute. reflexivity.
  - lia.
Defined.

(** * The theme *)

Lemma getItem_setItem k v store : getItem k (setItem k v store) = Some v.
Proof.
  induction store as [|[k' v'] store IH]; simpl.
  - now rewrite String.eqb_refl.
  - destruct (String.eqb k' k) eqn:E; simpl; rewrite E; [reflexivity|exact IH].
Qed.

Lemma getItem_setItem_other k k' v store :
  k' <> k -> getItem k' (setItem k v store) = getItem k' store.
Proof.
  intros Hk. induction store as [|[k0 v0] store IH]; simpl.
  - destruct (String.eqb k k') eqn:E; [apply String.eqb_eq in E; congruence|reflexivity].
  - destruct (String.eqb k0 k) eqn:E; simpl.
    + apply String.eqb_eq in E. subst k0.
      destruct (String.eqb k k') eqn:E'; [apply String.eqb_eq in E'; congruence|reflexivity].
    + destruct (String.eqb k0 k'); [reflexivity|exact IH].
Qed.

Lemma In_classList_add c c' l : In c' (classList_add c l) <-> c' = c \/ In c' l.
Proof.
  unfold classList_add. destruct (existsb (String.eqb c) l) eqn:E.
  - apply existsb_exists in E. destruct E as (x & Hx & Hcx).
    apply String.eqb_eq in Hcx. subst x. split; [auto|]. intros [-> | H]; assumption.
  - rewrite in_app_iff. simpl. split.
    + intros [H|[H|[]]]; auto.
    + intros [H|H]; auto.
Qed.

Lemma In_classList_remove c c' l : In c' (classList_remove c l) <-> c' <> c /\ In c' l.
Proof.
  unfold classList_remove. rewrite filter_In. split.
  - intros [H Hn]. split; [|exact H]. intros ->. now rewrite String.eqb_refl in Hn.
  - intros [Hn H]. split; [exact H|].
    destruct (String.eqb c c') eqn:E; [apply String.eqb_eq in E; congruence|reflexivity].
Qed.

Lemma toggle_theme_cases theme :
  (toggle_theme theme = "dark" \/ toggle_theme theme = "light")%string /\
  (theme = "dark" \/ theme = "light" -> toggle_theme (toggle_theme theme) = theme)%string.
Proof.
  unfold toggle_theme. destruct (String.eqb theme "dark") eqn:E.
  - split; [now right|]. intros _. apply String.eqb_eq in E. now subst.
  - split; [now left|]. intros [-> | ->]; [discriminate|reflexivity].
Qed.

(** What the effect leaves behind. *)
Lemma theme_effect_spec sets_title theme b :
  let b' := theme_effect sets_title theme b in
  getItem "theme" (localStorage b') = Some theme /\
  (In "dark"%string (classList b') <-> theme = "dark"%string) /\
  (forall k, k <> "theme"%string ->
     getItem k (localStorage b') = getItem k (localStorage b)) /\
  (forall c, c <> "dark"%string -> (In c (classList b') <-> In c (classList b))) /\
  matchMedia b' = matchMedia b.
Proof.
  unfold theme_effect. cbn [localStorage classList matchMedia].
  split; [apply getItem_setItem|]. split; [|split; [|split; [|reflexivity]]].
  - destruct (String.eqb theme "dark") eqn:E.
    + apply String.eqb_eq in E. rewrite In_classList_add. tauto.
    + rewrite In_classList_remove. apply String.eqb_neq in E. tauto.
  - intros k Hk. now apply getItem_setItem_other.
  - intros c Hc. destruct (String.eqb theme "dark").
    + rewrite In_classList_add. tauto.
    + rewrite In_classList_remove. tauto.
Qed.

Lemma initial_theme_saved b theme :
  getItem "theme" (localStorage b) = Some theme ->
  (theme = "dark" \/ theme = "light")%string -> initial_theme b = theme.
Proof.
  intros Hg Ht. unfold initial_theme. rewrite Hg.
  destruct Ht as [-> | ->]; reflexivity.
Qed.

Lemma initial_theme_two b :
  (initial_theme b = "dark" \/ initial_theme b = "light")%string.
Proof.
  unfold initial_theme.
  destruct (getItem "theme" (localStorage b)) as [saved|].
  - destruct (String.eqb saved "dark") eqn:E1; simpl.
    + apply String.eqb_eq in E1. now left.
    + destruct (String.eqb saved "light") eqn:E2.
      * apply String.eqb_eq in E2. now right.
      * destruct (matchMedia b) as [[|]|]; auto.
  - destruct (matchMedia b) as [[|]|]; auto.
Qed.

(** X8.  The theme at the first render is ["dark"] or ["light"], whatever the
    browser holds: a saved ["dark"] or ["light"] wins; any other saved
    text, or none, gives the preference of the system, which counts as
    light where the browser has no [matchMedia]. *)
Theorem initial_theme_dark_or_light (b : Browser) :
  (initial_theme b = "dark" \/ initial_theme b = "light")%string /\
  (forall saved,
     getItem "theme" (localStorage b) = Some saved ->
     (saved = "dark" \/ saved = "light")%string -> initial_theme b = saved) /\
  ((forall saved, getItem "theme" (localStorage b) = Some saved ->
                  saved <> "dark" /\ saved <> "light")%string ->
   initial_theme b = if match matchMedia b with Some dark => dark | None => false end
                     then "dark"%string else "light"%string).
Proof.
  split; [|split].
  - apply initial_theme_two.
  - intros saved. apply initial_theme_saved.
  - intros Hn. unfold initial_theme.
    destruct (getItem "theme" (localStorage b)) as [saved|].
    + destruct (Hn saved eq_refl) as [H1 H2].
      apply String.eqb_neq in H1, H2. rewrite H1, H2. simpl.
      destruct (matchMedia b) as [[|]|]; reflexivity.
    + destruct (matchMedia b) as [[|]|]; reflexivity.
Qed.

Lemma initial_theme_dark_or_light_witness :
  initial_theme (mkBrowser [("theme", "blue")]%string [] "" None) = "light"%string.
Proof.
  destruct (initial_theme_dark_or_light
              (mkBrowser [("theme", "blue")]%string [] "" None)) as (_ & _ & H).
  apply H. intros saved Hs. injection Hs as <-. split; discriminate.
Defined.

Lemma press_theme_spec n : forall sets_title theme b b0,
  (theme = "dark" \/ theme = "light")%string ->
  getItem "theme" (localStorage b) = Some theme ->
  (In "dark"%string (classList b) <-> theme = "dark"%string) ->
  (forall k, k <> "theme"%string ->
     getItem k (localStorage b) = getItem k (localStorage b0)) ->
  (forall c, c <> "dark"%string -> (In c (classList b) <-> In c (classList b0))) ->
  matchMedia b = matchMedia b0 ->
  let theme' := fst (press_theme n sets_title theme b) in
  let b' := snd (press_theme n sets_title theme b) in
  (theme' = "dark" \/ theme' = "light")%string /\
  getItem "theme" (localStorage b') = Some theme' /\
  (In "dark"%string (classList b') <-> theme' = "dark"%string) /\
  theme' = (if Nat.even n then theme else toggle_theme theme) /\
  (forall k, k <> "theme"%string ->
     getItem k (localStorage b') = getItem k (localStorage b0)) /\
  (forall c, c <> "dark"%string -> (In c (classList b') <-> In c (classList b0))) /\
  matchMedia b' = matchMedia b0.
Proof.
  induction n as [|n IH]; intros sets_title theme b b0 Ht Hg Hd Hk Hc Hm.
  - simpl. tauto.
  - cbn [press_theme].
    destruct (theme_effect_spec sets_title (toggle_theme theme) b)
      as (Hg' & Hd' & Hk' & Hc' & Hm').
    cbv zeta in Hg', Hd', Hk', Hc', Hm'.
    destruct (toggle_theme_cases theme) as [Ht' Hinv].
    specialize (IH sets_title (toggle_theme theme)
                  (theme_effect sets_title (toggle_theme theme) b) b0 Ht' Hg' Hd').
    destruct IH as (H1 & H2 & H3 & H4 & H5 & H6 & H7).
    + intros k Hkk. rewrite Hk' by assumption. now apply Hk.
    + intros c Hcc. rewrite Hc' by assumption. now apply Hc.
    + congruence.
    + cbv zeta. split; [exact H1|]. split; [exact H2|]. split; [exact H3|].
      split; [|split; [exact H5|split; [exact H6|exact H7]]].
      rewrite H4. rewrite Nat.even_succ, <- Nat.negb_even.
      destruct (Nat.even n); simpl; [reflexivity|now apply Hinv].
Qed.

(** X9.  The theme survives a reload.  After a visit with any number of presses
    of the theme button, the theme is ["dark"] or ["light"], it is the one
    that the next visit starts with, whatever the system prefers, and the
    root element has the class [dark] exactly when the theme is dark.  An
    even number of presses gives back the theme of the first render.
    Other entries of [localStorage] and other classes are left alone. *)
Theorem theme_survives_reload (n : nat) (sets_title : bool) (b : Browser) :
  let theme := fst (visit n sets_title b) in
  let b' := snd (visit n sets_title b) in
  (theme = "dark" \/ theme = "light")%string /\
  initial_theme b' = theme /\
  (In "dark"%string (classList b') <-> theme = "dark"%string) /\
  theme = (if Nat.even n then initial_theme b else toggle_theme (initial_theme b)) /\
  (forall k, k <> "theme"%string ->
     getItem k (localStorage b') = getItem k (localStorage b)) /\
  (forall c, c <> "dark"%string -> (In c (classList b') <-> In c (classList b))).
Proof.
  unfold visit. cbv zeta.
  destruct (theme_effect_spec sets_title (initial_theme b) b)
    as (Hg & Hd & Hk & Hc & Hm).
  cbv zeta in Hg, Hd, Hk, Hc, Hm.
  pose proof (initial_theme_two b) as Ht.
  destruct (press_theme_spec n sets_title (initial_theme b)
              (theme_effect sets_title (initial_theme b) b) b Ht Hg Hd Hk Hc Hm)
    as (H1 & H2 & H3 & H4 & H5 & H6 & _).
  split; [exact H1|]. split; [apply initial_theme_saved; assumption|].
  split; [exact H3|]. split; [exact H4|]. split; [exact H5|exact H6].
Qed.

Lemma theme_survives_reload_witness :
  getItem "lang"%string
    (localStorage (snd (visit 3 true (mkBrowser [("lang", "en")]%string [] "" (Some true)))))
  = Some "en"%string.
Proof.
  destruct (theme_survives_reload 3 true
              (mkBrowser [("lang", "en")]%string [] "" (Some true)))
    as (_ & _ & _ & _ & H & _).
  rewrite H; [reflexivity|discriminate].
Defined.

(** * [toast] *)

Lemma getElementById_update id f l :
  (forall el, el_id (f el) = el_id el) ->
  getElementById id (update_element id f l)
  = match getElementById id l with
    | Some el => Some (f el)
    | None => None
    end.
Proof.
  intros Hf. unfold getElementById.
  induction l as [|el l IH]; [reflexivity|].
  simpl. destruct (String.eqb (el_id el) id) eqn:E; simpl.
  - now rewrite Hf, E.
  - now rewrite E.
Qed.

Lemma getElementById_app id l el :
  getElementById id l = None -> el_id el = id ->
  getElementById id (l ++ [el]) = Some el.
Proof.
  intros Hn He. unfold getElementById in *.
  induction l as [|x l IH]; simpl in *.
  - now rewrite He, String.eqb_refl.
  - destruct (String.eqb (el_id x) id); [discriminate|auto].
Qed.

(** The elements with the id of the toast, and the others, after an
    assignment to the toast element. *)
Lemma update_element_others f l :
  (forall el, el_id (f el) = el_id el) ->
  filter (fun el => negb (String.eqb (el_id el) toast_id)) (update_element toast_id f l)
  = filter (fun el => negb (String.eqb (el_id el) toast_id)) l /\
  List.length (filter (fun el => String.eqb (el_id el) toast_id)
                 (update_element toast_id f l))
  = List.length (filter (fun el => String.eqb (el_id el) toast_id) l).
Proof.
  intros Hf. induction l as [|el l [IH1 IH2]]; [split; reflexivity|].
  simpl. destruct (String.eqb (el_id el) toast_id) eqn:E; simpl.
  - rewrite Hf, E. simpl. split; reflexivity.
  - rewrite E. simpl. split; [now f_equal|assumption].
Qed.

Lemma getElementById_none_filter l :
  getElementById toast_id l = None <->
  filter (fun el => String.eqb (el_id el) toast_id) l = [].
Proof.
  unfold getElementById. induction l as [|el l IH]; simpl; [tauto|].
  destruct (String.eqb (el_id el) toast_id); [split; discriminate|exact IH].
Qed.

(** What [toast] finds when it has run. *)
Lemma toast_found msg p :
  exists el, getElementById toast_id (body (toast msg p))
             = Some (mkElement toast_id (className el) msg "1") /\
             (getElementById toast_id (body p) = None -> className el = toast_class).
Proof.
  unfold toast. cbn [body].
  rewrite getElementById_update by reflexivity.
  destruct (getElementById toast_id (body p)) as [el|] eqn:E.
  - rewrite E. exists el. split; [|discriminate].
    cbn [el_id className]. f_equal. f_equal.
    unfold getElementById in E. apply find_some in E. destruct E as [_ E].
    now apply String.eqb_eq in E.
  - rewrite (getElementById_app _ _ (mkElement toast_id toast_class "" "") E eq_refl).
    eexists (mkElement toast_id toast_class "" ""). split; reflexivity.
Qed.

Lemma hide_toast_fold (due : list Z) l :
  fold_left (fun l' _ => hide_toast l') due l
  = match due with [] => l | _ => hide_toast l end.
Proof.
  assert (Hidem : forall l', hide_toast (hide_toast l') = hide_toast l').
  { intros l'. unfold hide_toast. induction l' as [|el l' IH]; [reflexivity|].
    simpl. destruct (String.eqb (el_id el) toast_id) eqn:E; simpl.
    - now rewrite E.
    - rewrite E. now f_equal. }
  destruct due as [|d due]; [reflexivity|]. simpl.
  induction due as [|d' due IH]; [reflexivity|].
  simpl. now rewrite Hidem.
Qed.

(** One step keeps the other elements and the number of toast elements,
    but for the first toast, which adds one. *)
Lemma act_elements p a :
  filter (fun el => negb (String.eqb (el_id el) toast_id)) (body (act p a))
  = filter (fun el => negb (String.eqb (el_id el) toast_id)) (body p) /\
  List.length (toast_elements (act p a))
  = match a with
    | Toast _ => Nat.max 1 (List.length (toast_elements p))
    | Wait _ => List.length (toast_elements p)
    end.
Proof.
  destruct a as [msg|ms]; unfold toast_elements.
  - unfold act, toast. cbn [body].
    match goal with
    | |- context [update_element toast_id ?f ?l] =>
        destruct (update_element_others f l) as [H1 H2]; [reflexivity|]
    end.
    rewrite H1, H2.
    destruct (getElementById toast_id (body p)) as [el|] eqn:E.
    + split; [reflexivity|].
      unfold getElementById in E. apply find_some in E. destruct E as [Hin E].
      assert (Hin' : In el (filter (fun el => String.eqb (el_id el) toast_id) (body p)))
        by (apply filter_In; auto).
      destruct (filter (fun el => String.eqb (el_id el) toast_id) (body p));
        [destruct Hin'|reflexivity].
    + apply getElementById_none_filter in E.
      rewrite !filter_app, E. simpl. rewrite app_nil_r. split; reflexivity.
  - unfold act, advance. cbn [body]. rewrite hide_toast_fold.
    destruct (filter _ (timers p)); [split; reflexivity|].
    unfold hide_toast. apply update_element_others. reflexivity.
Qed.

(** X10.  However often [toast] is called, and however the timers fall between
    the calls, the page holds one toast element and no more (as many as
    before, if it held some already), the other elements of the page are
    left as they were, and after a call the element shows the message of
    that call. *)
Theorem toast_reuses_one_element (p : Page) (actions : list Action) :
  let p' := fold_left act actions p in
  filter (fun el => negb (String.eqb (el_id el) toast_id)) (body p')
  = filter (fun el => negb (String.eqb (el_id el) toast_id)) (body p) /\
  List.length (toast_elements p')
  = (if existsb (fun a => match a with Toast _ => true | Wait _ => false end) actions
     then Nat.max 1 (List.length (toast_elements p))
     else List.length (toast_elements p)) /\
  (forall before msg,
     actions = before ++ [Toast msg] ->
     exists el, getElementById toast_id (body p') = Some el /\
                textContent el = msg /\ opacity el = "1"%string).
Proof.
  cbv zeta. split; [|split].
  - revert p. induction actions as [|a actions IH]; intros p; [reflexivity|].
    simpl. rewrite IH. apply act_elements.
  - revert p. induction actions as [|a actions IH]; intros p; [reflexivity|].
    simpl. rewrite IH. destruct (act_elements p a) as [_ H]. rewrite H.
    destruct a as [msg|ms]; simpl.
    + destruct (existsb _ actions); [|reflexivity].
      destruct (List.length (toast_elements p)); reflexivity.
    + reflexivity.
  - intros before msg ->. rewrite fold_left_app. simpl.
    destruct (toast_found msg (fold_left act before p)) as (el & Hel & _).
    eexists. split; [exact Hel|]. split; reflexivity.
Qed.

Lemma toast_reuses_one_element_witness :
  exists el,
    getElementById toast_id
      (body (fold_left act [Toast "a"; Wait 100; Toast "b"]%string (mkPage [] [] 0)))
    = Some el /\ textContent el = "b"%string /\ opacity el = "1"%string.
Proof.
  destruct (toast_reuses_one_element (mkPage [] [] 0)
              [Toast "a"; Wait 100; Toast "b"]%string) as (_ & _ & H).
  apply (H [Toast "a"; Wait 100]%string). reflexivity.
Defined.

(** X11.  A toast on a page without pending timers stays for 1200 ms: the
    element shows the message with opacity 1 until then, and opacity 0
    from then on. *)
Theorem toast_shown_for_1200_ms (p : Page) (msg : string) (d : Z) :
  timers p = [] -> 0 <= d ->
  let p' := fold_left act [Toast msg; Wait d] p in
  exists el,
    getElementById toast_id (body p') = Some el /\
    textContent el = msg /\
    opacity el = (if d <? 1200 then "1"%string else "0"%string) /\
    timers p' = (if d <? 1200 then [clock p + 1200] else []).
Proof.
  intros Ht Hd. cbv zeta. cbn [fold_left act].
  destruct (toast_found msg p) as (el & Hel & _).
  unfold advance. cbn [body timers].
  assert (Htm : timers (toast msg p) = [clock p + 1200])
    by (unfold toast; cbn [timers]; now rewrite Ht).
  assert (Hck : clock (toast msg p) = clock p) by reflexivity.
  rewrite Htm, Hck, hide_toast_fold. cbn [filter].
  destruct (d <? 1200) eqn:E.
  - apply Z.ltb_lt in E.
    replace (clock p + 1200 <=? clock p + d) with false
      by (symmetry; apply Z.leb_gt; lia).
    cbn [negb]. eexists. split; [exact Hel|]. repeat split.
  - apply Z.ltb_ge in E.
    replace (clock p + 1200 <=? clock p + d) with true
      by (symmetry; apply Z.leb_le; lia).
    cbn [negb]. unfold hide_toast.
    rewrite getElementById_update by reflexivity. rewrite Hel.
    eexists. split; [reflexivity|]. repeat split.
Qed.

Lemma toast_shown_for_1200_ms_witness :
  exists el,
    getElementById toast_id
      (body (fold_left act [Toast "mm copied"; Wait 1199]%string (mkPage [] [] 0)))
    = Some el /\
    textContent el = "mm copied"%string /\ opacity el = "1"%string.
Proof.
  destruct (toast_shown_for_1200_ms (mkPage [] [] 0) "mm copied" 1199)
    as (el & H1 & H2 & H3 & _); [reflexivity|lia|].
  exists el. split; [exact H1|]. split; [exact H2|exact H3].
Defined.

(** X12.  A second toast does not restart the timer of the first.  When the
    second message comes [d] ms after the first, with [0 < d < 1200],
    the timer of the first hides it after the remaining [1200 - d] ms,
    while its own timer is still pending. *)
Theorem second_toast_cut_short (p : Page) (m1 m2 : string) (d : Z) :
  timers p = [] -> 0 < d < 1200 ->
  let p' := fold_left act [Toast m1; Wait d; Toast m2; Wait (1200 - d)] p in
  exists el,
    getElementById toast_id (body p') = Some el /\
    textContent el = m2 /\ opacity el = "0"%string /\
    clock p' = clock p + 1200 /\ timers p' = [clock p + d + 1200].
Proof.
  intros Ht Hd. cbv zeta. cbn [fold_left].
  set (p1 := act p (Toast m1)).
  assert (H1t : timers p1 = [clock p + 1200])
    by (unfold p1, act, toast; cbn [timers]; now rewrite Ht).
  assert (H1c : clock p1 = clock p) by reflexivity.
  set (p2 := act p1 (Wait d)).
  assert (H2t : timers p2 = [clock p + 1200]).
  { unfold p2, act, advance. cbn [timers]. rewrite H1t, H1c. cbn [filter].
    replace (clock p + 1200 <=? clock p + d) with false
      by (symmetry; apply Z.leb_gt; lia). reflexivity. }
  assert (H2c : clock p2 = clock p + d).
  { unfold p2, act, advance. cbn [clock]. rewrite H1c. lia. }
  set (p3 := act p2 (Toast m2)).
  assert (H3t : timers p3 = [clock p + 1200; clock p + d + 1200]).
  { unfold p3, act, toast. cbn [timers]. rewrite H2t, H2c. reflexivity. }
  assert (H3c : clock p3 = clock p + d) by exact H2c.
  destruct (toast_found m2 p2) as (el & Hel & _). fold (act p2 (Toast m2)) in Hel.
  fold p3 in Hel.
  assert (Hdue1 : (clock p + 1200 <=? clock p3 + (1200 - d)) = true)
    by (apply Z.leb_le; lia).
  assert (Hdue2 : (clock p + d + 1200 <=? clock p3 + (1200 - d)) = false)
    by (apply Z.leb_gt; lia).
  set (p4 := act p3 (Wait (1200 - d))).
  assert (H4b : body p4 = hide_toast (body p3)).
  { unfold p4, act, advance. cbn [body]. rewrite H3t, hide_toast_fold. cbn [filter].
    now rewrite Hdue1. }
  assert (H4t : timers p4 = [clock p + d + 1200]).
  { unfold p4, act, advance. cbn [timers]. rewrite H3t. cbn [filter].
    now rewrite Hdue1, Hdue2. }
  assert (H4c : clock p4 = clock p + 1200).
  { unfold p4, act, advance. cbn [clock]. lia. }
  rewrite H4b, H4t, H4c. unfold hide_toast.
  rewrite getElementById_update by reflexivity. rewrite Hel.
  eexists. split; [reflexivity|]. cbn [textContent opacity].
  repeat split.
Qed.

Lemma second_toast_cut_short_witness :
  exists el,
    getElementById toast_id
      (body (fold_left act
               [Toast "mm copied"; Wait 1000; Toast "inches copied"; Wait (1200 - 1000)]%string
               (mkPage [] [] 0)))
    = Some el /\
    textContent el = "inches copied"%string /\ opacity el = "0"%string.
Proof.
  destruct (second_toast_cut_short (mkPage [] [] 0) "mm copied" "inches copied" 1000)
    as (el & H1 & H2 & H3 & _); [reflexivity|lia|].
  exists el. split; [exact H1|]. split; [exact H2|exact H3].
Defined.

(** * The states that the user can reach *)

(** The text of an option reads back as the number of the option. *)
Lemma option_value_round_trip n :
  In n ALL_SCALES \/ In n DENOMINATORS -> Number (Number_toString n) = n.
Proof.
  intros H. apply number_eqb_eq.
  assert (Hall : forallb (fun n => number_eqb (Number (Number_toString n)) n)
                   (ALL_SCALES ++ DENOMINATORS) = true) by (vm_compute; reflexivity).
  rewrite forallb_forall in Hall. apply Hall. apply in_app_iff. exact H.
Qed.

Lemma well_formed_initial : well_formed initial_inputs.
Proof.
  unfold well_formed, initial_inputs. cbn [system metricUnit imperialUnit scaleN inchDenom decimals].
  split; [now left|]. split; [now left|]. split; [now left|].
  split; [apply In_ALL_SCALES; exists 10; split; [lia|reflexivity]|].
  split; [right; right; right; left; reflexivity|].
  exists 3. split; [reflexivity|lia].
Qed.

Lemma well_formed_handle st ev : well_formed st -> well_formed (handle st ev).
Proof.
  intros (Hsys & Hm & Hi & Hs & Hd & Hp).
  destruct ev as [text|metric|i|i|text|i]; unfold handle.
  - repeat split; assumption.
  - unfold well_formed. cbn [system metricUnit imperialUnit scaleN inchDenom decimals].
    split; [destruct metric; auto|]. repeat split; assumption.
  - destruct (nth_error (unitList st) i) as [u|] eqn:E; [|repeat split; assumption].
    apply nth_error_In in E. unfold unitList in E.
    destruct (String.eqb (system st) "metric");
      unfold well_formed; cbn [system metricUnit imperialUnit scaleN inchDenom decimals].
    + split; [assumption|]. split; [now apply in_map|]. repeat split; assumption.
    + split; [assumption|]. split; [assumption|]. split; [now apply in_map|].
      repeat split; assumption.
  - destruct (nth_error ALL_SCALES i) as [n|] eqn:E; [|repeat split; assumption].
    apply nth_error_In in E.
    unfold well_formed; cbn [system metricUnit imperialUnit scaleN inchDenom decimals].
    rewrite option_value_round_trip by (now left). repeat split; assumption.
  - unfold well_formed; cbn [system metricUnit imperialUnit scaleN inchDenom decimals].
    split; [assumption|]. split; [assumption|]. split; [assumption|].
    split; [assumption|]. split; [assumption|].
    apply clamp_precision, Number_valid.
  - destruct (nth_error DENOMINATORS i) as [d|] eqn:E; [|repeat split; assumption].
    apply nth_error_In in E.
    unfold well_formed; cbn [system metricUnit imperialUnit scaleN inchDenom decimals].
    rewrite option_value_round_trip by (now right). repeat split; assumption.
Qed.

Lemma well_formed_fold evs : forall st, well_formed st -> well_formed (fold_left handle evs st).
Proof.
  induction evs as [|ev evs IH]; intros st H; [exact H|].
  simpl. apply IH. now apply well_formed_handle.
Qed.

(** In a well-formed state the unit selected is found in its table. *)
Lemma activeUnit_found st :
  well_formed st -> key (activeUnit st) = activeUnitKey st.
Proof.
  intros (Hsys & Hm & Hi & _).
  unfold activeUnit, activeUnitKey, unitList.
  destruct Hsys as [-> | ->]; cbn [String.eqb Ascii.eqb Bool.eqb].
  - simpl in Hm. destruct Hm as [<-|[<-|[<-|[]]]]; reflexivity.
  - simpl in Hi. destruct Hi as [<-|[<-|[]]]; reflexivity.
Qed.

Lemma DENOMINATORS_pow2 d :
  In d DENOMINATORS <-> exists j, 1 <= j <= 6 /\ d = of_Z (2 ^ j).
Proof.
  unfold DENOMINATORS. simpl. split.
  - intros [<-|[<-|[<-|[<-|[<-|[<-|[]]]]]]];
      [exists 1|exists 2|exists 3|exists 4|exists 5|exists 6]; (split; [lia|reflexivity]).
  - intros (j & Hj & ->).
    assert (j = 1 \/ j = 2 \/ j = 3 \/ j = 4 \/ j = 5 \/ j = 6) as H by lia.
    destruct H as [->|[->|[->|[->|[->| ->]]]]]; auto 10.
Qed.

(** X13.  Every state that the user can reach by typing, pressing and choosing
    is well formed: whatever is typed into the two text fields, the unit
    is a key of the table in use, the scale is one of the 72 offered, the
    denominator one of the six, and the precision one that [toFixed]
    accepts.  In such a state the unit is found without the fallback to
    the first unit, and the five rounded lengths are computed without a
    [RangeError] and are finite, in both variants. *)
Theorem reachable_states_well_formed (evs : list Event) :
  let st := after evs in
  well_formed st /\
  key (activeUnit st) = activeUnitKey st /\
  forall mm, mm = App.mmScaled st \/ mm = ScaleConverter.mmScaled st ->
    exists mo io,
      metricOut mm (decimals st) = Normal mo /\
      imperialOut mm (decimals st) (inchDenom st) = Normal io /\
      isFinite (out_mm mo) = true /\ isFinite (out_cm mo) = true /\
      isFinite (out_m mo) = true /\ isFinite (out_in io) = true /\
      isFinite (out_ft io) = true.
Proof.
  cbv zeta. pose proof (well_formed_fold evs _ well_formed_initial) as Hwf.
  fold (after evs) in Hwf. split; [exact Hwf|]. split; [now apply activeUnit_found|].
  intros mm Hmm.
  destruct Hwf as (_ & _ & _ & Hs & Hd & (f & Hf & Hr)).
  apply In_ALL_SCALES in Hs. destruct Hs as (n & Hn & Hs).
  apply DENOMINATORS_pow2 in Hd. destruct Hd as (j & Hj & Hd).
  assert (Hvs : valid (scaleN (after evs))) by (rewrite Hs; apply of_Z_valid).
  assert (Hvd : valid (inchDenom (after evs))) by (rewrite Hd; apply of_Z_valid).
  destruct (mmScaled_valid (after evs) Hvs) as [HA HS].
  assert (Hvm : valid mm) by (destruct Hmm as [-> | ->]; assumption).
  destruct (outputs_finite mm (decimals (after evs)) (inchDenom (after evs)) f
              Hvm Hvd Hf ltac:(lia))
    as (mo & io & H1 & H2 & H3 & H4 & H5 & H6 & H7 & _).
  exists mo, io. repeat split; assumption.
Qed.

Lemma reachable_states_well_formed_witness :
  key (activeUnit (after [ClickSystem false; SelectUnit 1; ChangeValue "6,5";
                          SelectScale 71; ChangeDecimals "x"; SelectDenom 5]))
  = "ft"%string.
Proof.
  rewrite (proj1 (proj2 (reachable_states_well_formed
                           [ClickSystem false; SelectUnit 1; ChangeValue "6,5";
                            SelectScale 71; ChangeDecimals "x"; SelectDenom 5]))).
  reflexivity.
Defined.

(** * What is shown *)

(** ** The percentage *)

Lemma percent_rounded a b :
  1 <= a <= 72 -> 1 <= b <= 72 ->
  exists k,
    App.percent (of_Z a) (of_Z b)
    = Normal (Str (string_of_list_ascii (fixed_digits k 2))) /\
    2 * Z.abs (k * b - 10000 * a) <= b.
Proof.
  intros Ha Hb. pose proof (percent_check_all a b Ha Hb) as H.
  unfold percent_check in H.
  set (k := (20000 * a + b) / (2 * b)) in *.
  exists k. split.
  - destruct (App.percent (of_Z a) (of_Z b)) as [[| | |s|]|]; try discriminate.
    apply String.eqb_eq in H. now subst s.
  - pose proof (Z.mul_div_le (20000 * a + b) (2 * b) ltac:(lia)) as H1.
    pose proof (Z.mul_succ_div_gt (20000 * a + b) (2 * b) ltac:(lia)) as H2.
    fold k in H1, H2. lia.
Qed.

Lemma scales_fold evs : forall st,
  In (fromScale st) ALL_SCALES -> In (toScale st) ALL_SCALES ->
  In (fromScale (fold_left handle_scale evs st)) ALL_SCALES /\
  In (toScale (fold_left handle_scale evs st)) ALL_SCALES.
Proof.
  induction evs as [|ev evs IH]; intros st Hf Ht; [split; assumption|].
  simpl. apply IH; destruct ev as [i|i]; unfold handle_scale;
    destruct (nth_error ALL_SCALES i) as [n|] eqn:E; try assumption;
    cbn [fromScale toScale]; try assumption;
    apply nth_error_In in E; rewrite option_value_round_trip by (now left); exact E.
Qed.

(** X14.  In the scale-to-scale converter both scales stay among the 72
    offered, whatever is chosen.  The guard against a zero scale therefore
    never fires: what is shown and copied is never [0%] but a percentage
    with two decimals, from [1.39%] to [7200.00%], the exact ratio
    correctly rounded. *)
Theorem percent_text_always_two_decimals (evs : list ScaleEvent) :
  let st := scales_after evs in
  exists a b k,
    fromScale st = of_Z a /\ toScale st = of_Z b /\
    1 <= a <= 72 /\ 1 <= b <= 72 /\
    App.percent (fromScale st) (toScale st)
    = Normal (Str (string_of_list_ascii (fixed_digits k 2))) /\
    percent_text (Str (string_of_list_ascii (fixed_digits k 2)))
    = (string_of_list_ascii (fixed_digits k 2) ++ "%")%string /\
    2 * Z.abs (k * b - 10000 * a) <= b /\ 139 <= k <= 720000.
Proof.
  cbv zeta. unfold scales_after.
  destruct (scales_fold evs initial_scales) as [Hf Ht].
  { apply In_ALL_SCALES. exists 14. split; [lia|reflexivity]. }
  { apply In_ALL_SCALES. exists 18. split; [lia|reflexivity]. }
  apply In_ALL_SCALES in Hf, Ht.
  destruct Hf as (a & Ha & Hf). destruct Ht as (b & Hb & Ht).
  destruct (percent_rounded a b Ha Hb) as (k & Hk & Hn).
  exists a, b, k. rewrite Hf, Ht.
  repeat split; try assumption; try lia; nia.
Qed.

(** ** The mixed fraction *)

Lemma inchesToFraction_negative m e d :
  inchesToFraction (Num (S754_finite true m e)) d
  = match inchesToFraction (Num (S754_finite false m e)) d with
    | Normal f => Normal (mkFraction "-" (whole f) (num f) (denom f))
    | RangeError => RangeError
    end /\
  forall f, inchesToFraction (Num (S754_finite false m e)) d = Normal f ->
            sign f = ""%string.
Proof.
  unfold inchesToFraction. cbn [isFinite negb Math_abs SFabs].
  assert (Hn : lt (S754_finite true m e) zero = true) by reflexivity.
  assert (Hp : lt (S754_finite false m e) zero = false) by reflexivity.
  rewrite Hn, Hp. cbv zeta.
  destruct (strict_eq _ d).
  - split; [reflexivity|]. intros f H. injection H as <-. reflexivity.
  - destruct (g call_depth _ d) as [r|]; simpl bind.
    + split; [reflexivity|]. intros f H. injection H as <-. reflexivity.
    + split; [reflexivity|discriminate].
Qed.

(** X15.  [src/App.jsx] does not show the sign of the fraction: a length below
    zero gets the text of the same length above zero.  The single-page
    variant puts the minus sign in front. *)
Theorem App_fraction_text_drops_sign (m : positive) (e : Z) (d : number) :
  valid (S754_finite false m e) -> valid d ->
  exists f f',
    inchesToFraction (Num (S754_finite false m e)) d = Normal f /\
    inchesToFraction (Num (S754_finite true m e)) d = Normal f' /\
    sign f = ""%string /\ sign f' = "-"%string /\
    App_fraction_text f' = App_fraction_text f /\
    ScaleConverter_fraction_text f'
    = ("-" ++ ScaleConverter_fraction_text f)%string.
Proof.
  intros Hv Hd.
  destruct (inchesToFraction_total (Num (S754_finite false m e)) d) as [f Hf];
    [intros x Hx; injection Hx as <-; exact Hv|exact Hd|].
  destruct (inchesToFraction_negative m e d) as [Hneg Hsign].
  rewrite Hf in Hneg. specialize (Hsign f Hf).
  exists f, (mkFraction "-" (whole f) (num f) (denom f)).
  split; [exact Hf|]. split; [exact Hneg|]. split; [exact Hsign|].
  split; [reflexivity|]. split; [reflexivity|].
  unfold ScaleConverter_fraction_text. cbn [sign whole num denom].
  rewrite Hsign. reflexivity.
Qed.

Lemma App_fraction_text_drops_sign_witness :
  exists f f',
    inchesToFraction (Num (Number "2.54")) n16 = Normal f /\
    inchesToFraction (Num (Number "-2.54")) n16 = Normal f' /\
    sign f = ""%string /\ sign f' = "-"%string /\
    App_fraction_text f' = App_fraction_text f /\
    ScaleConverter_fraction_text f'
    = ("-" ++ ScaleConverter_fraction_text f)%string.
Proof.
  apply (App_fraction_text_drops_sign 5719571526760530 (-51) n16); reflexivity.
Defined.

(** X16.  A length of less than half a step of the denominator has the
    fraction zero.  The single-page variant shows it as [00 in], after a
    minus sign if the length is below zero: the whole part [0] is followed
    by the text ["0 in"].  [src/App.jsx] shows [0 in]. *)
Theorem short_length_text (x : number) (j : Z) :
  valid x -> isFinite x = true -> 1 <= j <= 6 ->
  2 * 2 ^ j * ulps x < 2 ^ 1074 ->
  exists f,
    inchesToFraction (Num x) (of_Z (2 ^ j)) = Normal f /\
    whole f = zero /\ num f = zero /\
    ScaleConverter_fraction_text f
    = ((if lt x zero then "-" else "") ++ "00 in")%string /\
    App_fraction_text f = "0 in "%string.
Proof.
  intros Hv Hf Hj Hsmall.
  destruct (whole_and_numerator x j Hv Hf ltac:(lia)) as (Hfl & Hnum & _).
  cbv zeta in Hfl, Hnum.
  set (P := 2 ^ 1074) in *. set (D := 2 ^ j) in *.
  assert (HP : 0 < P) by (apply Z.pow_pos_nonneg; lia).
  assert (HD : 0 < D) by (apply Z.pow_pos_nonneg; lia).
  pose proof (ulps_nonneg x) as HU.
  assert (HUP : ulps x < P) by nia.
  rewrite (Z.div_small (ulps x) P), (Z.mod_small (ulps x) P) in * by lia.
  assert (HN : (2 * (ulps x * D) + P) / (2 * P) = 0) by (apply Z.div_small; nia).
  rewrite HN in Hnum.
  pose proof (reduce_check_all j 0 Hj ltac:(fold D; lia)) as Hchk.
  rewrite (inchesToFraction_finite x _ Hf). cbv zeta. rewrite Hnum, Hfl.
  unfold reduce_check in Hchk. cbv zeta in Hchk. fold D in Hchk |- *.
  destruct (reduce (of_int_signed false 0) (of_Z D)) as [[[carry n'] d']|];
    [|discriminate].
  simpl bind.
  replace (0 =? D) with false in Hchk by (symmetry; apply Z.eqb_neq; lia).
  apply andb_true_iff in Hchk. destruct Hchk as [Hchk Hd].
  apply andb_true_iff in Hchk. destruct Hchk as [Hc Hn].
  apply number_eqb_eq in Hn, Hd. subst n' d'.
  apply negb_true_iff in Hc. rewrite Hc.
  rewrite Z.gcd_0_l, Z.div_0_l by lia.
  eexists. split; [reflexivity|].
  unfold ScaleConverter_fraction_text, App_fraction_text. cbn [sign whole num denom].
  change (of_Z 0) with zero. cbn [truthy zero Number_toString].
  repeat split.
Qed.

Lemma short_length_text_witness :
  exists f,
    inchesToFraction (Num (Number "-0.03")) (of_Z (2 ^ 4)) = Normal f /\
    whole f = zero /\ num f = zero /\
    ScaleConverter_fraction_text f = "-00 in"%string /\
    App_fraction_text f = "0 in "%string.
Proof.
  apply (short_length_text (Number "-0.03") 4).
  - vm_compute. reflexivity.
  - vm_compute. reflexivity.
  - lia.
  - vm_compute. reflexivity.
Defined.

Lemma percent_text_always_two_decimals_witness :
  exists a b k,
    fromScale (scales_after [SelectFrom 0; SelectTo 71]) = of_Z a /\
    toScale (scales_after [SelectFrom 0; SelectTo 71]) = of_Z b /\
    1 <= a <= 72 /\ 1 <= b <= 72 /\
    App.percent (fromScale (scales_after [SelectFrom 0; SelectTo 71]))
                (toScale (scales_after [SelectFrom 0; SelectTo 71]))
    = Normal (Str (string_of_list_ascii (fixed_digits k 2))) /\
    percent_text (Str (string_of_list_ascii (fixed_digits k 2)))
    = (string_of_list_ascii (fixed_digits k 2) ++ "%")%string /\
    2 * Z.abs (k * b - 10000 * a) <= b /\ 139 <= k <= 720000.
Proof. exact (percent_text_always_two_decimals [SelectFrom 0; SelectTo 71]). Defined.

(** * Input that is not a number *)

Lemma remove_commas_app s1 s2 :
  remove_commas (s1 ++ s2) = (remove_commas s1 ++ remove_commas s2)%string.
Proof.
  induction s1 as [|c s1 IH]; [reflexivity|].
  simpl. destruct (Ascii.eqb c ","%char); simpl; now rewrite IH.
Qed.

Lemma remove_commas_none s : ~ In ","%char (list_ascii_of_string (remove_commas s)).
Proof.
  induction s as [|c s IH]; simpl; [tauto|].
  destruct (Ascii.eqb c ","%char) eqn:E; [exact IH|].
  simpl. intros [H|H]; [|tauto]. subst c. discriminate.
Qed.

(** X17.  Replacing [/,/g] by the empty string removes every comma and
    nothing else: the result
    holds no comma, text without a comma is left as it is, and a comma
    between two such texts joins them.  A comma is therefore never read as
    a decimal separator: [1,5] is the number 15. *)
Theorem commas_join_digits (a b : string) :
  ~ In ","%char (list_ascii_of_string a) ->
  ~ In ","%char (list_ascii_of_string b) ->
  remove_commas (a ++ "," ++ b) = (a ++ b)%string /\
  Number (remove_commas (a ++ "," ++ b)) = Number (a ++ b) /\
  (forall s, ~ In ","%char (list_ascii_of_string (remove_commas s))).
Proof.
  intros Ha Hb.
  assert (H : remove_commas (a ++ "," ++ b) = (a ++ b)%string).
  { rewrite !remove_commas_app, (remove_commas_id a Ha), (remove_commas_id b Hb).
    reflexivity. }
  split; [exact H|]. split; [now rewrite H|]. apply remove_commas_none.
Qed.

Lemma commas_join_digits_witness :
  Number (remove_commas "1,5") = Number "15".
Proof.
  apply (proj1 (proj2 (commas_join_digits "1" "5"
                         ltac:(simpl; intros [H|[]]; discriminate)
                         ltac:(simpl; intros [H|[]]; discriminate)))).
Defined.

Lemma trim_left_white_space n : forall l,
  (List.length l <= n)%nat -> white_space_only l = true -> trim_left l = [].
Proof.
  induction n as [|n IH]; intros l Hn H.
  - destruct l; [reflexivity|simpl in Hn; lia].
  - destruct l as [|c1 s1]; [reflexivity|]. simpl in Hn.
    cbn [white_space_only trim_left] in *.
    destruct (is_space c1); [apply IH; [lia|exact H]|].
    destruct s1 as [|c2 s2]; [discriminate H|]. simpl in Hn.
    destruct (is_space2 c1 c2); [apply IH; [lia|exact H]|].
    destruct s2 as [|c3 s3]; [discriminate H|]. simpl in Hn.
    destruct (is_space3 c1 c2 c3); [apply IH; [lia|exact H]|discriminate H].
Qed.

(** White space only reads as 0, as the empty text does. *)
Lemma Number_blank s :
  white_space_only (list_ascii_of_string s) = true -> Number s = zero.
Proof.
  intros H. unfold Number, trim.
  now rewrite (trim_left_white_space _ _ (le_n _) H).
Qed.

Lemma zero_outputs dp f d :
  ToIntegerOrInfinity dp = Some f -> 0 <= f <= 100 -> In d DENOMINATORS ->
  metricOut zero dp = Normal (mkMetricOut zero zero zero) /\
  imperialOut zero dp d = Normal (mkImperialOut zero zero (mkFraction "" zero zero one)).
Proof.
  intros Hf Hr Hd.
  pose proof (round_zero false dp f Hf Hr) as Hz.
  split.
  - unfold metricOut.
    change (div zero n10) with (S754_zero false).
    change (div zero n1000) with (S754_zero false).
    change zero with (S754_zero false) at 1. rewrite Hz. reflexivity.
  - unfold imperialOut. cbv zeta.
    change (div zero n25_4) with (S754_zero false).
    change (div (S754_zero false) n12) with (S754_zero false).
    rewrite Hz. 
    assert (Hfr : inchesToFraction (Num (S754_zero false)) d
                  = Normal (mkFraction "" zero zero one)).
    { unfold DENOMINATORS in Hd. simpl in Hd.
      destruct Hd as [<-|[<-|[<-|[<-|[<-|[<-|[]]]]]]]; vm_compute; reflexivity. }
    rewrite Hfr. reflexivity.
Qed.

(** X18.  Text that is empty or holds white space only (the space, the
    tab and the line ends, and also the no-break space, the byte order
    mark and the other space and line separators of Unicode, which
    [Number] strips as well) reads as 0, and text that does not read as a
    finite number is replaced by 0: in every well-formed state with such a text,
    both variants compute the scaled length 0, all five rounded lengths
    are 0 and the fraction is 0/1; nothing of the [NaN] or the infinity
    shows.  (The single-page variant reads the text after the commas are
    removed.) *)
Theorem blank_or_unreadable_input_gives_zero (st : Inputs) :
  well_formed st ->
  (white_space_only (list_ascii_of_string (inputValue st)) = true \/
   isFinite (Number (inputValue st)) = false ->
   App.mmScaled st = zero) /\
  (white_space_only (list_ascii_of_string (remove_commas (inputValue st))) = true \/
   isFinite (Number (remove_commas (inputValue st))) = false ->
   ScaleConverter.mmScaled st = zero) /\
  metricOut zero (decimals st) = Normal (mkMetricOut zero zero zero) /\
  imperialOut zero (decimals st) (inchDenom st)
  = Normal (mkImperialOut zero zero (mkFraction "" zero zero one)).
Proof.
  intros (Hsys & Hm & Hi & Hs & Hd & (f & Hf & Hr)).
  apply In_ALL_SCALES in Hs. destruct Hs as (n & Hn & Hs).
  split; [|split].
  - intros [Hb|Hnf]; unfold App.mmScaled.
    + rewrite (Number_blank _ Hb). simpl negb. cbv iota.
      rewrite Hs. apply zero_scaled; [apply activeUnit_cases|assumption].
    + now rewrite Hnf.
  - intros H. unfold ScaleConverter.mmScaled. rewrite Hs, (clamp_scale n Hn).
    assert (Hv : (if isFinite (Number (remove_commas (inputValue st)))
                  then Number (remove_commas (inputValue st)) else zero) = zero).
    { destruct H as [Hb|Hnf]; [now rewrite (Number_blank _ Hb)|now rewrite Hnf]. }
    rewrite Hv. apply zero_scaled; [apply activeUnit_cases|assumption].
  - apply (zero_outputs _ f); [assumption|lia|assumption].
Qed.

Lemma blank_or_unreadable_input_gives_zero_witness :
  App.mmScaled (mkInputs "metric" "cm" "in" "twelve" n10 n16 (of_Z 3)) = zero /\
  App.mmScaled
    (mkInputs "metric" "cm" "in"
       (String (ascii_of_nat 194) (String (ascii_of_nat 160) " "))
       n10 n16 (of_Z 3)) = zero /\
  ScaleConverter.mmScaled
    (mkInputs "metric" "cm" "in"
       (String (ascii_of_nat 194) (String (ascii_of_nat 160) " , "))
       n10 n16 (of_Z 3)) = zero.
Proof.
  assert (Hwf : forall s, well_formed (mkInputs "metric" "cm" "in" s n10 n16 (of_Z 3))).
  { intros s. unfold well_formed.
    cbn [system metricUnit imperialUnit scaleN inchDenom decimals].
    split; [now left|]. split; [right; left; reflexivity|]. split; [now left|].
    split; [apply In_ALL_SCALES; exists 10; split; [lia|reflexivity]|].
    split; [right; right; right; left; reflexivity|].
    exists 3. split; [reflexivity|lia]. }
  split; [|split].
  - apply (proj1 (blank_or_unreadable_input_gives_zero _ (Hwf "twelve"%string))).
    right. reflexivity.
  - apply (proj1 (blank_or_unreadable_input_gives_zero _ (Hwf _))).
    left. reflexivity.
  - apply (proj1 (proj2 (blank_or_unreadable_input_gives_zero _ (Hwf _)))).
    left. reflexivity.
Defined.

(** * The millimetre result is a fixed-decimal rounding of the quotient *)

(** What [round] returns is the fixed-decimal rounding of its argument. *)
Lemma round_fixed_decimal q dp f r :
  valid q -> ToIntegerOrInfinity dp = Some f -> 0 <= f <= 100 ->
  round q dp = Normal r -> fixed_decimal_rounding f q r.
Proof.
  intros Hv Hf Hr Hq. destruct q as [s|s| |s m e].
  - rewrite (round_zero s dp f Hf Hr) in Hq. injection Hq as <-. reflexivity.
  - injection Hq as <-. reflexivity.
  - injection Hq as <-. reflexivity.
  - rewrite (round_finite s m e dp f Hv Hf Hr) in Hq.
    pose proof (valid_bounds _ _ _ Hv) as (_ & He & _).
    unfold fixed_decimal_rounding.
    destruct (10 ^ 21 <=? Z.shiftl (Zpos m) e); injection Hq as <-; [reflexivity|].
    destruct (fixed_integer_nearest m e f ltac:(lia) ltac:(lia)) as [Hk Hn].
    exists (fixed_integer m e f). split; [exact Hk|]. split; [exact Hn|reflexivity].
Qed.

(** A finite length divided by a scale from 1 to 72 is finite. *)
Lemma scale_quotient_finite v n :
  valid v -> isFinite v = true -> 1 <= n <= 72 ->
  isFinite (div v (of_Z n)) = true.
Proof.
  intros Hv Hf Hn. destruct (Z.eq_dec n 1) as [->|H1].
  - change (of_Z 1) with one. now rewrite div_one.
  - pose proof (forall_range
                  (fun n => match of_Z n with
                            | S754_finite false mc ec =>
                                (ec <=? 0) && (2 ^ (1 - ec) <=? Zpos mc)
                            | _ => false
                            end) 2 71 ltac:(vm_compute; reflexivity) n ltac:(lia)) as Hc.
    cbv beta in Hc. pose proof (of_Z_valid n) as Hvn.
    destruct (of_Z n) as [s|s| |s mc ec]; try discriminate Hc.
    destruct s; [discriminate Hc|].
    apply andb_true_iff in Hc. destruct Hc as [Hc1 Hc2].
    apply Z.leb_le in Hc1, Hc2.
    apply (div_step v false mc ec Hv Hf Hvn Hc1 Hc2).
Qed.

(** C1. For every scale [n] from 1 to 72, every precision that [toFixed]
    accepts and every input that reads as a finite number [v], with
    millimetres as the source unit, the quotient [v / n] is finite, the
    millimetre field of the result is [round(v / n, decimals)], and that
    is the fixed-decimal rounding of the quotient at that precision: the
    binary64 value nearest to [k / 10 ^ f], where [k] is the integer
    nearest to [|v / n| * 10 ^ f], with the sign of the quotient.  This
    holds in [src/App.jsx], where [v] is [Number(inputValue)], and in the
    single-page variant, where [v] is the number read after the commas are
    removed. *)
Theorem C1_mm_is_rounded_quotient (st : Inputs) (n f : Z) :
  system st = "metric"%string -> metricUnit st = "mm"%string ->
  scaleN st = of_Z n -> 1 <= n <= 72 ->
  ToIntegerOrInfinity (decimals st) = Some f -> 0 <= f <= 100 ->
  (isFinite (Number (inputValue st)) = true ->
   isFinite (div (Number (inputValue st)) (of_Z n)) = true /\
   exists out,
     metricOut (App.mmScaled st) (decimals st) = Normal out /\
     round (div (Number (inputValue st)) (of_Z n)) (decimals st)
     = Normal (out_mm out) /\
     fixed_decimal_rounding f (div (Number (inputValue st)) (of_Z n)) (out_mm out)) /\
  (isFinite (Number (remove_commas (inputValue st))) = true ->
   isFinite (div (Number (remove_commas (inputValue st))) (of_Z n)) = true /\
   exists out,
     metricOut (ScaleConverter.mmScaled st) (decimals st) = Normal out /\
     round (div (Number (remove_commas (inputValue st))) (of_Z n)) (decimals st)
     = Normal (out_mm out) /\
     fixed_decimal_rounding f (div (Number (remove_commas (inputValue st))) (of_Z n))
       (out_mm out)).
Proof.
  intros Hsys Hunit Hn Hnr Hf Hfr.
  assert (H : forall v, valid v ->
            exists out, metricOut (div v (of_Z n)) (decimals st) = Normal out /\
                        round (div v (of_Z n)) (decimals st) = Normal (out_mm out) /\
                        fixed_decimal_rounding f (div v (of_Z n)) (out_mm out)).
  { intros v Hv.
    destruct (metricOut_normal (div v (of_Z n)) (decimals st) f Hf Hfr)
      as (a & b & c & Ha & _ & _ & Hout).
    exists (mkMetricOut a b c). split; [exact Hout|]. split; [exact Ha|].
    apply (round_fixed_decimal _ (decimals st)); try assumption.
    apply div_valid; [exact Hv|apply of_Z_valid]. }
  split; intros Hfin;
    (split; [apply scale_quotient_finite; [apply Number_valid|exact Hfin|exact Hnr]|]).
  - unfold App.mmScaled. rewrite Hfin. simpl negb. cbv iota zeta.
    rewrite (activeUnit_mm st Hsys Hunit), Hn. apply H, Number_valid.
  - unfold ScaleConverter.mmScaled. rewrite Hfin. cbv zeta.
    rewrite (activeUnit_mm st Hsys Hunit), Hn, (clamp_scale n Hnr).
    apply H, Number_valid.
Qed.

Lemma C1_mm_is_rounded_quotient_witness :
  exists out,
    metricOut (App.mmScaled (mkInputs "metric" "mm" "in" "100" (of_Z 7) n16 (of_Z 3)))
      (of_Z 3) = Normal out /\
    out_mm out = Number "14.286" /\
    fixed_decimal_rounding 3 (div (Number "100") (of_Z 7)) (out_mm out).
Proof.
  destruct (proj1 (C1_mm_is_rounded_quotient
                     (mkInputs "metric" "mm" "in" "100" (of_Z 7) n16 (of_Z 3)) 7 3
                     eq_refl eq_refl eq_refl ltac:(lia) eq_refl ltac:(lia)) eq_refl)
    as (_ & out & Hout & Hr & Hfd).
  exists out. split; [exact Hout|]. split; [|exact Hfd].
  assert (Hc : round (div (Number "100") (of_Z 7)) (of_Z 3)
               = Normal (Number "14.286")) by (vm_compute; reflexivity).
  cbn [inputValue decimals] in Hr.
  rewrite Hc in Hr. injection Hr as Hr. symmetry. exact Hr.
Defined.

(** * The scale is a divisor *)

(** C2, the counterexample.  At the scale 100 and the input of 100
    millimetres [src/App.jsx] divides by 100 and returns 1; the quotient by
    the clamped scale, which the single-page variant returns, is 100 / 72. *)
Lemma C2_App_divides_unclamped :
  App.mmScaled (mkInputs "metric" "mm" "in" "100" n100 n16 (of_Z 3)) = one /\
  ScaleConverter.mmScaled (mkInputs "metric" "mm" "in" "100" n100 n16 (of_Z 3))
  = div n100 n72 /\
  div (toMM (activeUnit (mkInputs "metric" "mm" "in" "100" n100 n16 (of_Z 3)))
         (Number "100")) (clamp n100 one n72)
  = div n100 n72 /\
  one <> div n100 n72.
Proof.
  split; [vm_compute; reflexivity|].
  split; [vm_compute; reflexivity|].
  split; [vm_compute; reflexivity|].
  vm_compute. discriminate.
Qed.

(** C2, amended.  The single-page variant divides the millimetre value
    by [clamp(scaleN, 1, 72)], for every scale, and the clamped scale lies
    between 1 and 72 unless the scale is [NaN].  [src/App.jsx] divides by
    [scaleN] as it is, for every scale; that is the same divisor when the
    scale lies between 1 and 72, as every scale of its selector does.  In
    both the scale is a divisor, and at the scale 1 both return the
    millimetre value as it is. *)
Theorem C2_scale_divides (st : Inputs) :
  let v := Number (inputValue st) in
  let v' := if isFinite (Number (remove_commas (inputValue st)))
            then Number (remove_commas (inputValue st)) else zero in
  ScaleConverter.mmScaled st
    = div (toMM (activeUnit st) v') (clamp (scaleN st) one n72) /\
  (scaleN st <> S754_nan ->
   SFleb one (clamp (scaleN st) one n72) = true /\
   SFleb (clamp (scaleN st) one n72) n72 = true) /\
  (isFinite v = true -> App.mmScaled st = div (toMM (activeUnit st) v) (scaleN st)) /\
  (SFleb one (scaleN st) = true -> SFleb (scaleN st) n72 = true ->
   clamp (scaleN st) one n72 = scaleN st) /\
  (In (scaleN st) ALL_SCALES -> clamp (scaleN st) one n72 = scaleN st) /\
  (scaleN st = one ->
   ScaleConverter.mmScaled st = toMM (activeUnit st) v' /\
   (isFinite v = true -> App.mmScaled st = toMM (activeUnit st) v)).
Proof.
  intros v v'. split; [reflexivity|]. split; [apply clamp_between|].
  split; [|split; [|split]].
  - intros Hfin. unfold App.mmScaled. fold v. rewrite Hfin. reflexivity.
  - intros Hlo Hhi. apply clamp_id; assumption.
  - intros Hin. apply In_ALL_SCALES in Hin. destruct Hin as [n [Hn Hs]].
    rewrite Hs. apply clamp_scale, Hn.
  - intros Hone. split.
    + unfold ScaleConverter.mmScaled. fold v'. rewrite Hone.
      change (clamp one one n72) with one.
      apply div_one. apply toMM_valid; [apply activeUnit_cases|apply parsed_valid].
    + intros Hfin. unfold App.mmScaled. fold v. rewrite Hfin, Hone.
      apply div_one. apply toMM_valid; [apply activeUnit_cases|apply Number_valid].
Qed.

Lemma C2_scale_divides_witness :
  App.mmScaled (mkInputs "metric" "cm" "in" "2.5" one n16 (of_Z 3)) = of_Z 25 /\
  ScaleConverter.mmScaled (mkInputs "metric" "cm" "in" "2.5" one n16 (of_Z 3))
  = of_Z 25 /\
  SFleb (clamp n100 one n72) n72 = true /\
  App.mmScaled (mkInputs "metric" "mm" "in" "100" n100 n16 (of_Z 3))
  = div (Number "100") n100.
Proof.
  destruct (C2_scale_divides (mkInputs "metric" "cm" "in" "2.5" one n16 (of_Z 3)))
    as (_ & _ & _ & _ & _ & H1).
  destruct (H1 eq_refl) as [Hv Ha].
  destruct (C2_scale_divides (mkInputs "metric" "mm" "in" "100" n100 n16 (of_Z 3)))
    as (_ & Hc & Hd & _).
  split; [rewrite (Ha eq_refl); vm_compute; reflexivity|].
  split; [rewrite Hv; vm_compute; reflexivity|].
  split; [apply Hc; discriminate|].
  rewrite (Hd eq_refl). reflexivity.
Defined.

(** * The fraction invariant, for every positive integer denominator *)

(** ** Integers among the binary64 values *)

Lemma Zdigits2_mul_le a b :
  0 < a -> 0 < b -> Zdigits2 (a * b) <= Zdigits2 a + Zdigits2 b.
Proof.
  intros Ha Hb.
  pose proof (Zdigits2_bounds a Ha) as [_ Hha].
  pose proof (Zdigits2_bounds b Hb) as [_ Hhb].
  pose proof (Zdigits2_pos a Ha). pose proof (Zdigits2_pos b Hb).
  apply Zdigits2_lt_pow2; [nia|lia|].
  rewrite Z.pow_add_r by lia. nia.
Qed.

(** A power of two that divides a product splits between the factors. *)
Lemma pow2_divide_mul t : 0 <= t -> forall K B,
  (2 ^ t | K * B) -> exists i, 0 <= i <= t /\ (2 ^ i | B) /\ (2 ^ (t - i) | K).
Proof.
  intros Ht. pattern t. apply natlike_ind; [| |exact Ht]; clear t Ht.
  - intros K B _. exists 0. split; [lia|]. split; [exists B|exists K]; simpl; lia.
  - intros t Ht IH K B Hd.
    assert (H2 : (2 | K * B)).
    { apply Z.divide_trans with (2 := Hd). exists (2 ^ t).
      rewrite Z.pow_succ_r by lia. ring. }
    assert (Hp : 0 < 2 ^ t) by (apply Z.pow_pos_nonneg; lia).
    assert (He : Z.even K = true \/ Z.even B = true).
    { apply orb_true_iff. rewrite <- Z.even_mul. apply Z.even_spec.
      destruct H2 as [z Hz]. exists z. lia. }
    assert (H2' : (exists k, K = k * 2) \/ (exists b, B = b * 2)).
    { destruct He as [He|He]; apply Z.even_spec in He; destruct He as [z Hz];
        [left|right]; exists z; lia. }
    destruct H2' as [[k Hk]|[b Hb]].
    + assert (Hd' : (2 ^ t | k * B)).
      { destruct Hd as [z Hz]. exists z. rewrite Z.pow_succ_r in Hz by lia.
        subst K. nia. }
      destruct (IH k B Hd') as (i & Hi & HB & [z Hz]).
      exists i. split; [lia|]. split; [exact HB|].
      exists z. replace (Z.succ t - i) with (Z.succ (t - i)) by lia.
      rewrite Z.pow_succ_r by lia. subst K. lia.
    + assert (Hd' : (2 ^ t | K * b)).
      { destruct Hd as [z Hz]. exists z. rewrite Z.pow_succ_r in Hz by lia.
        subst B. nia. }
      destruct (IH K b Hd') as (i & Hi & [z Hz] & HK).
      exists (Z.succ i). split; [lia|]. split.
      * exists z. rewrite Z.pow_succ_r by lia. subst B. lia.
      * replace (Z.succ t - Z.succ i) with (t - i) by lia. exact HK.
Qed.

(** A quotient of an integer that takes no rounding takes no rounding. *)
Lemma exact_quotient A G K :
  0 < K -> 0 < G -> A = K * G -> exact A 0 -> exact K 0.
Proof.
  intros HK HG HA Hex. unfold exact, cexp in *. rewrite !Z.add_0_r, !Z.sub_0_r in *.
  assert (HApos : 0 < A) by nia.
  pose proof (Zdigits2_mul_ge K G HK HG) as Hge. rewrite <- HA in Hge.
  pose proof (Zdigits2_pos G HG) as HdG.
  destruct (Z_le_dec (fexp64 (Zdigits2 K)) 0) as [Hle|Hgt]; [left; exact Hle|right].
  assert (HcK : fexp64 (Zdigits2 K) = Zdigits2 K - 53) by (unfold fexp64 in *; lia).
  assert (HcA : fexp64 (Zdigits2 A) = Zdigits2 A - 53) by (unfold fexp64 in *; lia).
  destruct Hex as [Hex|Hex]; [lia|].
  rewrite HcA in Hex. rewrite HcK.
  assert (Hex' : (2 ^ (Zdigits2 A - 53) | K * G)) by (rewrite <- HA; exact Hex).
  destruct (pow2_divide_mul (Zdigits2 A - 53) ltac:(lia) K G Hex')
    as (i & Hi & HiG & HiK).
  pose proof (divide_pow2_le G i HG ltac:(lia) HiG) as Hlt.
  apply Z.divide_trans with (2 := HiK).
  exists (2 ^ (Zdigits2 A - 53 - i - (Zdigits2 K - 53))).
  rewrite <- Z.pow_add_r by lia. f_equal. lia.
Qed.

(** An integer that takes no rounding, as a binary64 value. *)
Lemma canon_integer K :
  0 < K -> exact K 0 -> cexp K 0 <= 971 ->
  valid (canon false K 0) /\ ulps (canon false K 0) = K * 2 ^ 1074.
Proof.
  intros HK Hex Hc. split; [apply canon_valid; assumption|].
  destruct (Z_le_dec (cexp K 0) 0) as [Hle|Hgt].
  - rewrite ulps_canon by lia. reflexivity.
  - destruct Hex as [Hex|[z Hz]]; [lia|]. rewrite Z.sub_0_r in Hz.
    unfold canon, ulps.
    replace (0 - cexp K 0) with (- cexp K 0) by lia.
    rewrite Z.shiftl_opp_r, Z.shiftr_div_pow2 by lia.
    assert (Hp : 0 < 2 ^ cexp K 0) by (apply Z.pow_pos_nonneg; lia).
    rewrite Hz at 1. rewrite Z.div_mul by lia.
    assert (Hzpos : 0 < z) by nia.
    rewrite Z2Pos.id by lia.
    rewrite Z.pow_add_r by lia. rewrite Hz at 2. ring.
Qed.

(** The integer of a finite number, from its magnitude. *)
Lemma integer_exact m e A :
  valid (S754_finite false m e) -> Zpos m * 2 ^ (e + 1074) = A * 2 ^ 1074 ->
  0 < A /\ exact A 0 /\ cexp A 0 = e /\ Zdigits2 A = Zdigits2 (Zpos m) + e.
Proof.
  intros Hv HA. pose proof (valid_bounds _ _ _ Hv) as (Hc & He & Hd).
  assert (HP : 0 < 2 ^ 1074) by (apply Z.pow_pos_nonneg; lia).
  assert (HT : 0 < 2 ^ (e + 1074)) by (apply Z.pow_pos_nonneg; lia).
  assert (HApos : 0 < A) by nia.
  assert (Hdig : Zdigits2 A = Zdigits2 (Zpos m) + e).
  { pose proof (Zdigits2_mul_pow2 (Zpos m) (e + 1074) ltac:(lia) ltac:(lia)) as H1.
    pose proof (Zdigits2_mul_pow2 A 1074 HApos ltac:(lia)) as H2.
    rewrite HA in H1. lia. }
  assert (HcA : cexp A 0 = e).
  { unfold cexp in *. rewrite Z.add_0_r, Hdig. exact Hc. }
  split; [exact HApos|]. split; [|split; assumption].
  unfold exact. rewrite HcA.
  destruct (Z_le_dec e 0) as [Hle|Hgt]; [left; exact Hle|right].
  rewrite Z.sub_0_r. exists (Zpos m).
  rewrite Z.pow_add_r in HA by lia. nia.
Qed.

Lemma integer_value_ulps x N :
  valid x -> integer_value x = Some N -> 0 <= N ->
  isFinite x = true /\ ulps x = N * 2 ^ 1074 /\ (0 < N -> sign_bit x = false).
Proof.
  intros Hv HN Hpos. destruct x as [s|s| |s m e]; try discriminate HN.
  - injection HN as <-. repeat split. lia.
  - pose proof (valid_bounds _ _ _ Hv) as (_ & He & _).
    unfold integer_value in HN. unfold ulps. simpl isFinite. simpl sign_bit.
    destruct (0 <=? e) eqn:He0.
    + apply Z.leb_le in He0.
      assert (HN' : cond_Zopp s (Zpos m * 2 ^ e) = N) by congruence.
      clear HN. subst N.
      assert (Hp : 0 < 2 ^ e) by (apply Z.pow_pos_nonneg; lia).
      pose proof (Z.mul_pos_pos (Zpos m) (2 ^ e) ltac:(lia) Hp) as Hmp.
      destruct s; cbn [cond_Zopp] in *; [exfalso; lia|].
      split; [reflexivity|]. split; [|reflexivity].
      rewrite Z.pow_add_r by lia. ring.
    + apply Z.leb_gt in He0.
      destruct (Zpos m mod 2 ^ (- e) =? 0) eqn:Hm; [|discriminate HN].
      apply Z.eqb_eq in Hm.
      assert (HN' : cond_Zopp s (Zpos m / 2 ^ (- e)) = N) by congruence.
      clear HN. subst N.
      assert (Hp : 0 < 2 ^ (- e)) by (apply Z.pow_pos_nonneg; lia).
      pose proof (Z.div_mod (Zpos m) (2 ^ (- e)) ltac:(lia)) as Hdm.
      rewrite Hm, Z.add_0_r in Hdm.
      assert (Hq : 0 < Zpos m / 2 ^ (- e)) by nia.
      destruct s; cbn [cond_Zopp] in *; [exfalso; lia|].
      split; [reflexivity|]. split; [|reflexivity].
      replace (2 ^ 1074) with (2 ^ (- e) * 2 ^ (e + 1074))
        by (rewrite <- Z.pow_add_r by lia; f_equal; lia).
      rewrite Hdm at 1. ring.
Qed.

Lemma ulps_integer_value x N :
  valid x -> isFinite x = true -> sign_bit x = false -> ulps x = N * 2 ^ 1074 ->
  integer_value x = Some N.
Proof.
  intros Hv Hf Hs Hu. destruct x as [s|s| |s m e]; try discriminate Hf.
  - unfold ulps in Hu. assert (HP : 0 < 2 ^ 1074) by (apply Z.pow_pos_nonneg; lia).
    unfold integer_value. f_equal. nia.
  - simpl in Hs. subst s. pose proof (valid_bounds _ _ _ Hv) as (_ & He & _).
    unfold ulps in Hu. unfold integer_value.
    assert (HP : 0 < 2 ^ 1074) by (apply Z.pow_pos_nonneg; lia).
    destruct (0 <=? e) eqn:He0.
    + apply Z.leb_le in He0. cbn [cond_Zopp]. f_equal.
      rewrite Z.pow_add_r in Hu by lia.
      apply (Z.mul_reg_r _ _ (2 ^ 1074)); [lia|]. rewrite <- Hu. ring.
    + apply Z.leb_gt in He0.
      assert (Hp : 0 < 2 ^ (- e)) by (apply Z.pow_pos_nonneg; lia).
      assert (HT : 0 < 2 ^ (e + 1074)) by (apply Z.pow_pos_nonneg; lia).
      assert (Hm : Zpos m = N * 2 ^ (- e)).
      { replace (2 ^ 1074) with (2 ^ (- e) * 2 ^ (e + 1074)) in Hu
          by (rewrite <- Z.pow_add_r by lia; f_equal; lia).
        nia. }
      rewrite Hm, Z.mod_mul, Z.div_mul by lia. reflexivity.
Qed.

(** ** The steps of [inchesToFraction] *)

(** The fractional part of a finite number is below one. *)
Lemma fraction_below_one x :
  valid x -> isFinite x = true ->
  let fr := sub (Math_abs x) (Math_floor (Math_abs x)) in
  fr = S754_zero false \/
  exists ma ea, fr = S754_finite false ma ea /\ valid fr /\
                Zpos ma * 2 ^ (ea + 1074) < 2 ^ 1074.
Proof.
  intros Hv Hf fr. unfold fr.
  destruct x as [s|s| |s m e]; [|discriminate Hf|discriminate Hf|].
  - left. destruct s; reflexivity.
  - simpl Math_abs.
    assert (Hv' : valid (S754_finite false m e)) by exact Hv.
    destruct (frac_part m e Hv') as [Hz|(f0 & Hf0 & He & Hlt & Hd & Hsub)];
      [left; exact Hz|right].
    cbv zeta in Hsub. rewrite Hsub.
    pose proof (Zdigits2_pos f0 Hf0) as Hdp.
    assert (Hc : cexp f0 e <= e) by (unfold cexp, fexp64; lia).
    assert (Hc' : cexp f0 e <= 971) by lia.
    pose proof (ulps_canon false f0 e Hf0 ltac:(lia) Hc) as Hu.
    exists (Z.to_pos (Z.shiftl f0 (e - cexp f0 e))), (cexp f0 e).
    split; [reflexivity|]. split; [apply canon_valid; [assumption|now left|assumption]|].
    unfold canon, ulps in Hu. rewrite Hu.
    assert (HT : 0 < 2 ^ (e + 1074)) by (apply Z.pow_pos_nonneg; lia).
    replace (2 ^ 1074) with (2 ^ (- e) * 2 ^ (e + 1074))
      by (rewrite <- Z.pow_add_r by lia; f_equal; lia).
    apply Z.mul_lt_mono_pos_r; assumption.
Qed.

(** The product of a number below one and a positive number [d] is
    finite and not above [d]. *)
Lemma mul_below ma ea md ed :
  valid (S754_finite false ma ea) -> valid (S754_finite false md ed) ->
  Zpos ma * 2 ^ (ea + 1074) < 2 ^ 1074 ->
  let y := mul (S754_finite false ma ea) (S754_finite false md ed) in
  isFinite y = true /\ sign_bit y = false /\ ulps y <= Zpos md * 2 ^ (ed + 1074).
Proof.
  intros Ha Hd Hlt y.
  pose proof (valid_bounds _ _ _ Ha) as (Hca & Hea & Hda).
  pose proof (valid_bounds _ _ _ Hd) as (Hcd & Hed & Hdd).
  pose proof (mul_enough ma ea md ed Ha Hd) as Hen.
  assert (HTa : 0 < 2 ^ (ea + 1074)) by (apply Z.pow_pos_nonneg; lia).
  assert (Hea0 : ea < 0).
  { destruct (Z_lt_le_dec ea 0) as [|Hge]; [assumption|exfalso].
    pose proof (Z.pow_le_mono_r 2 1074 (ea + 1074) ltac:(lia) ltac:(lia)). nia. }
  assert (Hpa : 0 < 2 ^ (- ea)) by (apply Z.pow_pos_nonneg; lia).
  assert (Hma : Zpos ma < 2 ^ (- ea)).
  { replace (2 ^ 1074) with (2 ^ (- ea) * 2 ^ (ea + 1074)) in Hlt
      by (rewrite <- Z.pow_add_r by lia; f_equal; lia).
    apply Z.mul_lt_mono_pos_r in Hlt; assumption. }
  pose proof (Zdigits2_lt_pow2 (Zpos ma) (- ea) ltac:(lia) ltac:(lia) Hma) as Hdma.
  pose proof (Zdigits2_mul_le (Zpos ma) (Zpos md) ltac:(lia) ltac:(lia)) as HdM.
  set (M := Zpos ma * Zpos md) in *.
  set (E := ea + ed) in *.
  set (c := cexp M E) in *.
  assert (Hc : c <= ed).
  { unfold c, cexp. unfold cexp in Hcd.
    apply Z.le_trans with (fexp64 (Zdigits2 (Zpos md) + ed)); [|lia].
    apply fexp64_mono. unfold E. lia. }
  assert (Hc0 : -1074 <= c) by apply fexp64_ge.
  assert (HM : 0 < M) by (unfold M; lia).
  destruct (binary_round_aux_shape false M E loc_Exact ltac:(lia) Hen)
    as (m2 & Hm2 & Hr & _ & _ & Heq).
  fold c in Hm2, Heq.
  assert (Hp1 : 0 < 2 ^ (c - E)) by (apply Z.pow_pos_nonneg; unfold c; lia).
  assert (Hp2 : 0 < 2 ^ (ed - c)) by (apply Z.pow_pos_nonneg; lia).
  assert (HM1 : M / 2 ^ (c - E) < Zpos md * 2 ^ (ed - c)).
  { apply Z.div_lt_upper_bound; [assumption|].
    replace (2 ^ (c - E) * (Zpos md * 2 ^ (ed - c))) with (2 ^ (- ea) * Zpos md).
    - unfold M. apply Z.mul_lt_mono_pos_r; lia.
    - replace (- ea) with ((c - E) + (ed - c)) by (unfold E; lia).
      rewrite Z.pow_add_r by (unfold c in *; lia). ring. }
  assert (Hb : m2 <= Zpos md * 2 ^ (ed - c)) by lia.
  assert (HT : 0 < 2 ^ (c + 1074)) by (apply Z.pow_pos_nonneg; lia).
  assert (Hbound : m2 * 2 ^ (c + 1074) <= Zpos md * 2 ^ (ed + 1074)).
  { replace (ed + 1074) with ((ed - c) + (c + 1074)) by lia.
    rewrite (Z.pow_add_r 2 (ed - c) (c + 1074)), Z.mul_assoc by lia.
    apply Z.mul_le_mono_nonneg_r; lia. }
  assert (Hy : y = binary_round_aux prec emax false M E loc_Exact) by reflexivity.
  rewrite Hy, Heq.
  destruct (m2 =? 0) eqn:H0.
  { split; [reflexivity|]. split; [reflexivity|]. simpl ulps.
    apply Z.mul_nonneg_nonneg; [lia|apply Z.pow_nonneg; lia]. }
  apply Z.eqb_neq in H0.
  destruct (m2 <? 2 ^ 53) eqn:Hlt53.
  - replace (c <=? 971) with true by (symmetry; apply Z.leb_le; lia).
    split; [reflexivity|]. split; [reflexivity|].
    unfold ulps. rewrite Z2Pos.id by lia. exact Hbound.
  - apply Z.ltb_ge in Hlt53. assert (Hm253 : m2 = 2 ^ 53) by lia.
    assert (Hcd' : c < ed).
    { destruct (Z_lt_le_dec c ed) as [|Hge]; [assumption|exfalso].
      replace (ed - c) with 0 in Hb by lia. rewrite Z.pow_0_r, Z.mul_1_r in Hb.
      pose proof (Zdigits2_bounds (Zpos md) ltac:(lia)) as [_ Hhi].
      pose proof (Z.pow_le_mono_r 2 (Zdigits2 (Zpos md)) 53 ltac:(lia) Hdd). lia. }
    replace (c + 1 <=? 971) with true by (symmetry; apply Z.leb_le; lia).
    split; [reflexivity|]. split; [reflexivity|].
    unfold ulps. change (Zpos 4503599627370496) with (2 ^ 52).
    rewrite <- Z.pow_add_r by lia.
    rewrite Hm253, <- Z.pow_add_r in Hbound by lia.
    replace (52 + (c + 1 + 1074)) with (53 + (c + 1074)) by lia. exact Hbound.
Qed.

(** [Math.round] of a number from 0 to an integer [B] is an integer from
    0 to [B]. *)
Lemma Math_round_integer y B :
  valid y -> isFinite y = true -> sign_bit y = false -> ulps y <= B * 2 ^ 1074 ->
  exists N, 0 <= N <= B /\ valid (Math_round y) /\ isFinite (Math_round y) = true /\
            sign_bit (Math_round y) = false /\ ulps (Math_round y) = N * 2 ^ 1074.
Proof.
  intros Hv Hf Hs Hu.
  assert (HP : 0 < 2 ^ 1074) by (apply Z.pow_pos_nonneg; lia).
  destruct y as [s|s| |s m e]; [|discriminate Hf|discriminate Hf|];
    simpl in Hs; subst s.
  - exists 0. unfold ulps in Hu. split; [nia|]. repeat split.
  - pose proof (valid_bounds _ _ _ Hv) as (Hc & He & Hd).
    unfold ulps in Hu.
    assert (HT : 0 < 2 ^ (e + 1074)) by (apply Z.pow_pos_nonneg; lia).
    unfold Math_round. destruct (0 <=? e) eqn:He0.
    + apply Z.leb_le in He0. exists (Zpos m * 2 ^ e).
      assert (Hpe : 0 < 2 ^ e) by (apply Z.pow_pos_nonneg; lia).
      rewrite Z.pow_add_r in Hu by lia.
      split; [split; [nia|]|].
      { apply Z.mul_le_mono_pos_r with (p := 2 ^ 1074); [lia|].
        rewrite <- Z.mul_assoc. exact Hu. }
      split; [exact Hv|]. split; [reflexivity|]. split; [reflexivity|].
      unfold ulps. rewrite Z.pow_add_r by lia. ring.
    + apply Z.leb_gt in He0. simpl signed_mantissa.
      set (k := - e). assert (Hk : 0 < k) by (unfold k; lia).
      rewrite (Z.shiftl_mul_pow2 1), Z.shiftr_div_pow2, Z.mul_1_l by lia.
      assert (Hpk : 0 < 2 ^ k) by (apply Z.pow_pos_nonneg; lia).
      assert (Hpk1 : 2 ^ (k + 1) = 2 * 2 ^ k)
        by (rewrite Z.pow_add_r, Z.pow_1_r by lia; ring).
      assert (Hpk2 : 2 <= 2 ^ k).
      { change 2 with (2 ^ 1) at 1. apply Z.pow_le_mono_r; lia. }
      set (N := (2 * Zpos m + 2 ^ k) / 2 ^ (k + 1)).
      assert (HmB : Zpos m <= B * 2 ^ k).
      { replace (2 ^ 1074) with (2 ^ k * 2 ^ (e + 1074)) in Hu
          by (rewrite <- Z.pow_add_r by lia; f_equal; unfold k; lia).
        rewrite Z.mul_assoc in Hu.
        apply Z.mul_le_mono_pos_r in Hu; assumption. }
      assert (HN0 : 0 <= N) by (apply Z.div_pos; lia).
      assert (HNB : N < B + 1).
      { apply Z.div_lt_upper_bound; [lia|]. rewrite Hpk1. nia. }
      pose proof (Zdigits2_bounds (Zpos m) ltac:(lia)) as [_ Hhi].
      pose proof (Z.pow_le_mono_r 2 (Zdigits2 (Zpos m)) 53 ltac:(lia) Hd) as H53.
      assert (HN53 : N < 2 ^ 53 + 1).
      { apply Z.div_lt_upper_bound; [lia|]. rewrite Hpk1.
        remember (2 ^ 53) as T53. remember (2 ^ k) as Pk. nia. }
      exists N. split; [lia|].
      split; [apply of_int_signed_valid|].
      destruct (Z.eq_dec N 0) as [HN|HN].
      * rewrite HN. repeat split.
      * rewrite of_int_signed_pos by lia.
        destruct (of_Z_ulps N ltac:(lia)) as (H1 & H2 & H3). auto.
Qed.

(** A quotient that is an integer takes no rounding. *)
Lemma div_exact a mr er A G :
  valid a -> isFinite a = true -> sign_bit a = false ->
  valid (S754_finite false mr er) ->
  ulps a = A * 2 ^ 1074 -> Zpos mr * 2 ^ (er + 1074) = G * 2 ^ 1074 -> (G | A) ->
  let q := div a (S754_finite false mr er) in
  valid q /\ isFinite q = true /\ sign_bit q = false /\ ulps q = A / G * 2 ^ 1074.
Proof.
  intros Ha Hfa Hsa Hr HuA HuG Hdiv q.
  assert (HP : 0 < 2 ^ 1074) by (apply Z.pow_pos_nonneg; lia).
  destruct (integer_exact mr er G Hr HuG) as (HG & _ & _ & HdG).
  pose proof (valid_bounds _ _ _ Hr) as (Hc2 & He2 & Hd2).
  destruct a as [s|s| |s m1 e1]; [|discriminate Hfa|discriminate Hfa|];
    simpl in Hsa; subst s.
  - unfold ulps in HuA. assert (HA : A = 0) by nia. subst A.
    rewrite Z.div_0_l by lia. repeat split.
  - unfold ulps in HuA.
    destruct (integer_exact m1 e1 A Ha HuA) as (HA & HexA & HcA & HdA).
    pose proof (valid_bounds _ _ _ Ha) as (Hc1 & He1 & Hd1).
    destruct Hdiv as [K HK].
    assert (HKpos : 0 < K) by nia.
    pose proof (exact_quotient A G K HKpos HG HK HexA) as HexK.
    assert (HKdiv : A / G = K) by (rewrite HK; apply Z.div_mul; lia).
    rewrite HKdiv.
    assert (HdK1 : Zdigits2 K <= Zdigits2 A) by (apply Zdigits2_le; nia).
    pose proof (Zdigits2_mul_le K G HKpos HG) as HdK2. rewrite <- HK in HdK2.
    pose proof (Zdigits2_pos K HKpos) as HdKpos.
    set (c := cexp K 0) in *.
    assert (Hc971 : c <= 971).
    { unfold c, cexp. unfold cexp in HcA. rewrite <- HcA in He1.
      pose proof (fexp64_mono (Zdigits2 K + 0) (Zdigits2 A + 0) ltac:(lia)). lia. }
    destruct (canon_integer K HKpos HexK Hc971) as [Hvq Huq].
    set (e' := Z.min (fexp64 (Zdigits2 (Zpos m1) + e1 - (Zdigits2 (Zpos mr) + er)))
                     (e1 - er)).
    assert (He'c : e' <= c).
    { unfold e', c, cexp.
      pose proof (fexp64_mono (Zdigits2 (Zpos m1) + e1 - (Zdigits2 (Zpos mr) + er))
                    (Zdigits2 K + 0) ltac:(lia)). lia. }
    assert (Hs : 0 <= e1 - er - e') by (unfold e'; lia).
    assert (HT2 : 0 < 2 ^ (er + 1074)) by (apply Z.pow_pos_nonneg; lia).
    assert (Hq : exists q0, Zpos m1 * 2 ^ (e1 - er - e') = q0 * Zpos mr /\ 0 < q0 /\
                 canon false q0 e' = canon false K 0 /\ cexp q0 e' = c /\
                 (2 ^ (c - e') | q0)).
    { destruct (Z_le_dec e' 0) as [Hle|Hgt].
      - assert (Hpe : 0 < 2 ^ (- e')) by (apply Z.pow_pos_nonneg; lia).
        exists (K * 2 ^ (- e')). split; [|split; [nia|split; [|split]]].
        + apply Z.mul_reg_r with (p := 2 ^ (er + 1074)); [lia|].
          rewrite <- Z.mul_assoc, <- Z.pow_add_r by lia.
          replace (e1 - er - e' + (er + 1074)) with ((e1 + 1074) + (- e')) by lia.
          rewrite Z.pow_add_r, Z.mul_assoc, HuA, HK by lia.
          rewrite <- (Z.mul_assoc (K * 2 ^ (- e'))), HuG. ring.
        + replace e' with (0 - (- e')) at 2 by lia. apply canon_shift; lia.
        + unfold c, cexp. rewrite Zdigits2_mul_pow2 by lia. f_equal. lia.
        + destruct (Z_le_dec c 0) as [Hc0|Hc0].
          * exists (K * 2 ^ (- c)). rewrite <- Z.mul_assoc, <- Z.pow_add_r by lia.
            f_equal. f_equal. lia.
          * destruct HexK as [HexK|[z Hz]]; [fold c in HexK; lia|].
            fold c in Hz. rewrite Z.sub_0_r in Hz.
            exists z. rewrite Hz at 1. rewrite <- !Z.mul_assoc, <- Z.pow_add_r by lia.
            reflexivity.
      - destruct HexK as [HexK|[z Hz]]; [fold c in HexK; lia|].
        fold c in Hz. rewrite Z.sub_0_r in Hz.
        assert (Hpe : 0 < 2 ^ e') by (apply Z.pow_pos_nonneg; lia).
        assert (Hpc : 0 < 2 ^ (c - e')) by (apply Z.pow_pos_nonneg; lia).
        assert (HKq : K = z * 2 ^ (c - e') * 2 ^ e').
        { rewrite <- Z.mul_assoc, <- Z.pow_add_r by lia.
          replace (c - e' + e') with c by lia. exact Hz. }
        assert (Hzpos : 0 < z).
        { assert (0 < 2 ^ c) by (apply Z.pow_pos_nonneg; lia). nia. }
        exists (z * 2 ^ (c - e')). split; [|split; [nia|split; [|split]]].
        + apply Z.mul_reg_r with (p := 2 ^ e'); [lia|].
          apply Z.mul_reg_r with (p := 2 ^ (er + 1074)); [lia|].
          rewrite <- !Z.mul_assoc, <- !Z.pow_add_r by lia.
          replace (e1 - er - e' + (e' + (er + 1074))) with (e1 + 1074) by lia.
          rewrite HuA, HK, HKq.
          rewrite (Z.pow_add_r 2 e') by lia.
          rewrite (Z.mul_assoc (Zpos mr)), (Z.mul_comm (Zpos mr) (2 ^ e')).
          rewrite <- (Z.mul_assoc (2 ^ e')), HuG. ring.
        + rewrite HKq. symmetry.
          pose proof (canon_shift false (z * 2 ^ (c - e')) e' e' ltac:(nia) ltac:(lia))
            as Hcs.
          replace (e' - e') with 0 in Hcs by lia. exact Hcs.
        + assert (Hdig : Zdigits2 K = Zdigits2 (z * 2 ^ (c - e')) + e').
          { rewrite HKq at 1. apply Zdigits2_mul_pow2; [nia|lia]. }
          transitivity (fexp64 (Zdigits2 K + 0)); [|reflexivity].
          unfold cexp. f_equal. lia.
        + exists z. reflexivity. }
    destruct Hq as (q0 & Hm' & Hq0 & Hcan & Hcq & Hdq).
    assert (Hqe : q = canon false K 0).
    { unfold q, div, SFdiv. rewrite SFdiv_core_binary_spec by lia.
      fold e'. rewrite Hm', Z_mod_mult, Z.div_mul by lia.
      rewrite new_location_0. simpl xorb.
      rewrite binary_round_aux_exact; rewrite ?Hcq; try assumption; lia. }
    rewrite Hqe. split; [exact Hvq|]. split; [reflexivity|]. split; [reflexivity|].
    exact Huq.
Qed.

(** ** The invariant *)

(** C3, the counterexamples.  One inch at sixteenths has the numerator 0
    and the denominator 1, not the requested 16.  The invariant needs a
    denominator that is a positive integer: 0.9 inches with the
    denominator 0.75 is 4/3, and 0.99 inches with the denominator -16 is
    the whole part 1 and 0/-16. *)
Lemma C3_denominator_not_kept :
  (exists f, inchesToFraction (Num one) n16 = Normal f /\
             whole f = one /\ num f = zero /\ denom f = one /\ denom f <> n16) /\
  inchesToFraction (Num (of_decimal false 9 (-1))) (of_decimal false 75 (-2))
  = Normal (mkFraction "" zero (of_Z 4) (of_Z 3)) /\
  inchesToFraction (Num (of_decimal false 99 (-2))) (of_Z (-16))
  = Normal (mkFraction "" one zero (of_Z (-16))).
Proof.
  split; [|split; vm_compute; reflexivity].
  eexists. split; [vm_compute; reflexivity|].
  repeat split. discriminate.
Qed.

(** C3, amended.  For every finite inch value and every requested
    denominator that is a positive integer, the call returns a fraction
    whose numerator [n] and denominator [d] are integers with
    [0 <= n < d], where [d] divides the requested denominator; if the
    numerator is not 0 they have no common factor; and if the numerator
    is 0 the denominator is 1, or, in the case where rounding carried into
    the whole part, the requested one. *)
Theorem C3_fraction_invariant (x d : number) (D : Z) :
  valid x -> isFinite x = true ->
  valid d -> integer_value d = Some D -> 1 <= D ->
  exists f n dd,
    inchesToFraction (Num x) d = Normal f /\
    integer_value (num f) = Some n /\ integer_value (denom f) = Some dd /\
    0 <= n < dd /\ (dd | D) /\
    (n <> 0 -> Z.gcd n dd = 1) /\
    (n = 0 -> dd = 1 \/
              (denom f = d /\ whole f = add (Math_floor (Math_abs x)) one)).
Proof.
  intros Hv Hf Hd HD HD1.
  assert (HP : 0 < 2 ^ 1074) by (apply Z.pow_pos_nonneg; lia).
  destruct (integer_value_ulps d D Hd HD ltac:(lia)) as (Hfd & Hud & Hsd).
  specialize (Hsd ltac:(lia)).
  destruct d as [sd|sd| |sd md ed]; [|discriminate Hfd|discriminate Hfd|].
  { unfold ulps in Hud. exfalso. nia. }
  simpl in Hsd. subst sd.
  assert (Hud' : Zpos md * 2 ^ (ed + 1074) = D * 2 ^ 1074) by exact Hud.
  set (d := S754_finite false md ed) in *.
  unfold inchesToFraction. rewrite Hf. simpl negb. cbv iota zeta.
  set (fr := sub (Math_abs x) (Math_floor (Math_abs x))).
  assert (Hvfr : valid fr).
  { apply sub_valid; [|apply Math_floor_valid]; apply Math_abs_valid; exact Hv. }
  assert (Hy : isFinite (mul fr d) = true /\ sign_bit (mul fr d) = false /\
               ulps (mul fr d) <= D * 2 ^ 1074).
  { destruct (fraction_below_one x Hv Hf) as [Hz|(ma & ea & Hfr & Hva & Hlt)];
      fold fr in Hz || fold fr in Hfr, Hva.
    - rewrite Hz. split; [reflexivity|]. split; [reflexivity|]. simpl ulps. lia.
    - rewrite Hfr in Hva |- *. rewrite <- Hud'. apply mul_below; assumption. }
  destruct Hy as (Hfy & Hsy & Huy).
  destruct (Math_round_integer (mul fr d) D (mul_valid _ _ Hvfr Hd) Hfy Hsy Huy)
    as (N & HN & Hvn & Hfn & Hsn & Hun).
  set (nr := Math_round (mul fr d)) in *.
  destruct (strict_eq nr d) eqn:Heq.
  - eexists. exists 0, D. split; [reflexivity|]. cbn [num denom whole].
    split; [reflexivity|]. split; [exact HD|]. split; [lia|].
    split; [apply Z.divide_refl|]. split; [intros H; now elim H|].
    intros _. right. split; reflexivity.
  - assert (HND : N <> D).
    { intros ->. assert (Hnd : nr = d).
      { apply ulps_inj; try assumption; try reflexivity. rewrite Hun, Hud. reflexivity. }
      rewrite Hnd in Heq. unfold strict_eq, SFeqb in Heq.
      rewrite SFcompare_refl in Heq; discriminate. }
    destruct (g_total nr d Hvn Hd) as [r Hr]. rewrite Hr. cbn [bind].
    destruct (g_gcd _ _ _ _ Hvn Hd Hfn Hfd Hr) as (Hvr & Hfr' & Hur & Hsr).
    specialize (Hsr Hsn eq_refl).
    rewrite Hun, Hud, Z.gcd_mul_mono_r_nonneg in Hur by lia.
    set (G := Z.gcd N D) in *.
    assert (HG : 0 < G).
    { unfold G. pose proof (Z.gcd_nonneg N D).
      destruct (Z.eq_dec (Z.gcd N D) 0) as [H0|H0]; [|lia].
      apply Z.gcd_eq_0_r in H0. lia. }
    destruct r as [sr|sr| |sr mr er]; [|discriminate Hfr'|discriminate Hfr'|].
    { unfold ulps in Hur. exfalso. nia. }
    simpl in Hsr. subst sr. cbn [truthy].
    assert (Hur' : Zpos mr * 2 ^ (er + 1074) = G * 2 ^ 1074) by exact Hur.
    destruct (div_exact nr mr er N G Hvn Hfn Hsn Hvr Hun Hur' (Z.gcd_divide_l N D))
      as (Hv1 & Hf1 & Hs1 & Hu1).
    destruct (div_exact d mr er D G Hd Hfd eq_refl Hvr Hud Hur' (Z.gcd_divide_r N D))
      as (Hv2 & Hf2 & Hs2 & Hu2).
    destruct (Z.gcd_divide_l N D) as [qn Hqn].
    destruct (Z.gcd_divide_r N D) as [qd Hqd].
    fold G in Hqn, Hqd.
    assert (HNq : N / G = qn) by (rewrite Hqn at 1; apply Z.div_mul; lia).
    assert (HDq : D / G = qd) by (rewrite Hqd at 1; apply Z.div_mul; lia).
    eexists. exists (N / G), (D / G). split; [reflexivity|]. cbn [num denom whole].
    split; [apply ulps_integer_value; assumption|].
    split; [apply ulps_integer_value; assumption|].
    rewrite HNq, HDq.
    split; [nia|]. split; [exists G; lia|]. split.
    + intros _. apply Z.mul_reg_l with (p := G); [lia|].
      rewrite <- Z.gcd_mul_mono_l_nonneg by lia.
      rewrite (Z.mul_comm G qn), (Z.mul_comm G qd), <- Hqn, <- Hqd. fold G. lia.
    + intros Hq0. left.
      assert (HN0 : N = 0) by nia.
      assert (HGD : G = D).
      { unfold G. rewrite HN0, Z.gcd_0_l. apply Z.abs_eq. lia. }
      rewrite HGD in Hqd. nia.
Qed.

Lemma C3_fraction_invariant_witness :
  exists f n dd,
    inchesToFraction (Num (of_decimal true 23 (-1))) n12 = Normal f /\
    integer_value (num f) = Some n /\ integer_value (denom f) = Some dd /\
    0 <= n < dd /\ (dd | 12) /\
    (n <> 0 -> Z.gcd n dd = 1) /\
    (n = 0 -> dd = 1 \/
              (denom f = n12 /\
               whole f = add (Math_floor (Math_abs (of_decimal true 23 (-1)))) one)).
Proof.
  apply (C3_fraction_invariant (of_decimal true 23 (-1)) n12 12).
  - vm_compute. reflexivity.
  - vm_compute. reflexivity.
  - vm_compute. reflexivity.
  - vm_compute. reflexivity.
  - lia.
Defined.
